(** * Verification of the SmartDIP operation pipeline

    A shallow embedding of the image-processing web tool: the transform
    classes under [DIP/modules] and the [/process] route of [DIP/app.py].

    Python code is embedded as monadic Rocq code over an explicit world:
    numpy arrays live in a heap and are passed by reference, the
    process-wide random generator is a tape of raw draws, exceptions are
    an outcome of every computation.  Calls into OpenCV and numpy whose
    numeric results no property depends on go through one foreign-function
    oracle; the few library operations that properties do depend on
    (array arithmetic on bytes, grey/colour conversion, fixed thresholds,
    filled circles, masked assignment) are given by their definitions. *)

From Stdlib Require Import ZArith List Lia Bool Ascii String DecimalString.
From stdpp Require Import base list strings gmap.

Set Warnings "-register-all".
Open Scope string_scope.
Open Scope list_scope.
Open Scope Z_scope.

(** ** Python values *)

(** Exceptions, each with the text [str(e)] gives. *)
Inductive exn :=
| TypeError (msg : string)
| ValueError (msg : string)
| AttributeError (msg : string)
| IndexError (msg : string)
| ZeroDivisionError (msg : string)
| cv2_error (msg : string).

Definition str_exn (e : exn) : string :=
  match e with
  | TypeError m | ValueError m | AttributeError m
  | IndexError m | ZeroDivisionError m | cv2_error m => m
  end.

Inductive outcome (A : Type) :=
| Ret (a : A)
| Raise (e : exn).
Arguments Ret {A} a.
Arguments Raise {A} e.

(** A BGR sample triple of an 8-bit colour image. *)
Definition pixel : Type := Z * Z * Z.

(** numpy arrays.  8-bit images and 32-bit label maps are spelled out,
    every other array (float32/float64 planes, complex spectra, kernels,
    boolean masks built by the library) is a typed buffer. *)
Inductive ndarray :=
| Gray (rows : list (list Z))
| Color (rows : list (list pixel))
| Labels (rows : list (list Z))
| Raw (dtype : string) (shape : list Z) (buf : list Z).

Definition loc := nat.

(** Values that flow between the request, the transforms and the library.
    A float is denoted by its [repr]. *)
Inductive pyval :=
| VNone
| VBool (b : bool)
| VInt (z : Z)
| VFloat (repr : string)
| VStr (s : string)
| VList (vs : list pyval)
| VTuple (vs : list pyval)
| VArr (a : ndarray)
| VRef (l : loc).

(** Keyword arguments, [**params]. *)
Definition kwargs := list (string * pyval).

(** ** Printing, as [str] and f-strings do *)

Definition str_int (z : Z) : string := NilZero.string_of_int (Z.to_int z).

Definition join (sep : string) (l : list string) : string :=
  match l with
  | [] => ""
  | x :: xs => fold_left (fun acc s => acc +:+ sep +:+ s) xs x
  end.

Definition squote : string := String (ascii_of_nat 39) EmptyString.
Definition dquote : string := String (ascii_of_nat 34) EmptyString.

(** [sep in s], for a one-character [sep] *)
Fixpoint contains (sep : ascii) (s : string) : bool :=
  match s with
  | EmptyString => false
  | String c rest => Ascii.eqb c sep || contains sep rest
  end.

Definition backslash : ascii := ascii_of_nat 92.

(** [str.isprintable] on one character below 256: the ASCII characters
    from the space to the tilde and, above them, all but the controls
    128-159, the no-break space 160 and the soft hyphen 173. *)
Definition printable (c : ascii) : bool :=
  let n := Z.of_nat (nat_of_ascii c) in
  ((32 <=? n) && (n <=? 126)) || ((161 <=? n) && negb (n =? 173)).

Definition hex_digit (n : nat) : ascii :=
  if (n <? 10)%nat then ascii_of_nat (48 + n) else ascii_of_nat (87 + n).

(** One character of a string under [repr], [quote] being the quote the
    string is put in. *)
Definition escaped (quote c : ascii) : string :=
  let n := nat_of_ascii c in
  if Ascii.eqb c quote || Ascii.eqb c backslash
  then String backslash (String c EmptyString)
  else if (n =? 9)%nat then String backslash "t"
  else if (n =? 10)%nat then String backslash "n"
  else if (n =? 13)%nat then String backslash "r"
  else if printable c then String c EmptyString
  else String backslash
         (String "x" (String (hex_digit (n / 16))
                        (String (hex_digit (n mod 16)) EmptyString))).

(** [repr] of a string whose characters are below 256: single quotes,
    or double quotes when the string holds a single quote and no double
    one. *)
Definition repr_str (s : string) : string :=
  let quote :=
    if contains (ascii_of_nat 39) s && negb (contains (ascii_of_nat 34) s)
    then ascii_of_nat 34 else ascii_of_nat 39 in
  String quote
    (String.concat EmptyString (map (escaped quote) (list_ascii_of_string s))
     +:+ String quote EmptyString).

(** [repr] of a value.  A tuple of one element keeps its comma. *)
Fixpoint py_repr (v : pyval) : string :=
  match v with
  | VNone => "None"
  | VBool true => "True"
  | VBool false => "False"
  | VInt z => str_int z
  | VFloat r => r
  | VStr s => repr_str s
  | VList vs => "[" +:+ join ", " (map py_repr vs) +:+ "]"
  | VTuple vs =>
      "(" +:+ join ", " (map py_repr vs)
      +:+ (if (length vs =? 1)%nat then ",)" else ")")
  | VArr _ => "array(...)"
  | VRef _ => "array(...)"
  end.

Definition py_str (v : pyval) : string :=
  match v with
  | VStr s => s
  | _ => py_repr v
  end.

Definition type_name (v : pyval) : string :=
  match v with
  | VNone => "NoneType"
  | VBool _ => "bool"
  | VInt _ => "int"
  | VFloat _ => "float"
  | VStr _ => "str"
  | VList _ => "list"
  | VTuple _ => "tuple"
  | VArr _ | VRef _ => "numpy.ndarray"
  end.

(** ** The world of a request *)

(** [heap]: every array object alive, addressed by allocation order.
    [rng]: the raw values the process-wide random generators will hand
    out next (an exhausted tape hands out 0).
    [invoked]: ghost record of the attribute names the dispatcher has
    called, oldest first. *)
Record world := World {
  heap : list ndarray;
  rng : list Z;
  invoked : list string
}.

Definition set_heap (h : list ndarray) (w : world) : world :=
  {| heap := h; rng := rng w; invoked := invoked w |}.
Definition set_rng (t : list Z) (w : world) : world :=
  {| heap := heap w; rng := t; invoked := invoked w |}.
Definition set_invoked (i : list string) (w : world) : world :=
  {| heap := heap w; rng := rng w; invoked := i |}.

(** Computations: an outcome and the world left behind (side effects made
    before an exception stay). *)
Definition M (A : Type) : Type := world -> outcome A * world.

Definition ret {A} (a : A) : M A := fun w => (Ret a, w).
Definition raise {A} (e : exn) : M A := fun w => (Raise e, w).
Definition lift {A} (o : outcome A) : M A := fun w => (o, w).
Definition bind {A B} (m : M A) (k : A -> M B) : M B :=
  fun w => match m w with
           | (Ret a, w') => k a w'
           | (Raise e, w') => (Raise e, w')
           end.
Definition try_except {A} (body : M A) (handler : exn -> M A) : M A :=
  fun w => match body w with
           | (Ret a, w') => (Ret a, w')
           | (Raise e, w') => handler e w'
           end.

Notation "'let!' x ':=' m 'in' k" := (bind m (fun x => k))
  (at level 10, x name, m at level 200, k at level 200,
   format "'[v' 'let!'  x  ':='  m  'in' '/' k ']'").

Fixpoint traverse {A B} (f : A -> M B) (l : list A) : M (list B) :=
  match l with
  | [] => ret []
  | x :: xs => let! y := f x in let! ys := traverse f xs in ret (y :: ys)
  end.

(** [for x in l: body x] *)
Fixpoint for_each {A} (l : list A) (body : A -> M unit) : M unit :=
  match l with
  | [] => ret tt
  | x :: xs => let! _ := body x in for_each xs body
  end.

Definition new (a : ndarray) : M loc :=
  fun w => (Ret (length (heap w)), set_heap (heap w ++ [a]) w).
Definition load (l : loc) : M ndarray :=
  fun w => match heap w !! l with
           | Some a => (Ret a, w)
           | None => (Raise (ValueError "dangling array reference"), w)
           end.
Definition store (l : loc) (a : ndarray) : M unit :=
  fun w => (Ret tt, set_heap (<[l := a]> (heap w)) w).
Definition draw : M Z :=
  fun w => match rng w with
           | [] => (Ret 0, w)
           | z :: t => (Ret z, set_rng t w)
           end.
Definition note_invoked (name : string) : M unit :=
  fun w => (Ret tt, set_invoked (invoked w ++ [name]) w).

(** Does a value hold a reference anywhere? *)
Fixpoint has_ref (v : pyval) : bool :=
  match v with
  | VRef _ => true
  | VList vs | VTuple vs =>
      (fix any (l : list pyval) : bool :=
         match l with
         | [] => false
         | x :: xs => has_ref x || any xs
         end) vs
  | _ => false
  end.

(** References in and out of library calls: the library sees array
    contents and hands back values, and every array it hands back is a new
    object (a reference among its results is refused). *)
Definition unbox1 (v : pyval) : M pyval :=
  match v with
  | VRef l => let! a := load l in ret (VArr a)
  | _ => ret v
  end.
Definition unbox (v : pyval) : M pyval :=
  match v with
  | VList vs => let! vs' := traverse unbox1 vs in ret (VList vs')
  | VTuple vs => let! vs' := traverse unbox1 vs in ret (VTuple vs')
  | _ => unbox1 v
  end.
Definition box1 (v : pyval) : M pyval :=
  match v with
  | VArr a => let! l := new a in ret (VRef l)
  | _ => ret v
  end.
Definition box (v : pyval) : M pyval :=
  match v with
  | VList vs => let! vs' := traverse box1 vs in ret (VList vs')
  | VTuple vs => let! vs' := traverse box1 vs in ret (VTuple vs')
  | _ => box1 v
  end.

(** The array behind a value ([AttributeError] for a value that is none). *)
Definition array_of (v : pyval) : M ndarray :=
  match v with
  | VRef l => load l
  | VArr a => ret a
  | _ => raise (AttributeError
           (squote +:+ type_name v +:+ "' object has no attribute 'shape'"))
  end.

(** ** numpy on 8-bit images *)

Definition width_of {A} (rows : list (list A)) : Z :=
  match rows with
  | [] => 0
  | r :: _ => Z.of_nat (length r)
  end.

(** [a.shape] *)
Definition np_shape (a : ndarray) : list Z :=
  match a with
  | Gray rows | Labels rows => [Z.of_nat (length rows); width_of rows]
  | Color rows => [Z.of_nat (length rows); width_of rows; 3]
  | Raw _ s _ => s
  end.

Definition is_empty (a : ndarray) : bool :=
  existsb (Z.eqb 0) (np_shape a).

Definition map_px (f : Z -> Z) (p : pixel) : pixel :=
  let '(b, g, r) := p in (f b, f g, f r).

(** The samples of an 8-bit image, row by row. *)
Definition samples (a : ndarray) : list Z :=
  match a with
  | Gray rows | Labels rows => concat rows
  | Color rows => concat (map (fun row => concat (map (fun '(b, g, r) => [b; g; r]) row)) rows)
  | Raw _ _ buf => buf
  end.

(** An 8-bit image proper: every row as wide as the first, every sample a
    byte. *)
Definition rectangular {A} (rows : list (list A)) : Prop :=
  Forall (fun row => Z.of_nat (length row) = width_of rows) rows.
Definition is_u8 (a : ndarray) : Prop :=
  match a with
  | Gray rows => rectangular rows /\ Forall (fun x => 0 <= x < 256) (concat rows)
  | Color rows => rectangular rows /\ Forall (fun x => 0 <= x < 256) (samples (Color rows))
  | _ => False
  end.

(** [c - a] for a Python int [c] and a uint8 array [a]: computed in uint8,
    that is modulo 256. *)
Definition u8_rsub (c : Z) (x : Z) : Z := (c - x) mod 256.

(** [dst[mask == key] = value]: rows and columns are paired off. *)
Definition masked_fill {A} (mask : list (list Z)) (key : Z) (value : A)
    (dst : list (list A)) : list (list A) :=
  zip_with (fun mrow drow =>
    zip_with (fun m d => if m =? key then value else d) mrow drow) mask dst.

(** [np.hstack] of 3-channel images of one height: rows are joined. *)
Fixpoint hstack_rows (imgs : list (list (list pixel))) : list (list pixel) :=
  match imgs with
  | [] => []
  | [a] => a
  | a :: rest => zip_with app a (hstack_rows rest)
  end.

(** ** OpenCV on 8-bit images *)

Definition COLOR_BGR2GRAY : Z := 6.
Definition COLOR_GRAY2BGR : Z := 8.
Definition COLOR_BGR2YCrCb : Z := 36.
Definition COLOR_YCrCb2BGR : Z := 38.
Definition COLOR_BGR2HSV : Z := 40.
Definition COLOR_BGR2LAB : Z := 44.
Definition COLOR_LAB2BGR : Z := 56.
Definition THRESH_BINARY : Z := 0.
Definition THRESH_BINARY_INV : Z := 1.
Definition THRESH_TRUNC : Z := 2.
Definition THRESH_TOZERO : Z := 3.
Definition THRESH_TOZERO_INV : Z := 4.
Definition THRESH_OTSU : Z := 8.

Definition gray2bgr (rows : list (list Z)) : list (list pixel) :=
  map (map (fun y => (y, y, y))) rows.

Definition saturate_u8 (z : Z) : Z := Z.max 0 (Z.min 255 z).

(** The integers a C [int] holds. *)
Definition is_int32 (z : Z) : bool := (-2147483648 <=? z) && (z <=? 2147483647).

(** [cv2.threshold] on one 8-bit sample, for the five plain types, with
    [thresh] and [maxval] as the [int]s OpenCV compares with. *)
Definition threshold_u8 (thresh maxval type : Z) (x : Z) : Z :=
  if type =? THRESH_BINARY then (if thresh <? x then saturate_u8 maxval else 0)
  else if type =? THRESH_BINARY_INV then (if thresh <? x then 0 else saturate_u8 maxval)
  else if type =? THRESH_TRUNC then (if thresh <? x then saturate_u8 thresh else x)
  else if type =? THRESH_TOZERO then (if thresh <? x then x else 0)
  else (if thresh <? x then 0 else x).

(** A filled circle ([thickness = -1]) drawn into a single-channel image:
    the samples within [radius] of the centre take [color]. *)
Definition draw_disc (cx cy radius color : Z) (rows : list (list Z)) : list (list Z) :=
  imap (fun y row =>
    imap (fun x v =>
      if (Z.of_nat x - cx) * (Z.of_nat x - cx) + (Z.of_nat y - cy) * (Z.of_nat y - cy)
           <=? radius * radius
      then color else v) row) rows.

(** ** The explanations the transforms return

    The text of each [description], with the values an f-string
    interpolates as parameters. *)

(** The explanation [grayscale] returns. *)
Definition grayscale_description : string :=
  "
        <strong>Grayscale Conversion</strong><br>
        This operation converts a color image to grayscale by removing all color information.
        Each pixel's intensity is calculated from its RGB values using the formula:<br>
        <code>Y = 0.299*R + 0.587*G + 0.114*B</code><br>
        Grayscale is often used as a preprocessing step for many image processing algorithms.
        ".

(** The explanation [negative] returns. *)
Definition negative_description : string :=
  "
        <strong>Negative Image</strong><br>
        The negative operation inverts all pixel values by subtracting them from the maximum possible value (255).
        This creates an effect similar to a photographic negative where dark areas become light and vice versa.
        Mathematically: <code>g(x,y) = 255 - f(x,y)</code> for each pixel location (x,y).
        ".

(** The explanation [threshold] returns. *)
Definition threshold_description (threshold_type_name threshold_value max_value : string) : string :=
  "
        <strong>Thresholding (" +:+ threshold_type_name +:+ ")</strong><br>
        Threshold value: " +:+ threshold_value +:+ "<br>
        Max value: " +:+ max_value +:+ "<br><br>
        
        Thresholding creates a binary image by setting all pixels above a threshold value to 
        one value (typically white) and all pixels below the threshold to another value (typically black).
        This is useful for segmentation, extracting objects from backgrounds, and converting grayscale
        images to binary for further processing.
        ".

(** The explanation [adjust_brightness] returns. *)
Definition adjust_brightness_description (beta : string) : string :=
  "
        <strong>Brightness Adjustment</strong><br>
        Adjustment value: " +:+ beta +:+ "<br><br>
        
        This operation adjusts the brightness of an image by adding a constant value (beta) to each pixel.
        Positive values increase brightness while negative values decrease it.
        Mathematically: <code>g(x,y) = f(x,y) + beta</code> (with clipping to stay within valid range).
        ".

(** The explanation [adjust_contrast] returns. *)
Definition adjust_contrast_description (alpha : string) : string :=
  "
        <strong>Contrast Adjustment</strong><br>
        Adjustment factor: " +:+ alpha +:+ "<br><br>
        
        This operation adjusts the contrast of an image by multiplying each pixel by a constant value (alpha).
        Values greater than 1 increase contrast while values between 0 and 1 decrease contrast.
        Mathematically: <code>g(x,y) = alpha * f(x,y)</code> (with clipping to stay within valid range).
        ".

(** The explanation [gaussian_blur] returns. *)
Definition gaussian_blur_description (kernel_size sigma_x : string) : string :=
  "
        <strong>Gaussian Blur</strong><br>
        Kernel size: " +:+ kernel_size +:+ "x" +:+ kernel_size +:+ "<br>
        Sigma X: " +:+ sigma_x +:+ "<br><br>
        
        Gaussian blur smooths an image by convolving it with a Gaussian filter. 
        The Gaussian filter uses a weighted average where central pixels have higher weights.
        This is commonly used for noise reduction and as a preprocessing step for edge detection.
        The kernel size determines the neighborhood size for blurring, while sigma controls the 
        standard deviation of the Gaussian distribution (larger sigma means more blur).
        ".

(** The explanation [median_blur] returns. *)
Definition median_blur_description (kernel_size : string) : string :=
  "
        <strong>Median Blur</strong><br>
        Kernel size: " +:+ kernel_size +:+ "x" +:+ kernel_size +:+ "<br><br>
        
        Median blur replaces each pixel with the median value from its neighborhood defined by the kernel size.
        Unlike Gaussian blur, median filtering is particularly effective at removing salt-and-pepper noise
        while preserving edges. It's a non-linear filter that doesn't create new pixel values, making it
        suitable for removing outliers without affecting the overall image structure.
        ".

(** The explanation [bilateral_filter] returns. *)
Definition bilateral_filter_description (d sigma_color sigma_space : string) : string :=
  "
        <strong>Bilateral Filter</strong><br>
        Diameter: " +:+ d +:+ "<br>
        Sigma Color: " +:+ sigma_color +:+ "<br>
        Sigma Space: " +:+ sigma_space +:+ "<br><br>
        
        The bilateral filter is an edge-preserving smoothing filter that combines spatial proximity and color 
        similarity. Unlike standard Gaussian blur, it preserves edges while smoothing other regions.
        It considers both the spatial distance (sigma_space) and color difference (sigma_color) when calculating 
        the weights for neighborhood pixels. This makes it excellent for noise reduction while preserving 
        important image details.
        ".

(** The explanation [histogram_equalization] returns. *)
Definition histogram_equalization_description : string :=
  "
        <strong>Histogram Equalization</strong><br>
        Histogram equalization enhances image contrast by effectively spreading out the most frequent 
        intensity values across the entire intensity range (0-255). It's particularly useful for 
        images with poor contrast due to under or overexposure.<br><br>
        
        The operation redistributes pixel intensities to make the image histogram more uniform.
        For color images, this implementation converts to YCrCb color space and equalizes only the 
        luminance (Y) channel to preserve the color balance.
        ".

(** The explanation [sharpen] returns. *)
Definition sharpen_description (kernel_size strength : string) : string :=
  "
        <strong>Unsharp Masking (Sharpening)</strong><br>
        Kernel size: " +:+ kernel_size +:+ "<br>
        Strength: " +:+ strength +:+ "<br><br>
        
        Sharpening enhances edges and fine details in an image by increasing local contrast.
        This implementation uses unsharp masking, where a blurred (unsharp) version is subtracted 
        from the original image. The result is an image with emphasized high-frequency components (edges).
        
        Mathematically: <code>g(x,y) = f(x,y) + strength * (f(x,y) - blurred(x,y))</code>
        
        Higher strength values create a more pronounced sharpening effect.
        ".

(** The explanation [retinex] returns. *)
Definition retinex_description (sigma_list dynamic_text : string) : string :=
  "
        <strong>Multi-Scale Retinex (MSR)</strong><br>
        Sigma values: " +:+ sigma_list +:+ "<br>
        Dynamic color restoration: " +:+ dynamic_text +:+ "<br><br>
        
        The Retinex algorithm enhances image appearance by improving local contrast and dynamic range.
        It's based on the human visual system's ability to perceive colors consistently regardless of lighting conditions.
        
        The Multi-Scale Retinex (MSR) algorithm:
        <ol>
          <li>Processes the image at multiple scales (controlled by sigma values)</li>
          <li>For each scale, calculates log(image) - log(blurred image)</li>
          <li>Combines the results from different scales</li>
          <li>Optional dynamic color restoration preserves color relationships</li>
        </ol>
        
        MSR is particularly effective for enhancing images with poor lighting conditions, shadows, or backlighting.
        ".

(** The explanation [clahe] returns. *)
Definition clahe_description (clip_limit tile_grid_size : string) : string :=
  "
        <strong>Contrast Limited Adaptive Histogram Equalization (CLAHE)</strong><br>
        Clip Limit: " +:+ clip_limit +:+ "<br>
        Tile Grid Size: " +:+ tile_grid_size +:+ "x" +:+ tile_grid_size +:+ "<br><br>
        
        CLAHE is an advanced form of adaptive histogram equalization that limits contrast enhancement to 
        reduce noise amplification. The algorithm divides the image into small tiles and applies histogram 
        equalization to each tile. Contrast limiting (clip limit) prevents over-amplification of noise by 
        redistributing values above the clip limit equally across the histogram.
        
        For color images, CLAHE is applied only to the luminance channel in LAB color space to preserve
        color relationships. CLAHE provides better local contrast enhancement than standard histogram
        equalization, especially for images with varying lighting conditions.
        ".

(** The explanation [fourier_transform] returns. *)
Definition fourier_transform_description : string :=
  "
        <strong>Fourier Transform (Magnitude Spectrum)</strong><br>
        The Fourier Transform decomposes an image into its frequency components, showing
        how much information is present at different frequencies. The result displayed is
        the magnitude spectrum (log-scaled for better visualization).<br><br>
        
        In the frequency domain representation:
        <ul>
          <li>The center of the image represents low frequencies (overall image structure)</li>
          <li>The edges represent high frequencies (fine details and edges)</li>
          <li>Bright points indicate strong frequency components</li>
        </ul>
        
        The Fourier Transform is fundamental to many image processing operations like
        filtering, compression, and feature extraction.
        ".

(** The explanation [frequency_filter] returns. *)
Definition frequency_filter_description (filter_name cutoff_freq filter_name_lower : string) : string :=
  "
        <strong>Frequency Domain " +:+ filter_name +:+ " Filtering</strong><br>
        Cutoff Frequency: " +:+ cutoff_freq +:+ "<br><br>
        
        This operation filters the image in the frequency domain using a " +:+ filter_name_lower +:+ " filter.
        The process involves:
        <ol>
          <li>Converting the image to the frequency domain using Fourier Transform</li>
          <li>Applying a mask that keeps only frequencies below (lowpass) or above (highpass) the cutoff</li>
          <li>Converting back to the spatial domain using Inverse Fourier Transform</li>
        </ol>
        
        Low-pass filtering removes high-frequency components (fine details and noise), resulting in a blurred image.
        High-pass filtering removes low-frequency components (overall structure), enhancing edges and fine details.
        ".

(** The explanation [erosion] returns. *)
Definition erosion_description (kernel_shape kernel_size iterations : string) : string :=
  "
        <strong>Erosion</strong><br>
        Kernel shape: " +:+ kernel_shape +:+ "<br>
        Kernel size: " +:+ kernel_size +:+ "x" +:+ kernel_size +:+ "<br>
        Iterations: " +:+ iterations +:+ "<br><br>
        
        Erosion is a fundamental morphological operation that shrinks bright regions and 
        enlarges dark regions. It works by replacing each pixel with the minimum value in 
        its neighborhood defined by the structuring element (kernel).
        
        Main effects of erosion:
        <ul>
          <li>Removes small objects and fine protrusions</li>
          <li>Separates connected objects</li>
          <li>Shrinks object boundaries</li>
          <li>Eliminates small noise (like salt noise)</li>
        </ul>
        
        Erosion is particularly useful for:
        <ul>
          <li>Removing small noise from binary images</li>
          <li>Shrinking foreground objects</li>
          <li>Breaking connections between connected objects</li>
        </ul>
        ".

(** The explanation [dilation] returns. *)
Definition dilation_description (kernel_shape kernel_size iterations : string) : string :=
  "
        <strong>Dilation</strong><br>
        Kernel shape: " +:+ kernel_shape +:+ "<br>
        Kernel size: " +:+ kernel_size +:+ "x" +:+ kernel_size +:+ "<br>
        Iterations: " +:+ iterations +:+ "<br><br>
        
        Dilation is a fundamental morphological operation that enlarges bright regions and 
        shrinks dark regions. It works by replacing each pixel with the maximum value in 
        its neighborhood defined by the structuring element (kernel).
        
        Main effects of dilation:
        <ul>
          <li>Enlarges objects</li>
          <li>Fills in small holes</li>
          <li>Connects broken parts of objects</li>
          <li>Eliminates small dark spots (like pepper noise)</li>
        </ul>
        
        Dilation is particularly useful for:
        <ul>
          <li>Filling in small holes in objects</li>
          <li>Connecting nearby objects</li>
          <li>Expanding foreground regions</li>
          <li>Removing small dark spots from images</li>
        </ul>
        ".

(** The explanation [opening] returns. *)
Definition opening_description (kernel_shape kernel_size : string) : string :=
  "
        <strong>Opening</strong><br>
        Kernel shape: " +:+ kernel_shape +:+ "<br>
        Kernel size: " +:+ kernel_size +:+ "x" +:+ kernel_size +:+ "<br><br>
        
        Opening is a morphological operation that consists of an erosion followed by a dilation.
        It's named " +:+ dquote +:+ "opening" +:+ dquote +:+ " because it opens or breaks narrow connections and enlarges small holes.
        
        Main effects of opening:
        <ul>
          <li>Removes small objects and protrusions</li>
          <li>Preserves the shape and size of larger objects</li>
          <li>Smooths object contours</li>
          <li>Removes thin connections between objects</li>
        </ul>
        
        Opening is particularly useful for:
        <ul>
          <li>Removing small noise while preserving object shape</li>
          <li>Breaking thin connections between objects</li>
          <li>Smoothing object boundaries without significant size reduction</li>
        </ul>
        
        Mathematically: Opening(A, B) = Dilation(Erosion(A, B), B), where A is the image and B is the structuring element.
        ".

(** The explanation [closing] returns. *)
Definition closing_description (kernel_shape kernel_size : string) : string :=
  "
        <strong>Closing</strong><br>
        Kernel shape: " +:+ kernel_shape +:+ "<br>
        Kernel size: " +:+ kernel_size +:+ "x" +:+ kernel_size +:+ "<br><br>
        
        Closing is a morphological operation that consists of a dilation followed by an erosion.
        It's named " +:+ dquote +:+ "closing" +:+ dquote +:+ " because it closes or fills small holes and gaps within objects.
        
        Main effects of closing:
        <ul>
          <li>Fills small holes within objects</li>
          <li>Connects nearby objects</li>
          <li>Smooths object contours</li>
          <li>Fills in small gaps in object boundaries</li>
        </ul>
        
        Closing is particularly useful for:
        <ul>
          <li>Filling small holes in objects</li>
          <li>Closing small gaps in object boundaries</li>
          <li>Connecting objects that are close to each other</li>
        </ul>
        
        Mathematically: Closing(A, B) = Erosion(Dilation(A, B), B), where A is the image and B is the structuring element.
        ".

(** The explanation [gradient] returns. *)
Definition gradient_description (kernel_shape kernel_size : string) : string :=
  "
        <strong>Morphological Gradient</strong><br>
        Kernel shape: " +:+ kernel_shape +:+ "<br>
        Kernel size: " +:+ kernel_size +:+ "x" +:+ kernel_size +:+ "<br><br>
        
        The morphological gradient is the difference between the dilation and erosion of an image.
        It highlights boundaries and edges of objects in the image.
        
        Mathematically: Gradient(A, B) = Dilation(A, B) - Erosion(A, B), where A is the image and B is the structuring element.
        
        The result emphasizes regions of high intensity changes (edges) in the image. The morphological gradient
        is particularly useful for:
        <ul>
          <li>Edge detection</li>
          <li>Boundary extraction</li>
          <li>Highlighting transitions between objects and background</li>
        </ul>
        
        Unlike gradient-based edge detectors (like Sobel), the morphological gradient considers spatial relationships
        defined by the structuring element, making it suitable for certain applications where traditional edge 
        detection might fail.
        ".

(** The explanation [top_hat] returns. *)
Definition top_hat_description (kernel_shape kernel_size : string) : string :=
  "
        <strong>Top Hat Transform</strong><br>
        Kernel shape: " +:+ kernel_shape +:+ "<br>
        Kernel size: " +:+ kernel_size +:+ "x" +:+ kernel_size +:+ "<br><br>
        
        The Top Hat transform is the difference between the original image and its opening.
        It extracts small bright details and features from an image.
        
        Mathematically: TopHat(A, B) = A - Opening(A, B), where A is the image and B is the structuring element.
        
        The Top Hat transform is particularly useful for:
        <ul>
          <li>Extracting small bright objects from a variable background</li>
          <li>Enhancing contrast in regions with bright details</li>
          <li>Feature extraction for bright objects smaller than the structuring element</li>
          <li>Correcting uneven illumination in images</li>
        </ul>
        
        The size of the structuring element determines what sizes of features are extracted.
        Larger structuring elements extract larger bright features.
        ".

(** The explanation [black_hat] returns. *)
Definition black_hat_description (kernel_shape kernel_size : string) : string :=
  "
        <strong>Black Hat Transform</strong><br>
        Kernel shape: " +:+ kernel_shape +:+ "<br>
        Kernel size: " +:+ kernel_size +:+ "x" +:+ kernel_size +:+ "<br><br>
        
        The Black Hat transform is the difference between the closing of an image and the original image.
        It extracts small dark details and features from an image.
        
        Mathematically: BlackHat(A, B) = Closing(A, B) - A, where A is the image and B is the structuring element.
        
        The Black Hat transform is particularly useful for:
        <ul>
          <li>Extracting small dark objects from a variable background</li>
          <li>Enhancing contrast in regions with dark details</li>
          <li>Feature extraction for dark objects smaller than the structuring element</li>
          <li>Finding dark spots or text on a light background</li>
        </ul>
        
        The size of the structuring element determines what sizes of features are extracted.
        Larger structuring elements extract larger dark features.
        ".

(** The explanation [canny_edge] returns. *)
Definition canny_edge_description (threshold1 threshold2 aperture_size : string) : string :=
  "
        <strong>Canny Edge Detection</strong><br>
        Lower Threshold: " +:+ threshold1 +:+ "<br>
        Upper Threshold: " +:+ threshold2 +:+ "<br>
        Aperture Size: " +:+ aperture_size +:+ "<br><br>
        
        Canny edge detection is a multi-stage algorithm that detects edges with minimal noise.
        The process involves:
        <ol>
          <li>Noise reduction with Gaussian blur</li>
          <li>Gradient calculation using Sobel operators</li>
          <li>Non-maximum suppression to thin edges</li>
          <li>Hysteresis thresholding using two thresholds</li>
        </ol>
        
        The thresholds determine edge sensitivity:
        <ul>
          <li>Lower threshold (threshold1): Weaker edges connected to strong edges are included</li>
          <li>Upper threshold (threshold2): Strong edges that form the definite edge skeleton</li>
        </ul>
        
        Canny edge detection excels at:
        <ul>
          <li>Detecting true edges with minimal noise</li>
          <li>Providing thin, well-connected edge contours</li>
          <li>Forming the basis for object detection and shape analysis</li>
        </ul>
        ".

(** The explanation [sobel_edge] returns. *)
Definition sobel_edge_description (dx dy ksize : string) : string :=
  "
        <strong>Sobel Edge Detection</strong><br>
        X derivative order: " +:+ dx +:+ "<br>
        Y derivative order: " +:+ dy +:+ "<br>
        Kernel size: " +:+ ksize +:+ "<br><br>
        
        Sobel edge detection calculates the gradient of image intensity at each pixel.
        It uses two 3×3 kernels to approximate derivatives in horizontal and vertical directions.
        
        The Sobel operator:
        <ul>
          <li>Emphasizes regions of high spatial frequency (edges)</li>
          <li>Is less sensitive to noise compared to simple differentiation</li>
          <li>Provides both edge magnitude and direction information</li>
        </ul>
        
        This implementation:
        <ul>
          <li>Calculates separate x and y derivatives</li>
          <li>Takes the weighted average to combine them</li>
          <li>Shows edge strength but not direction</li>
        </ul>
        
        Sobel is computationally simple but can produce thicker edges than more advanced methods.
        ".

(** The explanation [watershed] returns. *)
Definition watershed_description : string :=
  "
        <strong>Watershed Segmentation</strong><br>
        The watershed algorithm treats the image as a topographic surface where:
        <ul>
          <li>Light pixels are high regions (hills)</li>
          <li>Dark pixels are low regions (valleys)</li>
        </ul>
        
        The process involves:
        <ol>
          <li>Initial thresholding and noise removal</li>
          <li>Distance transform to find centers of objects</li>
          <li>Marker creation for foreground and background</li>
          <li>Watershed transformation to find object boundaries</li>
        </ol>
        
        This implementation:
        <ul>
          <li>Uses random colors for different segments</li>
          <li>Shows watershed boundaries in red</li>
          <li>Automatically detects objects without manual marking</li>
        </ul>
        
        Watershed is particularly useful for segmenting touching or overlapping objects.
        ".

(** The explanation [contour_detection] returns. *)
Definition contour_detection_description (threshold_min threshold_max n_contours : string) : string :=
  "
        <strong>Contour Detection</strong><br>
        Threshold Min: " +:+ threshold_min +:+ "<br>
        Threshold Max: " +:+ threshold_max +:+ "<br>
        Number of contours found: " +:+ n_contours +:+ "<br><br>
        
        Contour detection identifies the boundaries of objects in an image.
        The process involves:
        <ol>
          <li>Converting to grayscale</li>
          <li>Thresholding to create a binary image</li>
          <li>Finding connected components (contours)</li>
          <li>Drawing detected contours on the original image</li>
        </ol>
        
        Each contour represents a curve joining all continuous points along a boundary with the same intensity.
        
        Contour detection is useful for:
        <ul>
          <li>Shape analysis</li>
          <li>Object detection and counting</li>
          <li>Feature extraction</li>
          <li>Object tracking</li>
        </ul>
        
        In this visualization, contours are drawn in green over the original image.
        ".

(** The explanation [orb_keypoints] returns. *)
Definition orb_keypoints_description (n_features n_keypoints : string) : string :=
  "
        <strong>ORB Keypoint Detection</strong><br>
        Maximum Features: " +:+ n_features +:+ "<br>
        Keypoints found: " +:+ n_keypoints +:+ "<br><br>
        
        ORB (Oriented FAST and Rotated BRIEF) is a fast, efficient alternative to SIFT and SURF
        for keypoint detection and description.
        
        The algorithm:
        <ol>
          <li>Uses FAST for keypoint detection</li>
          <li>Computes orientation using intensity centroid</li>
          <li>Uses modified BRIEF descriptors that are rotation-invariant</li>
        </ol>
        
        ORB keypoints are useful for:
        <ul>
          <li>Feature matching between images</li>
          <li>Object recognition</li>
          <li>Image alignment</li>
          <li>3D reconstruction</li>
        </ul>
        
        The green circles represent detected keypoints, with size indicating scale and line indicating orientation.
        ".

(** The explanation [rgb_to_hsv] returns. *)
Definition rgb_to_hsv_description : string :=
  "
        <strong>RGB to HSV Conversion</strong><br>
        This operation converts an image from RGB (Red, Green, Blue) to HSV (Hue, Saturation, Value) color space.
        <ul>
            <li>Hue: Color type (0-179 in OpenCV)</li>
            <li>Saturation: Color intensity (0-255)</li>
            <li>Value: Brightness (0-255)</li>
        </ul>
        HSV is particularly useful for color-based segmentation as it separates color information from lighting conditions.
        ".

(** The explanation [rgb_to_lab] returns. *)
Definition rgb_to_lab_description : string :=
  "
        <strong>RGB to LAB Conversion</strong><br>
        This operation converts an image from RGB to LAB (CIELAB) color space.
        <ul>
            <li>L: Lightness (0-100)</li>
            <li>a: Green to Red (-128 to 127)</li>
            <li>b: Blue to Yellow (-128 to 127)</li>
        </ul>
        LAB color space is designed to be perceptually uniform and is device-independent, making it useful for color comparison and correction.
        ".

(** The explanation [rgb_to_ycrcb] returns. *)
Definition rgb_to_ycrcb_description : string :=
  "
        <strong>RGB to YCrCb Conversion</strong><br>
        This operation converts an image from RGB to YCrCb color space.
        <ul>
            <li>Y: Luminance component (brightness)</li>
            <li>Cr: Red chrominance component</li>
            <li>Cb: Blue chrominance component</li>
        </ul>
        YCrCb is widely used in video compression (JPEG, MPEG) as it separates luminance from chrominance information.
        ".

(** The explanation [channel_separation] returns. *)
Definition channel_separation_description (color_space space0 space1 space2 : string) : string :=
  "
        <strong>Channel Separation (" +:+ color_space +:+ ")</strong><br>
        This operation separates the image into its individual " +:+ color_space +:+ " channels.
        <ul>
            <li>Left: " +:+ space0 +:+ "</li>
            <li>Middle: " +:+ space1 +:+ "</li>
            <li>Right: " +:+ space2 +:+ "</li>
        </ul>
        Analyzing individual channels helps understand how color information is distributed and can assist in targeted image processing.
        ".

(** The explanation [color_quantization] returns. *)
Definition color_quantization_description (k : string) : string :=
  "
        <strong>Color Quantization</strong><br>
        Colors reduced to: " +:+ k +:+ "<br><br>
        
        This operation reduces the number of colors in the image by using K-means clustering to group similar colors together.
        Each pixel is assigned to the nearest cluster center, resulting in an image with exactly " +:+ k +:+ " colors.
        
        Color quantization is useful for:
        <ul>
            <li>Image compression and file size reduction</li>
            <li>Creating artistic effects</li>
            <li>Simplifying image analysis</li>
            <li>Preparing images for certain display technologies</li>
        </ul>
        
        The algorithm works by iteratively finding the best " +:+ k +:+ " representative colors and mapping all pixels to their closest match.
        ".

(** The explanation [visualize_spectrum] returns. *)
Definition visualize_spectrum_description : string :=
  "
        <strong>Fourier Spectrum Visualization</strong><br>
        Left: Magnitude Spectrum (log scale) | Right: Phase Spectrum<br><br>
        
        The Discrete Fourier Transform (DFT) converts an image from the spatial domain to the frequency domain, revealing:
        
        <ul>
            <li><strong>Magnitude Spectrum:</strong> Shows the strength of different frequencies.
                <ul>
                    <li>Center: Low frequencies (overall structure)</li>
                    <li>Edges: High frequencies (details and edges)</li>
                    <li>Bright spots: Strong frequency components</li>
                </ul>
            </li>
            <li><strong>Phase Spectrum:</strong> Contains information about the position of features.
                <ul>
                    <li>Critical for preserving image structure</li>
                    <li>Changes in phase severely distort the image</li>
                </ul>
            </li>
        </ul>
        
        <strong>Interpreting the Spectrum:</strong>
        <ul>
            <li>Horizontal lines in the image appear as vertical components in the spectrum</li>
            <li>Vertical lines appear as horizontal components</li>
            <li>Diagonal components maintain their orientation</li>
            <li>Periodic patterns create bright spots at corresponding frequencies</li>
        </ul>
        ".

(** The explanation [bandpass_filter] returns. *)
Definition bandpass_filter_description (low_cutoff high_cutoff : string) : string :=
  "
        <strong>Bandpass Filtering</strong><br>
        Low cutoff frequency: " +:+ low_cutoff +:+ "<br>
        High cutoff frequency: " +:+ high_cutoff +:+ "<br><br>
        
        Bandpass filtering retains a specific range of frequencies while removing others.
        <ul>
            <li>Frequencies below " +:+ low_cutoff +:+ " are removed (high-pass component)</li>
            <li>Frequencies above " +:+ high_cutoff +:+ " are removed (low-pass component)</li>
            <li>Only frequencies between " +:+ low_cutoff +:+ " and " +:+ high_cutoff +:+ " are preserved</li>
        </ul>
        
        This is useful for:
        <ul>
            <li>Isolating specific texture patterns</li>
            <li>Removing both low-frequency background variations and high-frequency noise</li>
            <li>Enhancing mid-frequency features like edges of a certain scale</li>
            <li>Medical imaging to isolate structures of specific sizes</li>
        </ul>
        
        The process works by converting the image to the frequency domain using DFT, applying a ring-shaped mask,
        and then converting back to the spatial domain using inverse DFT.
        ".

(** The explanation [notch_filter] returns. *)
Definition notch_filter_description (notch_x notch_y sym_x sym_y notch_radius notch_mode : string) : string :=
  "
        <strong>Notch Filtering</strong><br>
        Notch center: (" +:+ notch_x +:+ ", " +:+ notch_y +:+ ") and (" +:+ sym_x +:+ ", " +:+ sym_y +:+ ")<br>
        Notch radius: " +:+ notch_radius +:+ "<br><br>
        
        Notch filtering removes specific frequency components that often correspond to periodic noise patterns.
        <ul>
            <li>Particularly effective for removing regular patterns like scan lines, grid artifacts, or moire patterns</li>
            <li>Preserves all other frequency content, minimizing impact on image quality</li>
            <li>Both the frequency component and its symmetric counterpart are removed to maintain balance</li>
        </ul>
        
        This is useful for:
        <ul>
            <li>Removing periodic noise from scanned images</li>
            <li>Cleaning up images of textured products or fabrics</li>
            <li>Preprocessing for microscopy or scientific imaging</li>
        </ul>
        
        The notch positions were " +:+ notch_mode +:+ " 
        based on the strongest frequency components outside the DC (zero frequency) region.
        ".

(** The explanation [add_degradation] returns. *)
Definition add_degradation_description (noise_type noise_param blur_text : string) : string :=
  "
        <strong>Image Degradation</strong><br>
        Noise type: " +:+ noise_type +:+ "<br>
        Noise parameter: " +:+ noise_param +:+ "<br>
        Blur kernel size: " +:+ blur_text +:+ "<br><br>
        
        This operation adds controlled degradation to simulate real-world image quality issues:
        <ul>
            <li><strong>Gaussian noise:</strong> Random variations following a normal distribution (parameter: standard deviation)</li>
            <li><strong>Salt & Pepper noise:</strong> Random white and black pixels (parameter: percentage of affected pixels)</li>
            <li><strong>Speckle noise:</strong> Multiplicative noise commonly seen in radar and ultrasound (parameter: intensity)</li>
            <li><strong>Gaussian blur:</strong> Simulates out-of-focus or motion blur (parameter: kernel size)</li>
        </ul>
        
        Use this degraded image as input for restoration algorithms to evaluate their effectiveness.
        ".

(** The explanation [wiener_deconvolution] returns. *)
Definition wiener_deconvolution_description (psf_size noise_power : string) : string :=
  "
        <strong>Wiener Deconvolution</strong><br>
        PSF size: " +:+ psf_size +:+ "x" +:+ psf_size +:+ "<br>
        Noise power: " +:+ noise_power +:+ "<br><br>
        
        Wiener deconvolution is an image restoration technique that attempts to recover a degraded image by:
        <ul>
            <li>Estimating the original image using knowledge of the degradation process (PSF)</li>
            <li>Considering the noise present in the image</li>
            <li>Operating in the frequency domain using the Fourier transform</li>
        </ul>
        
        The algorithm:
        <ol>
            <li>Models image degradation as a convolution with a Point Spread Function (PSF)</li>
            <li>Operates in the frequency domain where convolution becomes multiplication</li>
            <li>Applies an optimal filter that balances noise amplification and restoration quality</li>
        </ol>
        
        Wiener filtering is used in:
        <ul>
            <li>Astronomical imaging</li>
            <li>Medical image processing</li>
            <li>Microscopy</li>
            <li>Photography restoration</li>
        </ul>
        
        The noise power parameter controls the trade-off between noise suppression and detail preservation.
        ".

(** The explanation [inpainting] returns. *)
Definition inpainting_description (mask_radius num_points : string) : string :=
  "
        <strong>Image Inpainting</strong><br>
        Mask radius: " +:+ mask_radius +:+ "<br>
        Number of damaged areas: " +:+ num_points +:+ "<br><br>
        
        Left: Damaged image (red regions) | Right: Inpainted result<br><br>
        
        Image inpainting is the process of filling in missing or damaged regions in an image:
        <ul>
            <li>Uses information from surrounding pixels to reconstruct the damaged areas</li>
            <li>Preserves texture and structural continuity</li>
            <li>Works best when the damaged areas are relatively small</li>
        </ul>
        
        This implementation uses the Fast Marching Method (Telea algorithm) which:
        <ol>
            <li>Gradually fills the inpainting region from the boundary inward</li>
            <li>Propagates image information following a distance map</li>
            <li>Estimates pixel values based on nearby pixels and their gradients</li>
        </ol>
        
        Inpainting is widely used for:
        <ul>
            <li>Removing unwanted objects from photos</li>
            <li>Restoring damaged or scratched images</li>
            <li>Filling in missing regions in transmitted images</li>
            <li>Creating seamless panoramas</li>
        </ul>
        ".

(** ** The platform underneath *)

(** What the embedding takes from outside the repository.
    [lib]: OpenCV, numpy and float arithmetic as one function from the
    name of an operation and its argument values to its result; arrays go
    in and come out by value.
    [luma]: the 8-bit luminance OpenCV assigns to a (B, G, R) triple.
    [png_base64]: [cv2.imencode('.png', a)] followed by base64 encoding.
    [slot_msg]: the interpreter's message when an attribute that is not a
    transform is called like one.
    [python_minor]: the interpreter is Python 3.[python_minor]. *)
Record platform := Platform {
  lib : string -> list pyval -> outcome pyval;
  luma : Z -> Z -> Z -> Z;
  png_base64 : pyval -> outcome string;
  slot_msg : string -> list pyval -> kwargs -> string;
  python_minor : Z
}.

(** Python's binary operators as the transforms use them. *)
Inductive binop := Add | Sub | Mul | Mod | FloorDiv | TrueDiv | Gt | Lt | Eq.

Definition binop_name (op : binop) : string :=
  match op with
  | Add => "+" | Sub => "-" | Mul => "*" | Mod => "%" | FloorDiv => "//"
  | TrueDiv => "/" | Gt => ">" | Lt => "<" | Eq => "=="
  end.

(** [bool] is a subclass of [int]. *)
Definition as_int (v : pyval) : option Z :=
  match v with
  | VInt z => Some z
  | VBool b => Some (if b then 1 else 0)
  | _ => None
  end.

(** [v == s] for a string literal [s] and a request value [v]. *)
Definition py_eq_str (v : pyval) (s : string) : bool :=
  match v with
  | VStr t => String.eqb t s
  | _ => false
  end.

Definition is_none (v : pyval) : bool :=
  match v with
  | VNone => true
  | _ => false
  end.

Definition lookup_kw (name : string) (params : kwargs) : option pyval :=
  match find (fun kv => String.eqb (fst kv) name) params with
  | Some kv => Some (snd kv)
  | None => None
  end.

(** The value a formal parameter is bound to: the keyword argument when
    the request gives one, the default of the signature otherwise. *)
Definition kwarg (name : string) (default : pyval) (params : kwargs) : pyval :=
  match lookup_kw name params with
  | Some v => v
  | None => default
  end.

(** [f(current_img, **params)]: a keyword that [f] does not declare, or
    that names the positional [image] or [self], is a [TypeError]. *)
Definition check_kwargs (qualname : string) (formals : list string)
    (params : kwargs) : M unit :=
  match find (fun kv => negb (existsb (String.eqb (fst kv)) formals)) params with
  | None => ret tt
  | Some kv =>
      if existsb (String.eqb (fst kv)) ["self"; "image"]
      then raise (TypeError (qualname +:+ "() got multiple values for argument '"
                             +:+ fst kv +:+ squote))
      else raise (TypeError (qualname +:+ "() got an unexpected keyword argument '"
                             +:+ fst kv +:+ squote))
  end.

(** [a, b = v] *)
Definition unpack2 (v : pyval) : M (pyval * pyval) :=
  match v with
  | VTuple [a; b] | VList [a; b] => ret (a, b)
  | VTuple (_ :: _ :: _ :: _) | VList (_ :: _ :: _ :: _) =>
      raise (ValueError "too many values to unpack (expected 2)")
  | VTuple _ | VList _ =>
      raise (ValueError "not enough values to unpack (expected 2)")
  | VStr _ | VArr _ | VRef _ =>
      raise (ValueError "too many values to unpack (expected 2)")
  | _ => raise (TypeError ("cannot unpack non-iterable " +:+ type_name v +:+ " object"))
  end.

(** [t[i]] on a shape tuple. *)
Definition shape_at (shape : list Z) (i : nat) : M Z :=
  match shape !! i with
  | Some d => ret d
  | None => raise (IndexError "tuple index out of range")
  end.

Definition len {A} (l : list A) : Z := Z.of_nat (length l).

Section SmartDIP.
Variable env : platform.

(** *** Calls into the library and the interpreter *)

(** A library call: references are read, the library computes, arrays in
    the result become new objects. *)
Definition call (name : string) (args : list pyval) : M pyval :=
  let! args' := traverse unbox args in
  let! v := lift (lib env name args') in
  if has_ref v
  then raise (TypeError "the library returns arrays by value")
  else box v.

(** A library call that writes its result into the array [target] and
    returns that same object ([cv2.circle], [cv2.drawContours],
    [cv2.watershed], augmented and slice assignment). *)
Definition call_inplace (name : string) (target : pyval) (args : list pyval)
    : M pyval :=
  match target with
  | VRef l =>
      let! args' := traverse unbox (target :: args) in
      let! v := lift (lib env name args') in
      match v with
      | VArr a => let! _ := store l a in ret target
      | _ => raise (TypeError (name +:+ ": array expected"))
      end
  | _ => raise (TypeError (name +:+ ": array expected"))
  end.

Definition py_truth (v : pyval) : M bool :=
  match v with
  | VNone => ret false
  | VBool b => ret b
  | VInt z => ret (negb (z =? 0))
  | VStr s => ret (negb (String.eqb s ""))
  | VList vs | VTuple vs => ret (negb (length vs =? 0)%nat)
  | _ =>
      let! r := call "bool" [v] in
      match r with
      | VBool b => ret b
      | _ => raise (TypeError "__bool__ should return bool")
      end
  end.

(** Integer operands are computed here (floor division and modulo round
    towards minus infinity, as Python's do); anything else is the
    interpreter's business. *)
Definition py_op (op : binop) (a b : pyval) : M pyval :=
  match as_int a, as_int b with
  | Some x, Some y =>
      match op with
      | Add => ret (VInt (x + y))
      | Sub => ret (VInt (x - y))
      | Mul => ret (VInt (x * y))
      | Mod => if y =? 0
               then raise (ZeroDivisionError "integer modulo by zero")
               else ret (VInt (x mod y))
      | FloorDiv => if y =? 0
                    then raise (ZeroDivisionError "integer division or modulo by zero")
                    else ret (VInt (x / y))
      | TrueDiv => call (binop_name op) [a; b]
      | Gt => ret (VBool (y <? x))
      | Lt => ret (VBool (x <? y))
      | Eq => ret (VBool (x =? y))
      end
  | _, _ => call (binop_name op) [a; b]
  end.

Definition py_neg (a : pyval) : M pyval :=
  match as_int a with
  | Some x => ret (VInt (- x))
  | None => call "neg" [a]
  end.

(** [if a op b:] *)
Definition py_test (op : binop) (a b : pyval) : M bool :=
  let! r := py_op op a b in py_truth r.

(** [k % 2 == 0] *)
Definition is_even (k : pyval) : M bool :=
  let! r := py_op Mod k (VInt 2) in py_test Eq r (VInt 0).

Definition shape_of (v : pyval) : M (list Z) :=
  let! a := array_of v in ret (np_shape a).

(** [image.copy()] *)
Definition np_copy (v : pyval) : M pyval :=
  let! a := array_of v in
  let! l := new a in
  ret (VRef l).

(** [c - image] *)
Definition np_rsub (c : Z) (image : pyval) : M pyval :=
  let! a := array_of image in
  match a with
  | Gray rows =>
      let! l := new (Gray (map (map (u8_rsub c)) rows)) in ret (VRef l)
  | Color rows =>
      let! l := new (Color (map (map (map_px (u8_rsub c))) rows)) in ret (VRef l)
  | _ => call "rsub" [VInt c; image]
  end.

(** [np.zeros(shape, np.uint8)] and [np.ones(shape, np.uint8)] *)
Definition np_full_u8 (name : string) (fill : Z) (shape : list Z) : M pyval :=
  match shape with
  | [h; w] =>
      if (h <? 0) || (w <? 0)
      then raise (ValueError "negative dimensions are not allowed")
      else let! l := new (Gray (repeat (repeat fill (Z.to_nat w)) (Z.to_nat h))) in
           ret (VRef l)
  | _ => call name [VTuple (map VInt shape); VStr "uint8"]
  end.
Definition np_zeros_u8 : list Z -> M pyval := np_full_u8 "np.zeros" 0.
Definition np_ones_u8 : list Z -> M pyval := np_full_u8 "np.ones" 1.

(** [dst[mask == key] = value], in place: a BGR triple into a 3-channel
    image, a number into a single-channel one. *)
Definition setitem_where (dst mask : pyval) (key : Z) (value : pyval) : M unit :=
  let! d := array_of dst in
  let! m := array_of mask in
  let generic :=
    let! _ := call_inplace "setitem_where" dst [mask; VInt key; value] in ret tt in
  match dst, m with
  | VRef l, (Gray mrows | Labels mrows) =>
      match d, value with
      | Color drows, (VList [VInt b; VInt g; VInt r] | VTuple [VInt b; VInt g; VInt r]) =>
          if decide (np_shape m = take 2 (np_shape d))
          then store l (Color (masked_fill mrows key (b mod 256, g mod 256, r mod 256) drows))
          else generic
      | Labels drows, VInt v =>
          if decide (np_shape m = np_shape d)
          then store l (Labels (masked_fill mrows key v drows))
          else generic
      | _, _ => generic
      end
  | _, _ => generic
  end.

Definition color_rows (a : ndarray) : option (list (list pixel)) :=
  match a with
  | Color rows => Some rows
  | _ => None
  end.

(** [np.hstack(images)] *)
Definition np_hstack (images : list pyval) : M pyval :=
  let! arrs := traverse array_of images in
  match mapM color_rows arrs with
  | Some (first :: rest) =>
      if forallb (fun r => (length r =? length first)%nat) rest
      then let! l := new (Color (hstack_rows (first :: rest))) in ret (VRef l)
      else call "np.hstack" [VList images]
  | _ => call "np.hstack" [VList images]
  end.

(** [cv2.cvtColor(src, code)] *)
Definition cvtColor (src : pyval) (code : Z) : M pyval :=
  let! a := array_of src in
  if is_empty a then call "cv2.cvtColor" [src; VInt code]
  else match a with
  | Color rows =>
      if code =? COLOR_BGR2GRAY
      then let! l := new (Gray (map (map (fun p : pixel => luma env p.1.1 p.1.2 p.2)) rows)) in
           ret (VRef l)
      else if code =? COLOR_GRAY2BGR
      then raise (cv2_error "Invalid number of channels in input image: 'VScn::contains(scn)' where 'scn' is 3")
      else call "cv2.cvtColor" [src; VInt code]
  | Gray rows =>
      if code =? COLOR_GRAY2BGR
      then let! l := new (Color (gray2bgr rows)) in ret (VRef l)
      else if code =? COLOR_BGR2GRAY
      then raise (cv2_error "Invalid number of channels in input image: 'VScn::contains(scn)' where 'scn' is 1")
      else call "cv2.cvtColor" [src; VInt code]
  | _ => call "cv2.cvtColor" [src; VInt code]
  end.

(** [cv2.threshold(src, thresh, maxval, type)], giving [(retval, dst)].
    The binding takes [thresh] and [maxval] as doubles, and for an 8-bit
    source OpenCV turns them into C [int]s before it compares: the call is
    computed here for integers an [int] holds, and left to the library
    for any other. *)
Definition cv_threshold (src thresh maxval type : pyval) : M pyval :=
  let! a := array_of src in
  match a, thresh, maxval, type with
  | Gray rows, VInt t, VInt m, VInt ty =>
      if negb (is_empty a) && (0 <=? ty) && (ty <=? 4)
         && is_int32 t && is_int32 m
      then let! l := new (Gray (map (map (threshold_u8 t m ty)) rows)) in
           ret (VTuple [VFloat (str_int t +:+ ".0"); VRef l])
      else call "cv2.threshold" [src; thresh; maxval; type]
  | _, _, _, _ => call "cv2.threshold" [src; thresh; maxval; type]
  end.

(** [cv2.circle(img, (cx, cy), radius, color, -1)] *)
Definition cv_circle (img cx cy radius : pyval) (color : Z) : M pyval :=
  let! a := array_of img in
  match img, a, cx, cy, radius with
  | VRef l, Gray rows, VInt x, VInt y, VInt r =>
      if 0 <=? r
      then let! _ := store l (Gray (draw_disc x y r color rows)) in ret img
      else raise (cv2_error "(-215:Assertion failed) radius >= 0 in function 'circle'")
  | _, _, _, _, _ =>
      call_inplace "cv2.circle" img [VTuple [cx; cy]; radius; VInt color; VInt (-1)]
  end.

(** [np.max(a)] *)
Definition np_max (v : pyval) : M pyval :=
  let! a := array_of v in
  match a with
  | Labels ((x :: row) :: rows) =>
      if is_empty a then call "np.max" [v]
      else ret (VInt (fold_right Z.max x (samples a)))
  | _ => call "np.max" [v]
  end.

(** [a, b, c = v] and [a, b, c, d = v] *)
Definition unpack3 (v : pyval) : M (pyval * pyval * pyval) :=
  match v with
  | VTuple [a; b; c] | VList [a; b; c] => ret (a, b, c)
  | VTuple _ | VList _ | VStr _ | VArr _ | VRef _ =>
      raise (ValueError "wrong number of values to unpack (expected 3)")
  | _ => raise (TypeError ("cannot unpack non-iterable " +:+ type_name v +:+ " object"))
  end.
Definition unpack4 (v : pyval) : M (pyval * pyval * pyval * pyval) :=
  match v with
  | VTuple [a; b; c; d] | VList [a; b; c; d] => ret (a, b, c, d)
  | VTuple _ | VList _ | VStr _ | VArr _ | VRef _ =>
      raise (ValueError "wrong number of values to unpack (expected 4)")
  | _ => raise (TypeError ("cannot unpack non-iterable " +:+ type_name v +:+ " object"))
  end.

(** [rows, cols = a.shape] *)
Definition unpack_shape2 (shape : list Z) : M (Z * Z) :=
  match shape with
  | [r; c] => ret (r, c)
  | _ :: _ :: _ :: _ => raise (ValueError "too many values to unpack (expected 2)")
  | _ => raise (ValueError "not enough values to unpack (expected 2)")
  end.

Definition shape_tuple (shape : list Z) : pyval := VTuple (map VInt shape).

(** [for x in v] *)
Definition py_iter (v : pyval) : M (list pyval) :=
  match v with
  | VList vs | VTuple vs => ret vs
  | VStr s => ret (map (fun c => VStr (String c EmptyString)) (list_ascii_of_string s))
  | VArr _ | VRef _ =>
      let! r := call "iter" [v] in
      match r with
      | VList vs | VTuple vs => ret vs
      | _ => raise (TypeError "iteration over a 0-d array")
      end
  | _ => raise (TypeError (squote +:+ type_name v +:+ "' object is not iterable"))
  end.

(** [len(v)] *)
Definition py_len (v : pyval) : M Z :=
  match v with
  | VList vs | VTuple vs => ret (len vs)
  | VStr s => ret (Z.of_nat (String.length s))
  | _ => raise (TypeError ("object of type '" +:+ type_name v +:+ "' has no len()"))
  end.

(** [range(lo, hi)] *)
Definition py_range (lo : Z) (hi : pyval) : M (list Z) :=
  match as_int hi with
  | Some h => ret (map (fun i => lo + Z.of_nat i) (seq 0 (Z.to_nat (h - lo))))
  | None => raise (TypeError (squote +:+ type_name hi
                              +:+ "' object cannot be interpreted as an integer"))
  end.

Definition lower_ascii (c : ascii) : ascii :=
  let n := nat_of_ascii c in
  if ((65 <=? n) && (n <=? 90))%nat then ascii_of_nat (n + 32) else c.
Fixpoint lower (s : string) : string :=
  match s with
  | EmptyString => EmptyString
  | String c rest => String (lower_ascii c) (lower rest)
  end.

(** [v.lower()] *)
Definition py_lower (v : pyval) : M string :=
  match v with
  | VStr s => ret (lower s)
  | _ => raise (AttributeError (squote +:+ type_name v
                                +:+ "' object has no attribute 'lower'"))
  end.

(** *** The random generators *)

(** [np.random.randint(low, high)]: one draw, reduced into the half-open
    range. *)
Definition randint (low high : pyval) : M pyval :=
  match as_int low, as_int high with
  | Some lo, Some hi =>
      if hi <=? lo then raise (ValueError "low >= high")
      else let! z := draw in ret (VInt (lo + z mod (hi - lo)))
  | _, _ => let! z := draw in call "np.random.randint" [low; high; VInt z]
  end.

(** A library routine that samples from a generator ([np.random.normal],
    [np.random.random], [cv2.kmeans] with random initial centres): one
    draw seeds the sample. *)
Definition call_random (name : string) (args : list pyval) : M pyval :=
  let! z := draw in call name (args ++ [VInt z]).

(** *** Image-shape tests shared by the transforms *)

(** [len(image.shape) > 2 and image.shape[2] == 3] *)
Definition has_three_channels (shape : list Z) : bool :=
  (2 <? len shape) && (nth 2 shape 0 =? 3).

(** The grey plane the single-channel algorithms start from:
<<
    if len(image.shape) > 2 and image.shape[2] == 3:
        gray = cv2.cvtColor(image, cv2.COLOR_BGR2GRAY)
    else:
        gray = image.copy()
>> *)
Definition to_gray (image : pyval) : M pyval :=
  let! shape := shape_of image in
  if has_three_channels shape
  then cvtColor image COLOR_BGR2GRAY
  else np_copy image.

(** The same with the looser test [len(image.shape) == 3]. *)
Definition to_gray_ndim3 (image : pyval) : M pyval :=
  let! shape := shape_of image in
  if len shape =? 3
  then cvtColor image COLOR_BGR2GRAY
  else np_copy image.

(** ** modules/basic_operations.py: class BasicOperations *)

Definition grayscale (image : pyval) (params : kwargs) : M pyval :=
  let! _ := check_kwargs "BasicOperations.grayscale" [] params in
  let! result := cvtColor image COLOR_BGR2GRAY in
  let! result := cvtColor result COLOR_GRAY2BGR in
  ret (VTuple [result; VStr grayscale_description]).

Definition negative (image : pyval) (params : kwargs) : M pyval :=
  let! _ := check_kwargs "BasicOperations.negative" [] params in
  let! result := np_rsub 255 image in
  ret (VTuple [result; VStr negative_description]).

(** [threshold_types.get(threshold_type, "Unknown")] *)
Definition threshold_types_get (threshold_type : pyval) : M string :=
  match threshold_type with
  | VInt _ | VBool _ =>
      let t := default 0 (as_int threshold_type) in
      ret (if t =? THRESH_BINARY then "Binary"
           else if t =? THRESH_BINARY_INV then "Binary Inverted"
           else if t =? THRESH_TRUNC then "Truncate"
           else if t =? THRESH_TOZERO then "To Zero"
           else if t =? THRESH_TOZERO_INV then "To Zero Inverted"
           else "Unknown")
  | VList _ => raise (TypeError "unhashable type: 'list'")
  | VFloat _ | VArr _ | VRef _ =>
      let! r := call "dict.get" [threshold_type] in ret (py_str r)
  | _ => ret "Unknown"
  end.

Definition threshold (image : pyval) (params : kwargs) : M pyval :=
  let! _ := check_kwargs "BasicOperations.threshold"
              ["threshold_value"; "max_value"; "threshold_type"] params in
  let threshold_value := kwarg "threshold_value" (VInt 127) params in
  let max_value := kwarg "max_value" (VInt 255) params in
  let threshold_type := kwarg "threshold_type" (VInt THRESH_BINARY) params in
  let! gray := to_gray image in
  let! rr := cv_threshold gray threshold_value max_value threshold_type in
  let! rr := unpack2 rr in
  let result := rr.2 in
  let! rshape := shape_of result in
  let! result := (if len rshape <? 3
                  then cvtColor result COLOR_GRAY2BGR
                  else ret result) in
  let! threshold_type_name := threshold_types_get threshold_type in
  ret (VTuple [result;
               VStr (threshold_description threshold_type_name
                       (py_str threshold_value) (py_str max_value))]).

Definition adjust_brightness (image : pyval) (params : kwargs) : M pyval :=
  let! _ := check_kwargs "BasicOperations.adjust_brightness" ["beta"] params in
  let beta := kwarg "beta" (VInt 50) params in
  let! result := call "cv2.convertScaleAbs" [image; VInt 1; beta] in
  ret (VTuple [result; VStr (adjust_brightness_description (py_str beta))]).

Definition adjust_contrast (image : pyval) (params : kwargs) : M pyval :=
  let! _ := check_kwargs "BasicOperations.adjust_contrast" ["alpha"] params in
  let alpha := kwarg "alpha" (VFloat "1.5") params in
  let! result := call "cv2.convertScaleAbs" [image; alpha; VInt 0] in
  ret (VTuple [result; VStr (adjust_contrast_description (py_str alpha))]).

(** The guard the three smoothing transforms share:
<<
    if kernel_size % 2 == 0:
        kernel_size += 1
>> *)
Definition ensure_odd (kernel_size : pyval) : M pyval :=
  let! even := is_even kernel_size in
  if even then py_op Add kernel_size (VInt 1) else ret kernel_size.

Definition gaussian_blur (image : pyval) (params : kwargs) : M pyval :=
  let! _ := check_kwargs "BasicOperations.gaussian_blur"
              ["kernel_size"; "sigma_x"] params in
  let kernel_size := kwarg "kernel_size" (VInt 5) params in
  let sigma_x := kwarg "sigma_x" (VInt 0) params in
  let! kernel_size := ensure_odd kernel_size in
  let! result := call "cv2.GaussianBlur"
                   [image; VTuple [kernel_size; kernel_size]; sigma_x] in
  ret (VTuple [result;
               VStr (gaussian_blur_description (py_str kernel_size) (py_str sigma_x))]).

Definition median_blur (image : pyval) (params : kwargs) : M pyval :=
  let! _ := check_kwargs "BasicOperations.median_blur" ["kernel_size"] params in
  let kernel_size := kwarg "kernel_size" (VInt 5) params in
  let! kernel_size := ensure_odd kernel_size in
  let! result := call "cv2.medianBlur" [image; kernel_size] in
  ret (VTuple [result; VStr (median_blur_description (py_str kernel_size))]).

Definition bilateral_filter (image : pyval) (params : kwargs) : M pyval :=
  let! _ := check_kwargs "BasicOperations.bilateral_filter"
              ["d"; "sigma_color"; "sigma_space"] params in
  let d := kwarg "d" (VInt 9) params in
  let sigma_color := kwarg "sigma_color" (VInt 75) params in
  let sigma_space := kwarg "sigma_space" (VInt 75) params in
  let! result := call "cv2.bilateralFilter" [image; d; sigma_color; sigma_space] in
  ret (VTuple [result;
               VStr (bilateral_filter_description (py_str d)
                       (py_str sigma_color) (py_str sigma_space))]).

Definition histogram_equalization (image : pyval) (params : kwargs) : M pyval :=
  let! _ := check_kwargs "BasicOperations.histogram_equalization" [] params in
  let! shape := shape_of image in
  let! single := (if len shape =? 2 then ret true
                  else let! c := shape_at shape 2 in ret (c =? 1)) in
  let! result :=
    (if single : bool
     then
       let! result := call "cv2.equalizeHist" [image] in
       let! rshape := shape_of result in
       if len rshape <? 3 then cvtColor result COLOR_GRAY2BGR else ret result
     else
       let! ycrcb := cvtColor image COLOR_BGR2YCrCb in
       let! y := call "[:,:,0]" [ycrcb] in
       let! y_eq := call "cv2.equalizeHist" [y] in
       let! _ := call_inplace "[:,:,0]=" ycrcb [y_eq] in
       cvtColor ycrcb COLOR_YCrCb2BGR) in
  ret (VTuple [result; VStr histogram_equalization_description]).

Definition sharpen (image : pyval) (params : kwargs) : M pyval :=
  let! _ := check_kwargs "BasicOperations.sharpen" ["kernel_size"; "strength"] params in
  let kernel_size := kwarg "kernel_size" (VInt 3) params in
  let strength := kwarg "strength" (VFloat "1.0") params in
  let! kernel_size := ensure_odd kernel_size in
  let! blurred := call "cv2.GaussianBlur"
                    [image; VTuple [kernel_size; kernel_size]; VInt 0] in
  let! gain := py_op Add (VFloat "1.0") strength in
  let! minus := py_neg strength in
  let! unsharp_mask := call "cv2.addWeighted" [image; gain; blurred; minus; VInt 0] in
  ret (VTuple [unsharp_mask;
               VStr (sharpen_description (py_str kernel_size) (py_str strength))]).

(** ** modules/advanced_operations.py: class AdvancedOperations *)

Definition BORDER_CONSTANT : Z := 0.
Definition DFT_COMPLEX_OUTPUT : Z := 16.
Definition NORM_MINMAX : Z := 32.
Definition CV_8U : Z := 0.
Definition CV_64F : Z := 6.

(** One channel of the multi-scale retinex: the body of
    [for ch in cv2.split(img_float)]. *)
Definition retinex_channel (img_float sigma_list dynamic ch : pyval) : M pyval :=
  let! retinex := call "np.zeros_like" [ch] in
  let! sigmas := py_iter sigma_list in
  let! _ := for_each sigmas (fun sigma =>
    let! blur := call "cv2.GaussianBlur" [ch; VTuple [VInt 0; VInt 0]; sigma] in
    let! small := call "<" [blur; VFloat "0.0001"] in
    let! blur := call "np.where" [small; VFloat "0.0001"; blur] in
    let! a := call "+" [ch; VFloat "0.01"] in
    let! la := call "np.log10" [a] in
    let! b := call "+" [blur; VFloat "0.01"] in
    let! lb := call "np.log10" [b] in
    let! d := call "-" [la; lb] in
    let! _ := call_inplace "+=" retinex [d] in
    ret tt) in
  let! n := py_len sigma_list in
  let! retinex := call "/" [retinex; VInt n] in
  let! dyn := py_truth dynamic in
  let! retinex :=
    (if dyn : bool
     then
       let! a := call "+" [ch; VFloat "0.01"] in
       let! s := call "np.sum" [img_float; VInt 2] in
       let! s3 := call "/" [s; VInt 3] in
       let! b := call "+" [s3; VFloat "0.01"] in
       let! q := call "/" [a; b] in
       let! restoration := call "np.log10" [q] in
       call "*" [retinex; restoration]
     else ret retinex) in
  let! min_val := call "np.min" [retinex] in
  let! max_val := call "np.max" [retinex] in
  let! range_val := py_op Sub max_val min_val in
  let! positive := py_test Gt range_val (VInt 0) in
  if positive : bool
  then let! shifted := call "-" [retinex; min_val] in
       call "/" [shifted; range_val]
  else ret retinex.

Definition retinex (image : pyval) (params : kwargs) : M pyval :=
  let! _ := check_kwargs "AdvancedOperations.retinex" ["sigma_list"; "dynamic"] params in
  let sigma_list := kwarg "sigma_list" (VList [VInt 15; VInt 80; VInt 250]) params in
  let dynamic := kwarg "dynamic" (VBool false) params in
  let! f := call "np.float32" [image] in
  let! img_float := call "/" [f; VFloat "255.0"] in
  let! planes := call "cv2.split" [img_float] in
  let! planes := py_iter planes in
  let! channels := traverse (retinex_channel img_float sigma_list dynamic) planes in
  let! result := call "cv2.merge" [VList channels] in
  let! scaled := call "*" [result; VInt 255] in
  let! result := call "np.uint8" [scaled] in
  let! dyn := py_truth dynamic in
  ret (VTuple [result;
               VStr (retinex_description (py_str sigma_list)
                       (if dyn : bool then "Enabled" else "Disabled"))]).

Definition clahe (image : pyval) (params : kwargs) : M pyval :=
  let! _ := check_kwargs "AdvancedOperations.clahe"
              ["clip_limit"; "tile_grid_size"] params in
  let clip_limit := kwarg "clip_limit" (VFloat "2.0") params in
  let tile_grid_size := kwarg "tile_grid_size" (VInt 8) params in
  let! shape := shape_of image in
  let! result :=
    (if (len shape =? 3) && (nth 2 shape 0 =? 3)
     then
       let! lab := cvtColor image COLOR_BGR2LAB in
       let! planes := call "cv2.split" [lab] in
       let! lab3 := unpack3 planes in
       let! clahe := call "cv2.createCLAHE"
                       [clip_limit; VTuple [tile_grid_size; tile_grid_size]] in
       let! l_clahe := call "CLAHE.apply" [clahe; lab3.1.1] in
       let! merged := call "cv2.merge" [VList [l_clahe; lab3.1.2; lab3.2]] in
       cvtColor merged COLOR_LAB2BGR
     else
       let! clahe := call "cv2.createCLAHE"
                       [clip_limit; VTuple [tile_grid_size; tile_grid_size]] in
       let! result := call "CLAHE.apply" [clahe; image] in
       let! rshape := shape_of result in
       if len rshape <? 3 then cvtColor result COLOR_GRAY2BGR else ret result) in
  ret (VTuple [result;
               VStr (clahe_description (py_str clip_limit) (py_str tile_grid_size))]).

(** The forward transform the three Fourier routines of this class and the
    two filters of [FrequencyDomain] start with: pad to an optimal size,
    transform, shift.  Gives [(rows, cols, dft_shift)]. *)
Definition shifted_dft (gray : pyval) : M (Z * Z * pyval) :=
  let! gshape := shape_of gray in
  let! rc := unpack_shape2 gshape in
  let rows := rc.1 in
  let cols := rc.2 in
  let! optimal_rows := call "cv2.getOptimalDFTSize" [VInt rows] in
  let! optimal_cols := call "cv2.getOptimalDFTSize" [VInt cols] in
  let! pad_rows := py_op Sub optimal_rows (VInt rows) in
  let! pad_cols := py_op Sub optimal_cols (VInt cols) in
  let! padded := call "cv2.copyMakeBorder"
                   [gray; VInt 0; pad_rows; VInt 0; pad_cols;
                    VInt BORDER_CONSTANT; VInt 0] in
  let! padded32 := call "np.float32" [padded] in
  let! dft := call "cv2.dft" [padded32; VInt DFT_COMPLEX_OUTPUT] in
  let! dft_shift := call "np.fft.fftshift" [dft] in
  ret (rows, cols, dft_shift).

(** [cv2.magnitude(a[:,:,0], a[:,:,1])] *)
Definition magnitude_of (a : pyval) : M pyval :=
  let! re := call "[:,:,0]" [a] in
  let! im := call "[:,:,1]" [a] in
  call "cv2.magnitude" [re; im].

(** [20 * np.log(cv2.magnitude(a[:,:,0], a[:,:,1]) + 1)] *)
Definition log_magnitude (a : pyval) : M pyval :=
  let! m := magnitude_of a in
  let! m1 := call "+" [m; VInt 1] in
  let! lg := call "np.log" [m1] in
  call "*" [VInt 20; lg].

Definition fourier_transform (image : pyval) (params : kwargs) : M pyval :=
  let! _ := check_kwargs "AdvancedOperations.fourier_transform" [] params in
  let! gray := to_gray_ndim3 image in
  let! t := shifted_dft gray in
  let! magnitude_spectrum := log_magnitude t.2 in
  let! magnitude_spectrum := call "cv2.normalize"
      [magnitude_spectrum; VNone; VInt 0; VInt 255; VInt NORM_MINMAX; VInt CV_8U] in
  let! result := cvtColor magnitude_spectrum COLOR_GRAY2BGR in
  ret (VTuple [result; VStr fourier_transform_description]).

(** The inverse the frequency filters end with: mask both planes, shift
    back, invert, take the magnitude, normalise to 8 bits, crop. *)
Definition masked_inverse (dft_shift mask : pyval) (rows cols : Z) : M pyval :=
  let! mask := call "np.stack" [VList [mask; mask]; VInt 2] in
  let! filtered_dft := call "*" [dft_shift; mask] in
  let! filtered_shift := call "np.fft.ifftshift" [filtered_dft] in
  let! filtered_img := call "cv2.idft" [filtered_shift] in
  let! filtered_img := magnitude_of filtered_img in
  let! filtered_img := call "cv2.normalize"
      [filtered_img; VNone; VInt 0; VInt 255; VInt NORM_MINMAX; VInt CV_8U] in
  call "[:rows,:cols]" [filtered_img; VInt rows; VInt cols].

(** [shape[0] // 2, shape[1] // 2] *)
Definition centre_of (shape : list Z) : M (Z * Z) :=
  let! h := shape_at shape 0 in
  let! w := shape_at shape 1 in
  ret (h / 2, w / 2).

(** The method builds [result] and [description] and ends there: its
    last statement is the assignment to [description], so the call
    evaluates to [None]. *)
Definition frequency_filter (image : pyval) (params : kwargs) : M pyval :=
  let! _ := check_kwargs "AdvancedOperations.frequency_filter"
              ["filter_type"; "cutoff_freq"] params in
  let filter_type := kwarg "filter_type" (VStr "lowpass") params in
  let cutoff_freq := kwarg "cutoff_freq" (VInt 30) params in
  let! gray := to_gray_ndim3 image in
  let! t := shifted_dft gray in
  let rows := t.1.1 in
  let cols := t.1.2 in
  let dft_shift := t.2 in
  let! dshape := shape_of dft_shift in
  let! c := centre_of dshape in
  let crow := c.1 in
  let ccol := c.2 in
  let! h := shape_at dshape 0 in
  let! w := shape_at dshape 1 in
  let! mask := np_zeros_u8 [h; w] in
  let! lowered := py_lower filter_type in
  let! mf :=
    (if String.eqb lowered "lowpass"
     then
       let! _ := cv_circle mask (VInt ccol) (VInt crow) cutoff_freq 1 in
       ret (mask, "Low-Pass")
     else
       let! _ := cv_circle mask (VInt ccol) (VInt crow) cutoff_freq 1 in
       let! mask := np_rsub 1 mask in
       ret (mask, "High-Pass")) in
  let mask := mf.1 in
  let filter_name := mf.2 in
  let! filtered_img := masked_inverse dft_shift mask rows cols in
  let! result := cvtColor filtered_img COLOR_GRAY2BGR in
  let description := frequency_filter_description filter_name
                       (py_str cutoff_freq) (lower filter_name) in
  ret VNone.

(** ** modules/morphological_operations.py: class MorphologicalOperations *)

Definition MORPH_RECT : Z := 0.
Definition MORPH_CROSS : Z := 1.
Definition MORPH_ELLIPSE : Z := 2.
Definition MORPH_OPEN : Z := 2.
Definition MORPH_CLOSE : Z := 3.
Definition MORPH_GRADIENT : Z := 4.
Definition MORPH_TOPHAT : Z := 5.
Definition MORPH_BLACKHAT : Z := 6.

(** The private helper [__get_kernel(kernel_shape, kernel_size)]. *)
Definition get_kernel (kernel_shape kernel_size : pyval) : M pyval :=
  if py_eq_str kernel_shape "rect"
  then call "cv2.getStructuringElement"
         [VInt MORPH_RECT; VTuple [kernel_size; kernel_size]]
  else if py_eq_str kernel_shape "ellipse"
  then call "cv2.getStructuringElement"
         [VInt MORPH_ELLIPSE; VTuple [kernel_size; kernel_size]]
  else if py_eq_str kernel_shape "cross"
  then call "cv2.getStructuringElement"
         [VInt MORPH_CROSS; VTuple [kernel_size; kernel_size]]
  else call "cv2.getStructuringElement"
         [VInt MORPH_RECT; VTuple [kernel_size; kernel_size]].

Definition erosion (image : pyval) (params : kwargs) : M pyval :=
  let! _ := check_kwargs "MorphologicalOperations.erosion"
              ["kernel_size"; "kernel_shape"; "iterations"] params in
  let kernel_size := kwarg "kernel_size" (VInt 5) params in
  let kernel_shape := kwarg "kernel_shape" (VStr "rect") params in
  let iterations := kwarg "iterations" (VInt 1) params in
  let! kernel := get_kernel kernel_shape kernel_size in
  let! result := call "cv2.erode" [image; kernel; iterations] in
  ret (VTuple [result;
               VStr (erosion_description (py_str kernel_shape)
                       (py_str kernel_size) (py_str iterations))]).

Definition dilation (image : pyval) (params : kwargs) : M pyval :=
  let! _ := check_kwargs "MorphologicalOperations.dilation"
              ["kernel_size"; "kernel_shape"; "iterations"] params in
  let kernel_size := kwarg "kernel_size" (VInt 5) params in
  let kernel_shape := kwarg "kernel_shape" (VStr "rect") params in
  let iterations := kwarg "iterations" (VInt 1) params in
  let! kernel := get_kernel kernel_shape kernel_size in
  let! result := call "cv2.dilate" [image; kernel; iterations] in
  ret (VTuple [result;
               VStr (dilation_description (py_str kernel_shape)
                       (py_str kernel_size) (py_str iterations))]).

Definition opening (image : pyval) (params : kwargs) : M pyval :=
  let! _ := check_kwargs "MorphologicalOperations.opening"
              ["kernel_size"; "kernel_shape"] params in
  let kernel_size := kwarg "kernel_size" (VInt 5) params in
  let kernel_shape := kwarg "kernel_shape" (VStr "rect") params in
  let! kernel := get_kernel kernel_shape kernel_size in
  let! result := call "cv2.morphologyEx" [image; VInt MORPH_OPEN; kernel] in
  ret (VTuple [result;
               VStr (opening_description (py_str kernel_shape) (py_str kernel_size))]).

Definition closing (image : pyval) (params : kwargs) : M pyval :=
  let! _ := check_kwargs "MorphologicalOperations.closing"
              ["kernel_size"; "kernel_shape"] params in
  let kernel_size := kwarg "kernel_size" (VInt 5) params in
  let kernel_shape := kwarg "kernel_shape" (VStr "rect") params in
  let! kernel := get_kernel kernel_shape kernel_size in
  let! result := call "cv2.morphologyEx" [image; VInt MORPH_CLOSE; kernel] in
  ret (VTuple [result;
               VStr (closing_description (py_str kernel_shape) (py_str kernel_size))]).

Definition gradient (image : pyval) (params : kwargs) : M pyval :=
  let! _ := check_kwargs "MorphologicalOperations.gradient"
              ["kernel_size"; "kernel_shape"] params in
  let kernel_size := kwarg "kernel_size" (VInt 5) params in
  let kernel_shape := kwarg "kernel_shape" (VStr "rect") params in
  let! kernel := get_kernel kernel_shape kernel_size in
  let! result := call "cv2.morphologyEx" [image; VInt MORPH_GRADIENT; kernel] in
  ret (VTuple [result;
               VStr (gradient_description (py_str kernel_shape) (py_str kernel_size))]).

Definition top_hat (image : pyval) (params : kwargs) : M pyval :=
  let! _ := check_kwargs "MorphologicalOperations.top_hat"
              ["kernel_size"; "kernel_shape"] params in
  let kernel_size := kwarg "kernel_size" (VInt 9) params in
  let kernel_shape := kwarg "kernel_shape" (VStr "rect") params in
  let! kernel := get_kernel kernel_shape kernel_size in
  let! result := call "cv2.morphologyEx" [image; VInt MORPH_TOPHAT; kernel] in
  ret (VTuple [result;
               VStr (top_hat_description (py_str kernel_shape) (py_str kernel_size))]).

Definition black_hat (image : pyval) (params : kwargs) : M pyval :=
  let! _ := check_kwargs "MorphologicalOperations.black_hat"
              ["kernel_size"; "kernel_shape"] params in
  let kernel_size := kwarg "kernel_size" (VInt 9) params in
  let kernel_shape := kwarg "kernel_shape" (VStr "rect") params in
  let! kernel := get_kernel kernel_shape kernel_size in
  let! result := call "cv2.morphologyEx" [image; VInt MORPH_BLACKHAT; kernel] in
  ret (VTuple [result;
               VStr (black_hat_description (py_str kernel_shape) (py_str kernel_size))]).

(** ** modules/segmentation.py: class SegmentationOperations *)

Definition DIST_L2 : Z := 2.
Definition RETR_TREE : Z := 3.
Definition CHAIN_APPROX_SIMPLE : Z := 2.
Definition DRAW_RICH_KEYPOINTS : Z := 4.

Definition canny_edge (image : pyval) (params : kwargs) : M pyval :=
  let! _ := check_kwargs "SegmentationOperations.canny_edge"
              ["threshold1"; "threshold2"; "aperture_size"] params in
  let threshold1 := kwarg "threshold1" (VInt 100) params in
  let threshold2 := kwarg "threshold2" (VInt 200) params in
  let aperture_size := kwarg "aperture_size" (VInt 3) params in
  let! gray := to_gray image in
  let! edges := call "cv2.Canny" [gray; threshold1; threshold2; aperture_size] in
  let! result := cvtColor edges COLOR_GRAY2BGR in
  ret (VTuple [result;
               VStr (canny_edge_description (py_str threshold1)
                       (py_str threshold2) (py_str aperture_size))]).

Definition sobel_edge (image : pyval) (params : kwargs) : M pyval :=
  let! _ := check_kwargs "SegmentationOperations.sobel_edge"
              ["dx"; "dy"; "ksize"] params in
  let dx := kwarg "dx" (VInt 1) params in
  let dy := kwarg "dy" (VInt 1) params in
  let ksize := kwarg "ksize" (VInt 3) params in
  let! gray := to_gray image in
  let! sobelx := call "cv2.Sobel" [gray; VInt CV_64F; dx; VInt 0; ksize] in
  let! sobely := call "cv2.Sobel" [gray; VInt CV_64F; VInt 0; dy; ksize] in
  let! abs_sobelx := call "cv2.convertScaleAbs" [sobelx] in
  let! abs_sobely := call "cv2.convertScaleAbs" [sobely] in
  let! sobel_combined := call "cv2.addWeighted"
      [abs_sobelx; VFloat "0.5"; abs_sobely; VFloat "0.5"; VInt 0] in
  let! result := cvtColor sobel_combined COLOR_GRAY2BGR in
  ret (VTuple [result;
               VStr (sobel_edge_description (py_str dx) (py_str dy) (py_str ksize))]).

(** [(np.random.randint(0, 256), np.random.randint(0, 256),
      np.random.randint(0, 256))] *)
Definition random_color : M pyval :=
  let! b := randint (VInt 0) (VInt 256) in
  let! g := randint (VInt 0) (VInt 256) in
  let! r := randint (VInt 0) (VInt 256) in
  ret (VTuple [b; g; r]).

Definition watershed (image : pyval) (params : kwargs) : M pyval :=
  let! _ := check_kwargs "SegmentationOperations.watershed" [] params in
  let! shape := shape_of image in
  let! gi :=
    (if has_three_channels shape
     then let! gray := cvtColor image COLOR_BGR2GRAY in ret (gray, image)
     else
       let! gray := np_copy image in
       let! gshape := shape_of gray in
       if len gshape <? 3
       then let! gray_3ch := cvtColor gray COLOR_GRAY2BGR in ret (gray, gray_3ch)
       else ret (gray, image)) in
  let gray := gi.1 in
  let image := gi.2 in
  let! rt := cv_threshold gray (VInt 0) (VInt 255)
               (VInt (THRESH_BINARY_INV + THRESH_OTSU)) in
  let! rt := unpack2 rt in
  let thresh := rt.2 in
  let! kernel := np_ones_u8 [3; 3] in
  let! opening := call "cv2.morphologyEx" [thresh; VInt MORPH_OPEN; kernel; VInt 2] in
  let! sure_bg := call "cv2.dilate" [opening; kernel; VInt 3] in
  let! dist_transform := call "cv2.distanceTransform" [opening; VInt DIST_L2; VInt 5] in
  let! dmax := call "ndarray.max" [dist_transform] in
  let! level := call "*" [VFloat "0.7"; dmax] in
  let! rf := cv_threshold dist_transform level (VInt 255) (VInt 0) in
  let! rf := unpack2 rf in
  let! sure_fg := call "np.uint8" [rf.2] in
  let! unknown := call "cv2.subtract" [sure_bg; sure_fg] in
  let! rm := call "cv2.connectedComponents" [sure_fg] in
  let! rm := unpack2 rm in
  let! markers := call "+" [rm.2; VInt 1] in
  let! _ := setitem_where markers unknown 255 (VInt 0) in
  let! markers := call_inplace "cv2.watershed" markers [image] in
  let! result := np_copy image in
  let! max_labels := np_max markers in
  let! bound := py_op Add max_labels (VInt 1) in
  let! indices := py_range 0 bound in
  let! colors := traverse (fun _ => random_color) indices in
  let! regions := py_range 2 bound in
  let! _ := for_each regions (fun i =>
    setitem_where result markers i (nth (Z.to_nat i) colors VNone)) in
  let! _ := setitem_where result markers (-1) (VList [VInt 0; VInt 0; VInt 255]) in
  ret (VTuple [result; VStr watershed_description]).

Definition contour_detection (image : pyval) (params : kwargs) : M pyval :=
  let! _ := check_kwargs "SegmentationOperations.contour_detection"
              ["threshold_min"; "threshold_max"] params in
  let threshold_min := kwarg "threshold_min" (VInt 127) params in
  let threshold_max := kwarg "threshold_max" (VInt 255) params in
  let! gray := to_gray image in
  let! rt := cv_threshold gray threshold_min threshold_max (VInt THRESH_BINARY) in
  let! rt := unpack2 rt in
  let thresh := rt.2 in
  let! ch := call "cv2.findContours"
               [thresh; VInt RETR_TREE; VInt CHAIN_APPROX_SIMPLE] in
  let! ch := unpack2 ch in
  let contours := ch.1 in
  let! shape := shape_of image in
  let! result := (if len shape =? 3
                  then np_copy image
                  else cvtColor image COLOR_GRAY2BGR) in
  let! _ := call_inplace "cv2.drawContours" result
              [contours; VInt (-1); VTuple [VInt 0; VInt 255; VInt 0]; VInt 2] in
  let! n := py_len contours in
  ret (VTuple [result;
               VStr (contour_detection_description (py_str threshold_min)
                       (py_str threshold_max) (str_int n))]).

Definition orb_keypoints (image : pyval) (params : kwargs) : M pyval :=
  let! _ := check_kwargs "SegmentationOperations.orb_keypoints" ["n_features"] params in
  let n_features := kwarg "n_features" (VInt 500) params in
  let! orb := call "cv2.ORB_create" [n_features] in
  let! keypoints := call "ORB.detect" [orb; image; VNone] in
  let! kd := call "ORB.compute" [orb; image; keypoints] in
  let! kd := unpack2 kd in
  let keypoints := kd.1 in
  let! result := call "cv2.drawKeypoints"
      [image; keypoints; VNone; VTuple [VInt 0; VInt 255; VInt 0];
       VInt DRAW_RICH_KEYPOINTS] in
  let! n := py_len keypoints in
  ret (VTuple [result;
               VStr (orb_keypoints_description (py_str n_features) (str_int n))]).

(** ** modules/color_processing.py: class ColorProcessing *)

Definition TERM_CRITERIA_EPS : Z := 2.
Definition TERM_CRITERIA_MAX_ITER : Z := 1.
Definition KMEANS_RANDOM_CENTERS : Z := 0.
Definition COLORMAP_JET : Z := 2.
Definition INPAINT_TELEA : Z := 1.

Definition rgb_to_hsv (image : pyval) (params : kwargs) : M pyval :=
  let! _ := check_kwargs "ColorProcessing.rgb_to_hsv" [] params in
  let! result := cvtColor image COLOR_BGR2HSV in
  ret (VTuple [result; VStr rgb_to_hsv_description]).

Definition rgb_to_lab (image : pyval) (params : kwargs) : M pyval :=
  let! _ := check_kwargs "ColorProcessing.rgb_to_lab" [] params in
  let! result := cvtColor image COLOR_BGR2LAB in
  ret (VTuple [result; VStr rgb_to_lab_description]).

Definition rgb_to_ycrcb (image : pyval) (params : kwargs) : M pyval :=
  let! _ := check_kwargs "ColorProcessing.rgb_to_ycrcb" [] params in
  let! result := cvtColor image COLOR_BGR2YCrCb in
  ret (VTuple [result; VStr rgb_to_ycrcb_description]).

(** The body of [for i, channel in enumerate(channels)]; gives the
    picture appended to [channel_images], if any. *)
Definition channel_image (image color_space : pyval) (ic : nat * pyval)
    : M (list pyval) :=
  let i := ic.1 in
  let channel := ic.2 in
  let! cshape := shape_of channel in
  if len cshape =? 2
  then
    let! temp := call "np.zeros_like" [image] in
    let! temp :=
      (if py_eq_str color_space "RGB"
       then let! _ := call_inplace "[:,:,i]=" temp [VInt (Z.of_nat i); channel] in
            ret temp
       else cvtColor channel COLOR_GRAY2BGR) in
    ret [temp]
  else ret [].

Definition channel_separation (image : pyval) (params : kwargs) : M pyval :=
  let! _ := check_kwargs "ColorProcessing.channel_separation" ["color_space"] params in
  let color_space := kwarg "color_space" (VStr "RGB") params in
  let! sc :=
    (if py_eq_str color_space "RGB"
     then
       let! channels := call "cv2.split" [image] in
       ret (["Blue"; "Green"; "Red"], channels)
     else if py_eq_str color_space "HSV"
     then
       let! converted := cvtColor image COLOR_BGR2HSV in
       let! channels := call "cv2.split" [converted] in
       ret (["Hue"; "Saturation"; "Value"], channels)
     else if py_eq_str color_space "LAB"
     then
       let! converted := cvtColor image COLOR_BGR2LAB in
       let! channels := call "cv2.split" [converted] in
       ret (["Lightness"; "A (Green-Red)"; "B (Blue-Yellow)"], channels)
     else if py_eq_str color_space "YCrCb"
     then
       let! converted := cvtColor image COLOR_BGR2YCrCb in
       let! channels := call "cv2.split" [converted] in
       ret (["Y (Luminance)"; "Cr (Red Chroma)"; "Cb (Blue Chroma)"], channels)
     else raise (ValueError ("Unsupported color space: " +:+ py_str color_space))) in
  let spaces := sc.1 in
  let channels := sc.2 in
  let! result := call "np.zeros_like" [image] in
  let! channels := py_iter channels in
  let! pictures := traverse (channel_image image color_space)
                     (imap (fun i c => (i, c)) channels) in
  let channel_images := concat pictures in
  let! result := np_hstack channel_images in
  ret (VTuple [result;
               VStr (channel_separation_description (py_str color_space)
                       (nth 0 spaces "") (nth 1 spaces "") (nth 2 spaces ""))]).

(** [cv2.kmeans] is asked for random initial centres
    ([KMEANS_RANDOM_CENTERS]), which it takes from OpenCV's generator. *)
Definition color_quantization (image : pyval) (params : kwargs) : M pyval :=
  let! _ := check_kwargs "ColorProcessing.color_quantization" ["k"] params in
  let k := kwarg "k" (VInt 8) params in
  let! flat := call "reshape" [image; VTuple [VInt (-1); VInt 3]] in
  let! pixels := call "astype" [flat; VStr "float32"] in
  let criteria := VTuple [VInt (TERM_CRITERIA_EPS + TERM_CRITERIA_MAX_ITER);
                          VInt 100; VFloat "0.2"] in
  let! rlc := call_random "cv2.kmeans"
                [pixels; k; VNone; criteria; VInt 10; VInt KMEANS_RANDOM_CENTERS] in
  let! rlc := unpack3 rlc in
  let labels := rlc.1.2 in
  let centers := rlc.2 in
  let! centers := call "np.uint8" [centers] in
  let! flat_labels := call "flatten" [labels] in
  let! quantized := call "getitem" [centers; flat_labels] in
  let! ishape := shape_of image in
  let! result := call "reshape" [quantized; shape_tuple ishape] in
  ret (VTuple [result; VStr (color_quantization_description (py_str k))]).

(** ** modules/frequency_domain.py: class FrequencyDomain *)

Definition visualize_spectrum (image : pyval) (params : kwargs) : M pyval :=
  let! _ := check_kwargs "FrequencyDomain.visualize_spectrum" [] params in
  let! gray := to_gray_ndim3 image in
  let! gray32 := call "np.float32" [gray] in
  let! dft := call "cv2.dft" [gray32; VInt DFT_COMPLEX_OUTPUT] in
  let! dft_shift := call "np.fft.fftshift" [dft] in
  let! magnitude := magnitude_of dft_shift in
  let! re := call "[:,:,0]" [dft_shift] in
  let! im := call "[:,:,1]" [dft_shift] in
  let! phase := call "cv2.phase" [re; im] in
  let! m1 := call "+" [magnitude; VInt 1] in
  let! lg := call "np.log" [m1] in
  let! magnitude := call "*" [VInt 20; lg] in
  let! magnitude := call "cv2.normalize"
      [magnitude; VNone; VInt 0; VInt 255; VInt NORM_MINMAX; VInt CV_8U] in
  let! phase := call "cv2.normalize"
      [phase; VNone; VInt 0; VInt 255; VInt NORM_MINMAX; VInt CV_8U] in
  let! magnitude_colored := call "cv2.applyColorMap" [magnitude; VInt COLORMAP_JET] in
  let! phase_colored := call "cv2.applyColorMap" [phase; VInt COLORMAP_JET] in
  let! result := np_hstack [magnitude_colored; phase_colored] in
  ret (VTuple [result; VStr visualize_spectrum_description]).

Definition bandpass_filter (image : pyval) (params : kwargs) : M pyval :=
  let! _ := check_kwargs "FrequencyDomain.bandpass_filter"
              ["low_cutoff"; "high_cutoff"] params in
  let low_cutoff := kwarg "low_cutoff" (VInt 10) params in
  let high_cutoff := kwarg "high_cutoff" (VInt 50) params in
  let! gray := to_gray_ndim3 image in
  let! t := shifted_dft gray in
  let rows := t.1.1 in
  let cols := t.1.2 in
  let dft_shift := t.2 in
  let! dshape := shape_of dft_shift in
  let! c := centre_of dshape in
  let crow := c.1 in
  let ccol := c.2 in
  let! h := shape_at dshape 0 in
  let! w := shape_at dshape 1 in
  let! mask := np_zeros_u8 [h; w] in
  let! _ := cv_circle mask (VInt ccol) (VInt crow) high_cutoff 1 in
  let! _ := cv_circle mask (VInt ccol) (VInt crow) low_cutoff 0 in
  let! filtered_img := masked_inverse dft_shift mask rows cols in
  let! result := cvtColor filtered_img COLOR_GRAY2BGR in
  ret (VTuple [result;
               VStr (bandpass_filter_description (py_str low_cutoff)
                       (py_str high_cutoff))]).

Definition notch_filter (image : pyval) (params : kwargs) : M pyval :=
  let! _ := check_kwargs "FrequencyDomain.notch_filter"
              ["notch_x"; "notch_y"; "notch_radius"] params in
  let notch_x := kwarg "notch_x" VNone params in
  let notch_y := kwarg "notch_y" VNone params in
  let notch_radius := kwarg "notch_radius" (VInt 10) params in
  let! gray := to_gray_ndim3 image in
  let! t := shifted_dft gray in
  let rows := t.1.1 in
  let cols := t.1.2 in
  let dft_shift := t.2 in
  let! magnitude := log_magnitude dft_shift in
  let! mshape := shape_of magnitude in
  let! found :=
    (if is_none notch_x || is_none notch_y
     then
       let! c := centre_of mshape in
       let! center_mask := call "np.ones_like" [magnitude] in
       let! _ := cv_circle center_mask (VInt c.2) (VInt c.1) (VInt 20) 0 in
       let! masked := call "*" [magnitude; center_mask] in
       let! mm := call "cv2.minMaxLoc" [masked] in
       let! mm := unpack4 mm in
       let! xy := unpack2 mm.2 in
       ret (c, xy)
     else
       let! c := centre_of mshape in
       ret (c, (notch_x, notch_y))) in
  let crow := found.1.1 in
  let ccol := found.1.2 in
  let notch_x := found.2.1 in
  let notch_y := found.2.2 in
  let! sym_x := py_op Sub (VInt (2 * ccol)) notch_x in
  let! sym_y := py_op Sub (VInt (2 * crow)) notch_y in
  let! dshape := shape_of dft_shift in
  let! h := shape_at dshape 0 in
  let! w := shape_at dshape 1 in
  let! mask := np_ones_u8 [h; w] in
  let! _ := cv_circle mask notch_x notch_y notch_radius 0 in
  let! _ := cv_circle mask sym_x sym_y notch_radius 0 in
  let! filtered_img := masked_inverse dft_shift mask rows cols in
  let! result := cvtColor filtered_img COLOR_GRAY2BGR in
  ret (VTuple [result;
               VStr (notch_filter_description (py_str notch_x) (py_str notch_y)
                       (py_str sym_x) (py_str sym_y) (py_str notch_radius)
                       (if is_none notch_x then "automatically detected"
                        else "manually specified"))]).

(** ** modules/restoration.py: class RestorationOperations *)

Definition add_degradation (image : pyval) (params : kwargs) : M pyval :=
  let! _ := check_kwargs "RestorationOperations.add_degradation"
              ["noise_type"; "noise_param"; "blur_size"] params in
  let noise_type := kwarg "noise_type" (VStr "gaussian") params in
  let noise_param := kwarg "noise_param" (VInt 25) params in
  let blur_size := kwarg "blur_size" (VInt 0) params in
  let! copy := np_copy image in
  let! result := call "astype" [copy; VStr "float32"] in
  let! blurring := py_test Gt blur_size (VInt 0) in
  let! rb :=
    (if blurring : bool
     then
       let! blur_size := ensure_odd blur_size in
       let! result := call "cv2.GaussianBlur"
                        [result; VTuple [blur_size; blur_size]; VInt 0] in
       ret (result, blur_size)
     else ret (result, blur_size)) in
  let result := rb.1 in
  let blur_size := rb.2 in
  let! rshape := shape_of result in
  let! _ :=
    (if py_eq_str noise_type "gaussian"
     then
       let! drawn := call_random "np.random.normal"
                       [VInt 0; noise_param; shape_tuple rshape] in
       let! noise := call "astype" [drawn; VStr "float32"] in
       let! _ := call_inplace "+=" result [noise] in
       ret tt
     else if py_eq_str noise_type "salt_pepper"
     then
       let! amount := py_op TrueDiv noise_param (VFloat "100.0") in
       let! u := call_random "np.random.random" [shape_tuple (take 2 rshape)] in
       let! half := py_op TrueDiv amount (VInt 2) in
       let! salt_mask := call "<" [u; half] in
       let! _ := call_inplace "setitem_mask" result [salt_mask; VInt 255] in
       let! u := call_random "np.random.random" [shape_tuple (take 2 rshape)] in
       let! half := py_op TrueDiv amount (VInt 2) in
       let! pepper_mask := call "<" [u; half] in
       let! _ := call_inplace "setitem_mask" result [pepper_mask; VInt 0] in
       ret tt
     else if py_eq_str noise_type "speckle"
     then
       let! intensity := py_op TrueDiv noise_param (VFloat "100.0") in
       let! drawn := call_random "np.random.normal"
                       [VInt 0; intensity; shape_tuple rshape] in
       let! noise := call "astype" [drawn; VStr "float32"] in
       let! scaled := call "*" [result; noise] in
       let! _ := call_inplace "+=" result [scaled] in
       ret tt
     else ret tt) in
  let! clipped := call "np.clip" [result; VInt 0; VInt 255] in
  let! result := call "astype" [clipped; VStr "uint8"] in
  let! blurred := py_test Gt blur_size (VInt 0) in
  ret (VTuple [result;
               VStr (add_degradation_description (py_str noise_type)
                       (py_str noise_param)
                       (if blurred : bool then py_str blur_size else "None"))]).

Definition wiener_deconvolution (image : pyval) (params : kwargs) : M pyval :=
  let! _ := check_kwargs "RestorationOperations.wiener_deconvolution"
              ["psf_size"; "noise_power"] params in
  let psf_size := kwarg "psf_size" (VInt 5) params in
  let noise_power := kwarg "noise_power" (VFloat "0.01") params in
  let! gray := to_gray image in
  let! column := call "cv2.getGaussianKernel" [psf_size; VInt 0] in
  let! row := call "T" [column] in
  let! psf := call "@" [column; row] in
  let! total := call "ndarray.sum" [psf] in
  let! _ := call_inplace "/=" psf [total] in
  let! padded_gray := call "np.pad"
      [gray; VTuple [VTuple [psf_size; psf_size]; VTuple [psf_size; psf_size]];
       VStr "reflect"] in
  let! gshape := shape_of padded_gray in
  let! pshape := shape_of psf in
  let! g0 := shape_at gshape 0 in
  let! p0 := shape_at pshape 0 in
  let! g1 := shape_at gshape 1 in
  let! p1 := shape_at pshape 1 in
  let! padded_psf := call "np.pad"
      [psf; VTuple [VTuple [VInt 0; VInt (g0 - p0)]; VTuple [VInt 0; VInt (g1 - p1)]];
       VStr "constant"] in
  let! padded_psf := call "np.roll"
      [padded_psf; VTuple [VInt ((- p0) / 2); VInt ((- p1) / 2)]; VTuple [VInt 0; VInt 1]] in
  let! gray_fft := call "np.fft.fft2" [padded_gray] in
  let! psf_fft := call "np.fft.fft2" [padded_psf] in
  let! conj := call "np.conj" [psf_fft] in
  let! mag := call "np.abs" [psf_fft] in
  let! mag2 := call "**" [mag; VInt 2] in
  let! denom := call "+" [mag2; noise_power] in
  let! deconvolved := call "/" [conj; denom] in
  let! deconvolved := call "*" [gray_fft; deconvolved] in
  let! inverse := call "np.fft.ifft2" [deconvolved] in
  let! result := call "np.abs" [inverse] in
  let! minus := py_neg psf_size in
  let! result := call "[a:b,a:b]" [result; psf_size; minus] in
  let! normalized := call "cv2.normalize"
      [result; VNone; VInt 0; VInt 255; VInt NORM_MINMAX] in
  let! result := call "astype" [normalized; VStr "uint8"] in
  let! result_3ch := cvtColor result COLOR_GRAY2BGR in
  ret (VTuple [result_3ch;
               VStr (wiener_deconvolution_description (py_str psf_size)
                       (py_str noise_power))]).

(** One round of [for _ in range(num_points)]: a random centre, a filled
    circle on the mask. *)
Definition damage_point (mask mask_radius : pyval) (height width : Z) : M unit :=
  let! x_high := py_op Sub (VInt width) mask_radius in
  let! x := randint mask_radius x_high in
  let! y_high := py_op Sub (VInt height) mask_radius in
  let! y := randint mask_radius y_high in
  let! _ := cv_circle mask x y mask_radius 255 in
  ret tt.

Definition inpainting (image : pyval) (params : kwargs) : M pyval :=
  let! _ := check_kwargs "RestorationOperations.inpainting"
              ["mask_radius"; "num_points"] params in
  let mask_radius := kwarg "mask_radius" (VInt 20) params in
  let num_points := kwarg "num_points" (VInt 5) params in
  let! result := np_copy image in
  let! ishape := shape_of image in
  let! mask := np_zeros_u8 (take 2 ishape) in
  let! mshape := shape_of mask in
  let! hw := unpack_shape2 mshape in
  let height := hw.1 in
  let width := hw.2 in
  let! rounds := py_range 0 num_points in
  let! _ := for_each rounds (fun _ => damage_point mask mask_radius height width) in
  let! damaged := np_copy result in
  let! _ := setitem_where damaged mask 255 (VList [VInt 0; VInt 0; VInt 255]) in
  let! result := call "cv2.inpaint" [result; mask; VInt 3; VInt INPAINT_TELEA] in
  let! display := np_hstack [damaged; result] in
  ret (VTuple [display;
               VStr (inpainting_description (py_str mask_radius) (py_str num_points))]).

(** ** app.py: the handler objects and the [/process] route *)

Definition method : Type := pyval -> kwargs -> M pyval.

(** An instance of one of the operation classes, as [dir] and [getattr]
    see it: the transforms the class defines, and the names that are
    attributes without being transforms (the slots every object inherits,
    name-mangled private helpers). *)
Record handler := Handler {
  class_name : string;
  methods : list (string * method);
  private : list string;
  inherited : list string
}.

(** What [dir] lists for any instance of a class with no base, under
    Python 3.[python_minor]: the names every version lists, then
    [__getstate__], which [object] has from 3.11 on, and the two
    attributes the compiler gives every class from 3.13 on. *)
Definition object_dir : list string :=
  ["__class__"; "__delattr__"; "__dict__"; "__dir__"; "__doc__"; "__eq__";
   "__format__"; "__ge__"; "__getattribute__"; "__gt__"; "__hash__";
   "__init__"; "__init_subclass__"; "__le__"; "__lt__"; "__module__";
   "__ne__"; "__new__"; "__reduce__"; "__reduce_ex__"; "__repr__";
   "__setattr__"; "__sizeof__"; "__str__"; "__subclasshook__"; "__weakref__"]
  ++ (if 11 <=? python_minor env then ["__getstate__"] else [])
  ++ (if 13 <=? python_minor env
      then ["__firstlineno__"; "__static_attributes__"] else []).

Definition dir (h : handler) : list string :=
  inherited h ++ private h ++ map fst (methods h).

Definition find_method (h : handler) (name : string) : option method :=
  match find (fun nm => String.eqb (fst nm) name) (methods h) with
  | Some nm => Some (snd nm)
  | None => None
  end.

(** [op_type in dir(h)] *)
Definition in_dir (op_type : pyval) (h : handler) : bool :=
  match op_type with
  | VStr s => existsb (String.eqb s) (dir h)
  | _ => false
  end.

(** [getattr(h, name)(current_img, **params)].  A transform runs.  Any
    other attribute is a class, a string, a dictionary, [None] or a slot
    wrapper: calling it with an array raises, or gives something that is
    not a pair and fails the unpacking that follows. *)
Definition getattr_call (h : handler) (name : string)
    (current_img : pyval) (params : kwargs) : M pyval :=
  let! _ := note_invoked name in
  match find_method h name with
  | Some m => m current_img params
  | None =>
      let! seen := unbox current_img in
      raise (TypeError (slot_msg env name [seen] params))
  end.

Definition basic_ops : handler :=
  {| class_name := "BasicOperations";
     methods := [("grayscale", grayscale); ("negative", negative);
                 ("threshold", threshold);
                 ("adjust_brightness", adjust_brightness);
                 ("adjust_contrast", adjust_contrast);
                 ("gaussian_blur", gaussian_blur);
                 ("median_blur", median_blur);
                 ("bilateral_filter", bilateral_filter);
                 ("histogram_equalization", histogram_equalization);
                 ("sharpen", sharpen)];
     private := [];
     inherited := object_dir |}.

Definition advanced_ops : handler :=
  {| class_name := "AdvancedOperations";
     methods := [("retinex", retinex); ("clahe", clahe);
                 ("fourier_transform", fourier_transform);
                 ("frequency_filter", frequency_filter)];
     private := [];
     inherited := object_dir |}.

Definition morphological_ops : handler :=
  {| class_name := "MorphologicalOperations";
     methods := [("erosion", erosion); ("dilation", dilation);
                 ("opening", opening); ("closing", closing);
                 ("gradient", gradient); ("top_hat", top_hat);
                 ("black_hat", black_hat)];
     private := ["_MorphologicalOperations__get_kernel"];
     inherited := object_dir |}.

Definition segmentation_ops : handler :=
  {| class_name := "SegmentationOperations";
     methods := [("canny_edge", canny_edge); ("sobel_edge", sobel_edge);
                 ("watershed", watershed);
                 ("contour_detection", contour_detection);
                 ("orb_keypoints", orb_keypoints)];
     private := [];
     inherited := object_dir |}.

(** The handlers [process_image] consults, in the order of its [if] chain. *)
Definition handlers : list handler :=
  [basic_ops; advanced_ops; morphological_ops; segmentation_ops].

(** The classes [app.py] does not import. *)
Definition color_methods : list (string * method) :=
  [("rgb_to_hsv", rgb_to_hsv); ("rgb_to_lab", rgb_to_lab);
   ("rgb_to_ycrcb", rgb_to_ycrcb);
   ("channel_separation", channel_separation);
   ("color_quantization", color_quantization)].
Definition frequency_methods : list (string * method) :=
  [("visualize_spectrum", visualize_spectrum);
   ("bandpass_filter", bandpass_filter); ("notch_filter", notch_filter)].
Definition restoration_methods : list (string * method) :=
  [("add_degradation", add_degradation);
   ("wiener_deconvolution", wiener_deconvolution);
   ("inpainting", inpainting)].

(** Every transform of the repository. *)
Definition all_transforms : list (string * method) :=
  concat (map methods handlers)
  ++ color_methods ++ frequency_methods ++ restoration_methods.

(** One element of the request's [operations]: [op.get('type')] and
    [op.get('params', {})]. *)
Record operation := Operation {
  op_type : pyval;
  op_params : kwargs
}.

(** One element of [results]. *)
Record result_entry := ResultEntry {
  r_operation : pyval;
  r_image : string;
  r_description : pyval;
  r_width : Z;
  r_height : Z
}.

(** What the route returns: [jsonify(body), status]. *)
Inductive body :=
| Success (results : list result_entry)
| Error (error : string).
Record response := Response {
  json : body;
  status : Z
}.

(** The [results] a response carries (an error body has no such key). *)
Definition response_results (r : response) : list result_entry :=
  match json r with
  | Success rs => rs
  | Error _ => []
  end.

(** How one round of the loop ends: by returning from the route, or by
    going on with the updated [results] and [current_img]. *)
Inductive step :=
| Return (r : response)
| Continue (results : list result_entry) (current_img : pyval).

(** The first handler whose [dir] lists the name. *)
Definition dispatch (op_type : pyval) : option (handler * string) :=
  match op_type, find (in_dir op_type) handlers with
  | VStr name, Some h => Some (h, name)
  | _, _ => None
  end.

(** The body of the [try] block. *)
Definition try_stage (op_type : pyval) (params : kwargs)
    (results : list result_entry) (current_img : pyval) : M step :=
  match dispatch op_type with
  | None =>
      ret (Return {| json := Error ("Unknown operation: " +:+ py_str op_type);
                     status := 400 |})
  | Some (h, name) =>
      let! r := getattr_call h name current_img params in
      let! pd := unpack2 r in
      let processed := pd.1 in
      let description := pd.2 in
      let! pixels := unbox processed in
      let! img_base64 := lift (png_base64 env pixels) in
      let! shape := shape_of processed in
      let! width := shape_at shape 1 in
      let! height := shape_at shape 0 in
      ret (Continue (results ++ [{| r_operation := op_type;
                                    r_image := img_base64;
                                    r_description := description;
                                    r_width := width;
                                    r_height := height |}])
                    processed)
  end.

(** The [except Exception as e] clause. *)
Definition on_exception (op_type : pyval) (e : exn) : M step :=
  ret (Return {| json := Error ("Error in operation " +:+ py_str op_type
                                +:+ ": " +:+ str_exn e);
                 status := 500 |}).

(** One round of the loop: [op_type] and [params] are read off [op], the
    [try] block runs under its handler. *)
Definition run_stage (op : operation) (results : list result_entry)
    (current_img : pyval) : M step :=
  let op_type := op_type op in
  let params := op_params op in
  try_except (try_stage op_type params results current_img)
             (on_exception op_type).

(** [for op in operations: ...] and the final [return]. *)
Fixpoint run_stages (operations : list operation)
    (results : list result_entry) (current_img : pyval) : M response :=
  match operations with
  | [] => ret {| json := Success results; status := 200 |}
  | op :: rest =>
      let! s := run_stage op results current_img in
      match s with
      | Return r => ret r
      | Continue results' current_img' => run_stages rest results' current_img'
      end
  end.

(** [process_image] from the point where the uploaded file has been read
    into [img]. *)
Definition process_image (operations : list operation) (img : ndarray)
    : M response :=
  let! img := new img in
  let! current_img := np_copy (VRef img) in
  run_stages operations [] current_img.

End SmartDIP.

(** ** app.py: [allowed_file] *)

Definition ALLOWED_EXTENSIONS : list string :=
  ["png"; "jpg"; "jpeg"; "bmp"; "tif"; "tiff"].

(** [s.rsplit(sep, 1)], for a one-character [sep]: [s] cut at its last
    [sep], or [s] alone when it has none. *)
Fixpoint rsplit1 (sep : ascii) (s : string) : list string :=
  match s with
  | EmptyString => [EmptyString]
  | String c rest =>
      match rsplit1 sep rest with
      | [tail] =>
          if Ascii.eqb c sep then [EmptyString; tail] else [String c tail]
      | head :: more => String c head :: more
      | [] => []
      end
  end.

(** [l[i]] *)
Definition py_index {A} (l : list A) (i : nat) : outcome A :=
  match l !! i with
  | Some x => Ret x
  | None => Raise (IndexError "list index out of range")
  end.

(** [x in ALLOWED_EXTENSIONS] *)
Definition is_allowed_extension (x : string) : bool :=
  existsb (String.eqb x) ALLOWED_EXTENSIONS.

(**
<<
def allowed_file(filename):
    return '.' in filename and filename.rsplit('.', 1)[1].lower() in ALLOWED_EXTENSIONS
>> *)
Definition allowed_file (filename : string) : outcome bool :=
  if contains "." filename
  then match py_index (rsplit1 "." filename) 1 with
       | Ret ext => Ret (is_allowed_extension (lower ext))
       | Raise e => Raise e
       end
  else Ret false.

(** ** app.py: [get_available_operations] *)

(** [dir] returns its names in alphabetical order. *)
Fixpoint insert_sorted (x : string) (l : list string) : list string :=
  match l with
  | [] => [x]
  | y :: rest => if String.leb x y then x :: l else y :: insert_sorted x rest
  end.
Definition py_sorted (l : list string) : list string :=
  fold_right insert_sorted [] l.
Definition sorted_dir (h : handler) : list string := py_sorted (dir h).

(** [[method for method in dir(h) if not method.startswith('_')]] *)
Definition public_names (h : handler) : list string :=
  List.filter (fun method => negb (String.prefix "_" method)) (sorted_dir h).

(** The first line of the docstring of every method of the four classes
    ([func.__doc__.split('\n')[0]]). *)
Definition first_doc_lines : list (string * list (string * string)) :=
  [
   ("BasicOperations",
     [
      ("grayscale", "Convert an image to grayscale.");
      ("negative", "Create a negative of the image.");
      ("threshold", "Apply thresholding to an image.");
      ("adjust_brightness", "Adjust image brightness by adding a constant value.");
      ("adjust_contrast", "Adjust image contrast by multiplying by a constant value.");
      ("gaussian_blur", "Apply Gaussian blur to an image.");
      ("median_blur", "Apply median blur to an image.");
      ("bilateral_filter", "Apply bilateral filter to an image.");
      ("histogram_equalization", "Apply histogram equalization to enhance image contrast.");
      ("sharpen", "Sharpen an image using unsharp masking.")
     ]);
   ("AdvancedOperations",
     [
      ("retinex", "Apply Multi-Scale Retinex (MSR) algorithm for image enhancement.");
      ("clahe", "Apply Contrast Limited Adaptive Histogram Equalization (CLAHE).");
      ("fourier_transform", "Display the Fourier transform of an image.");
      ("frequency_filter", "Apply frequency domain filtering (lowpass/highpass).")
     ]);
   ("MorphologicalOperations",
     [
      ("_MorphologicalOperations__get_kernel", "Helper function to create kernel of specified shape and size.");
      ("erosion", "Apply erosion morphological operation.");
      ("dilation", "Apply dilation morphological operation.");
      ("opening", "Apply opening morphological operation (erosion followed by dilation).");
      ("closing", "Apply closing morphological operation (dilation followed by erosion).");
      ("gradient", "Apply morphological gradient (difference between dilation and erosion).");
      ("top_hat", "Apply top hat transform (difference between input and opening).");
      ("black_hat", "Apply black hat transform (difference between closing and input).")
     ]);
   ("SegmentationOperations",
     [
      ("canny_edge", "Apply Canny edge detection.");
      ("sobel_edge", "Apply Sobel edge detection.");
      ("watershed", "Apply watershed segmentation algorithm.");
      ("contour_detection", "Detect and draw contours in an image.");
      ("orb_keypoints", "Detect and display ORB keypoints.")
     ])
  ].

(** [func.__doc__.split('\n')[0] if func.__doc__ else ''] for
    [func = getattr(h, name)] *)
Definition doc_summary (h : handler) (name : string) : string :=
  match find (fun c => String.eqb (fst c) (class_name h)) first_doc_lines with
  | Some c =>
      match find (fun d => String.eqb (fst d) name) (snd c) with
      | Some d => snd d
      | None => ""
      end
  | None => ""
  end.

(** One value of [operation_details].  No method of the four classes
    carries annotations, so the loop over [func.__annotations__] adds
    nothing and [parameters] stays empty. *)
Record operation_info := OperationInfo {
  info_category : string;
  info_description : string;
  info_parameters : list (string * (string * pyval))
}.

(** [d[k] = v] on a dictionary kept in insertion order. *)
Fixpoint dict_set {V} (k : string) (v : V) (d : list (string * V))
    : list (string * V) :=
  match d with
  | [] => [(k, v)]
  | (k', v') :: rest =>
      if String.eqb k' k then (k, v) :: rest else (k', v') :: dict_set k v rest
  end.
Definition dict_get {V} (k : string) (d : list (string * V)) : option V :=
  match find (fun kv => String.eqb (fst kv) k) d with
  | Some kv => Some (snd kv)
  | None => None
  end.

Record available_operations := AvailableOperations {
  av_success : bool;
  av_operations : list (string * list string);
  av_operation_details : list (string * operation_info)
}.

Section Listing.
Variable env : platform.

(** The [if category == ...] chain that picks [module]. *)
Definition category_module (category : string) : option handler :=
  if String.eqb category "basic" then Some (basic_ops env)
  else if String.eqb category "advanced" then Some (advanced_ops env)
  else if String.eqb category "morphological" then Some (morphological_ops env)
  else if String.eqb category "segmentation" then Some (segmentation_ops env)
  else None.

(** The body of [for op in ops]. *)
Definition describe_operation (category op : string)
    (operation_details : list (string * operation_info))
    : list (string * operation_info) :=
  match category_module category with
  | Some module =>
      dict_set op {| info_category := category;
                     info_description := doc_summary module op;
                     info_parameters := [] |} operation_details
  | None => operation_details
  end.

Definition get_available_operations : available_operations :=
  let operations :=
    [("basic", public_names (basic_ops env));
     ("advanced", public_names (advanced_ops env));
     ("morphological", public_names (morphological_ops env));
     ("segmentation", public_names (segmentation_ops env))] in
  let operation_details :=
    fold_left (fun details co =>
                 fold_left (fun details op => describe_operation co.1 op details)
                           co.2 details)
              operations [] in
  {| av_success := true;
     av_operations := operations;
     av_operation_details := operation_details |}.

End Listing.

(** ** app.py: the routes that touch the disk *)

(** *** Paths, as [posixpath] computes them *)

Fixpoint last_char (s : string) : option ascii :=
  match s with
  | EmptyString => None
  | String c EmptyString => Some c
  | String _ rest => last_char rest
  end.

(** [s.rfind(c)]: the index of the last [c] in [s], or -1. *)
Fixpoint rfind (c : ascii) (s : string) : Z :=
  match s with
  | EmptyString => -1
  | String x rest =>
      let r := rfind c rest in
      if 0 <=? r then r + 1 else if Ascii.eqb x c then 0 else -1
  end.

(** [s.rstrip('/')] *)
Fixpoint rstrip_slash (s : string) : string :=
  match s with
  | EmptyString => EmptyString
  | String c rest =>
      let r := rstrip_slash rest in
      if String.eqb r "" && Ascii.eqb c "/" then EmptyString else String c r
  end.

(** [os.path.join(a, b)] *)
Definition path_join (a b : string) : string :=
  if String.prefix "/" b then b
  else if String.eqb a "" || bool_decide (last_char a = Some "/"%char) then a +:+ b
  else a +:+ "/" +:+ b.

(** [os.path.splitext(p)]: the extension starts at the last dot of the
    last component, unless only dots precede it there. *)
Definition splitext (p : string) : string * string :=
  let sepIndex := rfind "/" p in
  let dotIndex := rfind "." p in
  if sepIndex <? dotIndex
  then
    let leading := substring (Z.to_nat (sepIndex + 1))
                     (Z.to_nat (dotIndex - (sepIndex + 1))) p in
    if existsb (fun c => negb (Ascii.eqb c ".")) (list_ascii_of_string leading)
    then (substring 0 (Z.to_nat dotIndex) p,
          substring (Z.to_nat dotIndex) (String.length p - Z.to_nat dotIndex) p)
    else (p, "")
  else (p, "").

(** [os.path.dirname(p)] *)
Definition dirname (p : string) : string :=
  let head := substring 0 (Z.to_nat (rfind "/" p + 1)) p in
  if String.eqb (rstrip_slash head) "" then head else rstrip_slash head.

(** [s.split(sep)], for a one-character [sep] *)
Fixpoint split_on (sep : ascii) (s : string) : list string :=
  match s with
  | EmptyString => [EmptyString]
  | String c rest =>
      match split_on sep rest with
      | head :: more =>
          if Ascii.eqb c sep then EmptyString :: head :: more
          else String c head :: more
      | [] => []
      end
  end.

Definition UPLOAD_FOLDER : string := path_join "static" "uploads".

(** *** The disk *)

(** Regular files and directories under the paths the program names
    them by: a file is written, removed and listed under the spelling of
    its path, and looked up under any spelling that leads to it.  There
    are no permissions and no quotas: a call fails only for what is or is
    not at its path. *)
Inductive node :=
| File (content : string)
| Directory.
Definition disk : Type := gmap string node.

(** What a route can fail with: an exception of the interpreter or of
    OpenCV, an [OSError], or [binascii.Error]. *)
Inductive fault :=
| PyError (e : exn)
| OSError (errno : Z) (strerror : string) (filename : string)
| Base64Error (msg : string).

Definition str_fault (f : fault) : string :=
  match f with
  | PyError e => str_exn e
  | OSError errno strerror filename =>
      "[Errno " +:+ str_int errno +:+ "] " +:+ strerror +:+ ": "
      +:+ py_repr (VStr filename)
  | Base64Error msg => msg
  end.

Inductive result (A : Type) :=
| Ok (a : A)
| Fail (f : fault).
Arguments Ok {A} a.
Arguments Fail {A} f.

(** What the routes take from outside the repository.
    [secure_filename]: werkzeug's.
    [uuid_of n]: the text of the [n]-th identifier [uuid.uuid4()] gives.
    [imdecode]: the image [cv2.imread] makes of a file's content, if any.
    [encode_base64 ext img]: [cv2.imencode(ext, img)], then base64.
    [b64decode]: [base64.b64decode]. *)
Record host := Host {
  secure_filename : string -> string;
  uuid_of : nat -> string;
  imdecode : string -> option ndarray;
  encode_base64 : string -> ndarray -> outcome string;
  b64decode : string -> result string
}.

(** The state of the server between requests. *)
Record site := Site {
  files : disk;
  issued : nat;
  memory : world
}.
Definition set_files (d : disk) (s : site) : site :=
  {| files := d; issued := issued s; memory := memory s |}.
Definition set_memory (w : world) (s : site) : site :=
  {| files := files s; issued := issued s; memory := w |}.

Definition R (A : Type) : Type := site -> result A * site.
Definition done {A} (a : A) : R A := fun s => (Ok a, s).
Definition fail {A} (f : fault) : R A := fun s => (Fail f, s).
Definition and_then {A B} (m : R A) (k : A -> R B) : R B :=
  fun s => match m s with
           | (Ok a, s') => k a s'
           | (Fail f, s') => (Fail f, s')
           end.
Definition try_route {A} (body : R A) (handler : fault -> R A) : R A :=
  fun s => match body s with
           | (Ok a, s') => (Ok a, s')
           | (Fail f, s') => handler f s'
           end.
Notation "'do!' x ':=' m 'in' k" := (and_then m (fun x => k))
  (at level 10, x name, m at level 200, k at level 200,
   format "'[v' 'do!'  x  ':='  m  'in' '/' k ']'").

Fixpoint each {A} (l : list A) (body : A -> R unit) : R unit :=
  match l with
  | [] => done tt
  | x :: xs => do! _ := body x in each xs body
  end.

(** Is there a directory at [p]?  The current directory (the empty path)
    and the root are always there. *)
Definition is_directory (d : disk) (p : string) : bool :=
  String.eqb (rstrip_slash p) ""
  || match d !! p with Some Directory => true | _ => false end.

(** [open(path, 'wb').write(content)], which is also what
    [FileStorage.save(path)] does. *)
Definition write_file (path content : string) : R unit :=
  fun s =>
    if negb (is_directory (files s) (dirname path))
    then match files s !! dirname path with
         | Some (File _) => (Fail (OSError 20 "Not a directory" path), s)
         | _ => (Fail (OSError 2 "No such file or directory" path), s)
         end
    else match files s !! path with
         | Some Directory => (Fail (OSError 21 "Is a directory" path), s)
         | _ => (Ok tt, set_files (<[path := File content]> (files s)) s)
         end.

(** [os.remove(path)] *)
Definition remove_file (path : string) : R unit :=
  fun s =>
    match files s !! path with
    | Some (File _) => (Ok tt, set_files (delete path (files s)) s)
    | Some Directory => (Fail (OSError 21 "Is a directory" path), s)
    | None => (Fail (OSError 2 "No such file or directory" path), s)
    end.

(** *** What a path leads to

    A path that is itself an entry of the disk names that entry.  Any
    other path is followed as the kernel follows it where there are no
    symbolic links, one component at a time from the root or from the
    current directory: an empty component or [.] stays, [..] goes to the
    parent, and each of them, like every component that is not the last,
    needs a directory to start from.  What is above the current directory
    is known by its relative name only. *)

(** Is there a directory at [p]: the current directory, the root and
    the directories above the current one, and any directory the disk
    lists or lists an entry of. *)
Definition holds_directory (d : disk) (p : string) : bool :=
  is_directory d p
  || forallb (String.eqb "..") (split_on "/" p)
  || match d !! p with
     | None => existsb (fun pn : string * node => String.prefix (p +:+ "/") pn.1)
                       (map_to_list d)
     | Some _ => false
     end.

(** The directory that holds the directory [here]. *)
Definition parent (here : string) : string :=
  if String.eqb here "/" then "/"
  else if String.eqb here "" || forallb (String.eqb "..") (split_on "/" here)
  then path_join here ".."
  else dirname here.

Fixpoint walk (d : disk) (here : string) (parts : list string) : option string :=
  match parts with
  | [] => Some here
  | part :: rest =>
      if holds_directory d here
      then if String.eqb part "" || String.eqb part "." then walk d here rest
           else if String.eqb part ".." then walk d (parent here) rest
           else walk d (path_join here part) rest
      else None
  end.

Definition at_path (d : disk) (path : string) : option node :=
  match d !! path with
  | Some n => Some n
  | None =>
      if String.eqb path "" then None
      else
        match walk d (if String.prefix "/" path then "/" else "")
                   (split_on "/" path) with
        | Some p =>
            match d !! p with
            | Some n => Some n
            | None => if holds_directory d p then Some Directory else None
            end
        | None => None
        end
  end.

(** [os.path.exists(path)] and [os.path.isfile(path)] *)
Definition path_exists (path : string) : R bool :=
  fun s => (Ok (bool_decide (is_Some (at_path (files s) path))), s).
Definition isfile (path : string) : R bool :=
  fun s => (Ok (match at_path (files s) path with
                | Some (File _) => true
                | _ => false
                end), s).

(** The name under which [p] is an entry of the directory [dir]. *)
Definition child_name (dir p : string) : option string :=
  let prefix := dir +:+ "/" in
  if String.prefix prefix p
  then let name := substring (String.length prefix)
                     (String.length p - String.length prefix) p in
       if String.eqb name "" || contains "/" name then None else Some name
  else None.

(** [os.listdir(dir)] *)
Definition listdir (dir : string) : R (list string) :=
  fun s =>
    match files s !! dir with
    | Some Directory =>
        (Ok (omap (fun pn => child_name dir pn.1) (map_to_list (files s))), s)
    | Some (File _) => (Fail (OSError 20 "Not a directory" dir), s)
    | None => (Fail (OSError 2 "No such file or directory" dir), s)
    end.

(** [cv2.imread(path)]: [None] when there is no file or it is no image. *)
Definition imread (sys : host) (path : string) : R (option ndarray) :=
  fun s => (Ok (match at_path (files s) path with
                | Some (File content) => imdecode sys content
                | _ => None
                end), s).

(** [str(uuid.uuid4())] *)
Definition uuid4 (sys : host) : R string :=
  fun s => (Ok (uuid_of sys (issued s)),
            {| files := files s; issued := S (issued s); memory := memory s |}).

Definition of_outcome {A} (o : outcome A) : R A :=
  fun s => match o with
           | Ret a => (Ok a, s)
           | Raise e => (Fail (PyError e), s)
           end.
Definition of_result {A} (r : result A) : R A := fun s => (r, s).

(** *** The replies *)

Inductive payload :=
| ErrorBody (error : string)
| Uploaded (filename image : string) (width height : Z)
| Processed (results : list result_entry)
| Saved (filename : string)
| Cleared.
Record reply := Reply {
  body_of : payload;
  code : Z
}.

(** One entry of [request.files]: the name the client gave and the
    bytes. *)
Record upload := Upload {
  up_filename : string;
  up_content : string
}.

(** The body of a [/process] request that is a JSON object: the keys it
    has, with a string for [filename] and a list of operation objects for
    [operations]. *)
Record process_body := ProcessBody {
  pb_filename : option string;
  pb_operations : option (list operation)
}.

(** The body of a [/save_processed] request that is a JSON object, with
    a string for [image]. *)
Record save_body := SaveBody {
  sb_image : option string;
  sb_operation : option pyval
}.

Section Routes.
Variable env : platform.
Variable sys : host.

(** [t[i]] on the shape of an image read from disk *)
Definition shape_entry (img : ndarray) (i : nat) : R Z :=
  match np_shape img !! i with
  | Some n => done n
  | None => fail (PyError (IndexError "tuple index out of range"))
  end.

Definition upload_file (request_files : list (string * upload)) : R reply :=
  match find (fun kv => String.eqb kv.1 "file") request_files with
  | None => done {| body_of := ErrorBody "No file part"; code := 400 |}
  | Some (_, file) =>
      if String.eqb (up_filename file) ""
      then done {| body_of := ErrorBody "No selected file"; code := 400 |}
      else
        (* [file] is true when its name is not empty *)
        do! allowed := of_outcome (allowed_file (up_filename file)) in
        if allowed : bool
        then
          do! unique_id := uuid4 sys in
          let filename := secure_filename sys (up_filename file) in
          let name := (splitext filename).1 in
          let ext := (splitext filename).2 in
          let saved_filename := name +:+ "_" +:+ unique_id +:+ ext in
          let filepath := path_join UPLOAD_FOLDER saved_filename in
          do! _ := write_file filepath (up_content file) in
          do! img := imread sys filepath in
          match img with
          | None =>
              do! _ := remove_file filepath in
              done {| body_of := ErrorBody "Invalid image file"; code := 400 |}
          | Some img =>
              do! img_base64 := of_outcome (encode_base64 sys ext img) in
              do! width := shape_entry img 1 in
              do! height := shape_entry img 0 in
              done {| body_of := Uploaded saved_filename img_base64 width height;
                      code := 200 |}
          end
        else done {| body_of := ErrorBody "File type not allowed"; code := 400 |}
  end.

(** The loop of [process_image], run in the server's memory. *)
Definition run_pipeline (operations : list operation) (img : ndarray) : R reply :=
  fun s =>
    match process_image env operations img (memory s) with
    | (Ret r, w') =>
        (Ok {| body_of := match json r with
                          | Success results => Processed results
                          | Error msg => ErrorBody msg
                          end;
               code := status r |}, set_memory w' s)
    | (Raise e, w') => (Fail (PyError e), set_memory w' s)
    end.

(** The route [/process], from the request's body on. *)
Definition process_route (data : option process_body) : R reply :=
  match data with
  | Some {| pb_filename := Some filename; pb_operations := Some operations |} =>
      let image_path := path_join UPLOAD_FOLDER filename in
      do! present := path_exists image_path in
      if negb present
      then done {| body_of := ErrorBody "Image not found"; code := 404 |}
      else
        do! img := imread sys image_path in
        match img with
        | None => done {| body_of := ErrorBody "Could not read image"; code := 400 |}
        | Some img => run_pipeline operations img
        end
  | _ => done {| body_of := ErrorBody "Invalid request data"; code := 400 |}
  end.

Definition save_processed (data : option save_body) : R reply :=
  match data with
  | Some {| sb_image := Some image_data; sb_operation := Some operation |} =>
      try_route
        (do! encoded := (if contains "," image_data
                         then of_outcome (py_index (split_on "," image_data) 1)
                         else done image_data) in
         do! img_data := of_result (b64decode sys encoded) in
         do! unique_id := uuid4 sys in
         let filename := py_str operation +:+ "_" +:+ unique_id +:+ ".png" in
         let filepath := path_join UPLOAD_FOLDER filename in
         do! _ := write_file filepath img_data in
         done {| body_of := Saved filename; code := 200 |})
        (fun e => done {| body_of := ErrorBody ("Error saving image: " +:+ str_fault e);
                          code := 500 |})
  | _ => done {| body_of := ErrorBody "Invalid request data"; code := 400 |}
  end.

(** The body of [for filename in os.listdir(...)]. *)
Definition clear_one (filename : string) : R unit :=
  let file_path := path_join UPLOAD_FOLDER filename in
  do! regular := isfile file_path in
  if regular : bool then remove_file file_path else done tt.

Definition clear_uploads : R reply :=
  try_route
    (do! names := listdir UPLOAD_FOLDER in
     do! _ := each names clear_one in
     done {| body_of := Cleared; code := 200 |})
    (fun e => done {| body_of := ErrorBody ("Error clearing uploads: " +:+ str_fault e);
                      code := 500 |}).

End Routes.

(** ** A platform to run the embedding on *)

(** OpenCV's 8-bit BGR to grey: fixed-point weights over 2^15, rounded. *)
Definition cv_luma (b g r : Z) : Z :=
  (3735 * b + 19235 * g + 9798 * r + 16384) / 32768.

(** Stand-ins for the parts of the platform the embedding leaves open,
    used to run it on concrete requests.  Every library routine hands
    back its first argument when that is an array, a list of arrays or an
    integer, and is reported missing otherwise; the codec writes the shape
    and the samples in decimal instead of PNG bytes. *)
Definition stand_in_lib (name : string) (args : list pyval) : outcome pyval :=
  match args with
  | VArr a :: _ => Ret (VArr a)
  | (VList (VArr a :: _) | VTuple (VArr a :: _)) :: _ => Ret (VArr a)
  | VInt z :: _ => Ret (VInt z)
  | _ => Raise (cv2_error (name +:+ " is not available"))
  end.

Definition stand_in_codec (v : pyval) : outcome string :=
  match v with
  | VArr a => Ret (join "x" (map str_int (np_shape a)) +:+ ":"
                   +:+ join "," (map str_int (samples a)))
  | _ => Raise (TypeError "Expected Ptr<cv::UMat> for argument 'img'")
  end.

Definition stand_in : platform :=
  {| lib := stand_in_lib;
     luma := cv_luma;
     png_base64 := stand_in_codec;
     slot_msg := fun name _ _ => squote +:+ name +:+ "' is not a transform";
     python_minor := 11 |}.

(** * Vocabulary of the properties *)

(** [fresh n v]: every reference [v] holds is to an array allocated at or
    after position [n]. *)
Fixpoint fresh (n : nat) (v : pyval) : Prop :=
  match v with
  | VRef l => (n <= l)%nat
  | VList vs | VTuple vs =>
      (fix all (l : list pyval) : Prop :=
         match l with
         | [] => True
         | x :: xs => fresh n x /\ all xs
         end) vs
  | _ => True
  end.

(** What is tracked of a value of each type through a transform: the
    freshness of the references in it. *)
Class Tracked (A : Type) := tracked : nat -> A -> Prop.
#[export] Instance tracked_pyval : Tracked pyval := fresh.
#[export] Instance tracked_loc : Tracked loc := fun n l => (n <= l)%nat.
#[export] Instance tracked_list {A} `{Tracked A} : Tracked (list A) :=
  fun n => Forall (tracked n).
#[export] Instance tracked_prod {A B} `{Tracked A} `{Tracked B} : Tracked (A * B) :=
  fun n p => tracked n p.1 /\ tracked n p.2.
#[export] Instance tracked_other {A} : Tracked A | 100 := fun _ _ => True.

(** [frame n m Q]: run in a world with at least [n] arrays, [m] leaves
    the first [n] arrays and the dispatcher's record as they are, and a
    value it returns satisfies [Q]. *)
Definition frame {A} (n : nat) (m : M A) (Q : A -> Prop) : Prop :=
  forall w, (n <= length (heap w))%nat ->
    (n <= length (heap (m w).2))%nat /\
    (forall l, (l < n)%nat -> heap (m w).2 !! l = heap w !! l) /\
    invoked (m w).2 = invoked w /\
    (forall a, (m w).1 = Ret a -> Q a).

(** [rng_free m]: [m] neither reads nor advances the random generators. *)
Definition rng_free {A} (m : M A) : Prop :=
  forall w t, m (set_rng t w) = ((m w).1, set_rng t (m w).2).

(** [returns m Q]: whatever [m] returns satisfies [Q]. *)
Definition returns {A} (m : M A) (Q : A -> Prop) : Prop :=
  forall w a, (m w).1 = Ret a -> Q a.

(** The world once the uploaded image has been read and copied, and the
    reference [current_img] then holds. *)
Definition loaded (img : ndarray) (w : world) : world :=
  set_heap (heap w ++ [img; img]) w.
Definition working_copy (w : world) : pyval := VRef (S (length (heap w))).

(** The world once the dispatcher has recorded a call. *)
Definition noted (name : string) (w : world) : world :=
  set_invoked (invoked w ++ [name]) w.

(** The loop over a prefix of the request: where it stands afterwards. *)
Fixpoint run_prefix (env : platform) (operations : list operation)
    (results : list result_entry) (current_img : pyval) : M step :=
  match operations with
  | [] => ret (Continue results current_img)
  | op :: rest =>
      let! s := run_stage env op results current_img in
      match s with
      | Return r => ret (Return r)
      | Continue results' current_img' => run_prefix env rest results' current_img'
      end
  end.

(** The index of the stage at which the loop returns early, if any. *)
Fixpoint failing_stage (env : platform) (operations : list operation)
    (results : list result_entry) (current_img : pyval) (w : world)
    : option nat :=
  match operations with
  | [] => None
  | op :: rest =>
      match run_stage env op results current_img w with
      | (Ret (Continue results' current_img'), w') =>
          option_map S (failing_stage env rest results' current_img' w')
      | _ => Some 0%nat
      end
  end.

(** A transform applied to an image value: the image is the only array
    in memory, the generators are in the state [tape], and references in
    the result are replaced by the arrays they stand for. *)
Definition apply_transform (m : method) (img : ndarray) (params : kwargs)
    (tape : list Z) : outcome pyval :=
  ((let! v := m (VRef 0%nat) params in unbox v)
     {| heap := [img]; rng := tape; invoked := [] |}).1.

(** The same transform applied twice in a row to the same image, in the
    same process. *)
Definition apply_twice (m : method) (img : ndarray) (params : kwargs)
    (tape : list Z) : outcome (pyval * pyval) :=
  ((let! v1 := m (VRef 0%nat) params in
    let! r1 := unbox v1 in
    let! v2 := m (VRef 0%nat) params in
    let! r2 := unbox v2 in
    ret (r1, r2))
     {| heap := [img]; rng := tape; invoked := [] |}).1.

(** The transforms that draw random numbers. *)
Definition randomized : list string :=
  ["watershed"; "inpainting"; "add_degradation"; "color_quantization"].

(** The names of the operations of a request, as the dispatcher records
    them. *)
Definition op_names (operations : list operation) : list string :=
  map (fun op => py_str (op_type op)) operations.

Section Vocabulary.
Variable env : platform.

(** What the attribute does once the call is recorded. *)
Definition attribute_body (h : handler) (name : string)
    (current_img : pyval) (params : kwargs) : M pyval :=
  match find_method h name with
  | Some m => m current_img params
  | None =>
      let! seen := unbox current_img in
      raise (TypeError (slot_msg env name [seen] params))
  end.

(** The statements of the [try] block after the call. *)
Definition after_call (op_type : pyval) (results : list result_entry)
    (r : pyval) : M step :=
  let! pd := unpack2 r in
  let processed := pd.1 in
  let description := pd.2 in
  let! pixels := unbox processed in
  let! img_base64 := lift (png_base64 env pixels) in
  let! shape := shape_of processed in
  let! width := shape_at shape 1 in
  let! height := shape_at shape 0 in
  ret (Continue (results ++ [{| r_operation := op_type;
                                r_image := img_base64;
                                r_description := description;
                                r_width := width;
                                r_height := height |}])
                processed).

(** A stage that goes on has added one entry, for this operation, and
    has a new array as the working image. *)
Definition goes_on (n : nat) (op_type : pyval) (results : list result_entry)
    (s : step) : Prop :=
  exists entry current_img',
    s = Continue (results ++ [entry]) current_img' /\
    r_operation entry = op_type /\ fresh n current_img'.

(** The three ways a round of the loop can end. *)
Inductive stage_outcome (n : nat) (op : operation) (results : list result_entry)
    (w : world) (s : step) (w' : world) : Prop :=
| stage_unknown :
    dispatch env (op_type op) = None ->
    s = Return {| json := Error ("Unknown operation: " +:+ py_str (op_type op));
                  status := 400 |} ->
    w' = w ->
    stage_outcome n op results w s w'
| stage_failed h name e :
    dispatch env (op_type op) = Some (h, name) ->
    s = Return {| json := Error ("Error in operation " +:+ name +:+ ": " +:+ str_exn e);
                  status := 500 |} ->
    invoked w' = (invoked w ++ [name])%list ->
    stage_outcome n op results w s w'
| stage_done h name :
    dispatch env (op_type op) = Some (h, name) ->
    goes_on n (op_type op) results s ->
    invoked w' = (invoked w ++ [name])%list ->
    stage_outcome n op results w s w'.

(** OpenCV's grey plane of a colour image. *)
Definition gray_of (rows : list (list pixel)) : list (list Z) :=
  map (map (fun p : pixel => luma env p.1.1 p.1.2 p.2)) rows.

End Vocabulary.

(** A pixel of three bytes. *)
Definition px_is_u8 (p : pixel) : Prop :=
  (0 <= p.1.1 < 256 /\ 0 <= p.1.2 < 256) /\ 0 <= p.2 < 256.

(** What is said of each stage's output: a 100 x 100 image of three
    channels. *)
Definition is_100x100x3 (rows : list (list pixel)) : Prop :=
  np_shape (Color rows) = [100; 100; 3] /\ rectangular rows.


(** Every name some handler's [dir] lists. *)
Definition known_names (env : platform) : list string :=
  concat (map dir (handlers env)).

(** The transforms of the classes [app.py] does not import. *)
Definition unimported (env : platform) : list (string * method) :=
  color_methods env ++ frequency_methods env ++ restoration_methods env.




(** Two runs that end in the same world, with the same exception or with
    pairs that hold the same image; the descriptions may differ. *)
Definition image_part (o : outcome pyval) : outcome pyval :=
  match o with
  | Ret (VTuple [img; _]) => Ret img
  | _ => o
  end.
Definition same_image (r1 r2 : outcome pyval * world) : Prop :=
  image_part r1.1 = image_part r2.1 /\ r1.2 = r2.2.

(** The descriptions [notch_filter] can return that say where the notch
    came from. *)
Definition says_notch_mode (mode : string) (v : pyval) : Prop :=
  exists img notch_x notch_y sym_x sym_y notch_radius,
    v = VTuple [img; VStr (notch_filter_description notch_x notch_y sym_x sym_y
                             notch_radius mode)].

(** The name and the path under which [upload_file] stores an upload
    called [filename] when [n] identifiers have been issued. *)
Definition saved_name (sys : host) (filename : string) (n : nat) : string :=
  (splitext (secure_filename sys filename)).1 +:+ "_" +:+ uuid_of sys n
  +:+ (splitext (secure_filename sys filename)).2.
Definition saved_path (sys : host) (filename : string) (n : nat) : string :=
  path_join UPLOAD_FOLDER (saved_name sys filename n).

(** The name and the path of the file [save_processed] writes. *)
Definition processed_name (sys : host) (operation : pyval) (n : nat) : string :=
  py_str operation +:+ "_" +:+ uuid_of sys n +:+ ".png".
Definition processed_path (sys : host) (operation : pyval) (n : nat) : string :=
  path_join UPLOAD_FOLDER (processed_name sys operation n).

(** The [request.files] of an upload under the key [file]. *)
Definition one_file (filename content : string) : list (string * upload) :=
  [("file", {| up_filename := filename; up_content := content |})].

(** Is [p] a regular file that is an entry of the upload folder? *)
Definition is_upload (d : disk) (p : string) : bool :=
  match child_name UPLOAD_FOLDER p, d !! p with
  | Some _, Some (File _) => true
  | _, _ => false
  end.

(** [touches_only path m]: whatever [m] does to the disk, it does at
    [path]. *)
Definition touches_only {A} (path : string) (m : R A) : Prop :=
  forall s p, p <> path -> files (m s).2 !! p = files s !! p.

(** ** Concrete requests *)

(** A 1 x 2 colour image, a world with nothing in it, and three
    operations: two that succeed and a [threshold] whose parameter is not
    one of the method's. *)
Definition sample_image : ndarray := Color [[(10, 20, 30); (200, 100, 50)]].

Definition empty_world : world := {| heap := []; rng := []; invoked := [] |}.

Definition op_negative : operation :=
  {| op_type := VStr "negative"; op_params := [] |}.

Definition op_grayscale : operation :=
  {| op_type := VStr "grayscale"; op_params := [] |}.

Definition op_bad_threshold : operation :=
  {| op_type := VStr "threshold"; op_params := [("value", VInt 127)] |}.

Definition bad_threshold_response : response :=
  {| json := Error ("Error in operation threshold: BasicOperations.threshold() "
                    +:+ "got an unexpected keyword argument 'value'");
     status := 500 |}.

(** A black 100 x 100 colour image. *)
Definition black_100x100 : list (list pixel) :=
  repeat (repeat (0, 0, 0) 100) 100.

(** A black 1 x 2 colour image, and parameters of [inpainting] that
    damage one pixel. *)
Definition black_1x2 : ndarray := Color [[(0, 0, 0); (0, 0, 0)]].

Definition one_damaged_pixel : kwargs :=
  [("mask_radius", VInt 0); ("num_points", VInt 1)].

Definition damaged_left : pyval :=
  VTuple [VArr (Color [[(0, 0, 255); (0, 0, 0); (0, 0, 0); (0, 0, 0)]]);
          VStr (inpainting_description "0" "1")].

Definition damaged_right : pyval :=
  VTuple [VArr (Color [[(0, 0, 0); (0, 0, 255); (0, 0, 0); (0, 0, 0)]]);
          VStr (inpainting_description "0" "1")].

(** The world of a request on [sample_image], before the first stage. *)
Definition sample_world : world := loaded sample_image empty_world.


(** A platform on which [notch_filter] runs to its end: a library
    routine hands back the first array among its arguments (the first
    integer when there is none), [cv2.minMaxLoc] reports a maximum at
    (1, 0), and subtracting [None] is the [TypeError] it is in Python. *)
Fixpoint first_array (args : list pyval) : option ndarray :=
  match args with
  | [] => None
  | VArr a :: _ => Some a
  | _ :: rest => first_array rest
  end.

Definition lab_lib (name : string) (args : list pyval) : outcome pyval :=
  match name, args with
  | "-", [_; VNone] =>
      Raise (TypeError "unsupported operand type(s) for -: 'int' and 'NoneType'")
  | "cv2.minMaxLoc", _ =>
      Ret (VTuple [VFloat "0.0"; VFloat "1.0"; VTuple [VInt 0; VInt 0];
                   VTuple [VInt 1; VInt 0]])
  | _, _ =>
      match first_array args with
      | Some a => Ret (VArr a)
      | None => stand_in_lib name args
      end
  end.

Definition lab : platform :=
  {| lib := lab_lib;
     luma := cv_luma;
     png_base64 := stand_in_codec;
     slot_msg := slot_msg stand_in;
     python_minor := python_minor stand_in |}.

(** The world in which [sample_image] is the only array. *)
Definition single_image_world : world :=
  {| heap := [sample_image]; rng := []; invoked := [] |}.

(** A host to run the routes on: names with a slash are replaced, the
    [n]-th identifier is [n] strokes, the only content that decodes is
    the text [PNG], the empty extension has no encoder, and base64 is
    the identity. *)
Fixpoint tally (n : nat) : string :=
  match n with
  | O => EmptyString
  | S n => String "i" (tally n)
  end.

Definition demo_host : host :=
  {| secure_filename := fun f => if contains "/" f then "file" else f;
     uuid_of := tally;
     imdecode := fun content =>
       if String.eqb content "PNG" then Some sample_image else None;
     encode_base64 := fun ext img =>
       if String.eqb ext ""
       then Raise (cv2_error "could not find encoder for the specified extension")
       else Ret "UE5H";
     b64decode := fun s => Ok s |}.

(** A disk with the upload folder, one upload and one subdirectory in
    it, and two files elsewhere. *)
Definition demo_disk : disk :=
  <["static/uploads" := Directory]>
  (<["static/uploads/old.png" := File "PNG"]>
  (<["static/uploads/keep" := Directory]>
  (<["static/uploads/keep/inner.png" := File "PNG"]>
  (<["/srv" := Directory]>
  (<["/srv/logo.png" := File "PNG"]> ∅))))).

Definition demo_site : site :=
  {| files := demo_disk; issued := 0; memory := empty_world |}.

(** * Properties *)

(** ** The monad *)

Lemma bind_ret_l {A B} (a : A) (k : A -> M B) w : bind (ret a) k w = k a w.
Proof. reflexivity. Qed.

Lemma bind_eq {A B} (m : M A) (k : A -> M B) w :
  bind m k w = match (m w).1 with
               | Ret a => k a (m w).2
               | Raise e => (Raise e, (m w).2)
               end.
Proof. unfold bind. destruct (m w) as [[a|e] w']; reflexivity. Qed.

(** ** What a computation leaves untouched *)

Section Frame.
Variable n : nat.

Lemma frame_ret {A} (a : A) (Q : A -> Prop) : Q a -> frame n (ret a) Q.
Proof. intros HQ w Hn. cbn. repeat split; auto. intros ? [= <-]. exact HQ. Qed.

Lemma frame_raise {A} e (Q : A -> Prop) : frame n (raise e) Q.
Proof. intros w Hn. cbn. repeat split; auto. discriminate. Qed.

Lemma frame_lift {A} (o : outcome A) : frame n (lift o) (fun _ => True).
Proof. intros w Hn. cbn. repeat split; auto. Qed.

Lemma frame_bind {A B} (m : M A) (k : A -> M B) P Q :
  frame n m P -> (forall a, P a -> frame n (k a) Q) -> frame n (bind m k) Q.
Proof.
  intros Hm Hk w Hn. destruct (Hm w Hn) as (H1 & H2 & H3 & H4).
  rewrite bind_eq. destruct (m w) as [[a|e] w'] eqn:E; cbn in *.
  - destruct (Hk a (H4 a eq_refl) w' H1) as (K1 & K2 & K3 & K4).
    repeat split; auto.
    + intros l Hl. rewrite K2, H2; auto.
    + congruence.
  - repeat split; auto. discriminate.
Qed.

Lemma frame_weaken {A} (m : M A) (P Q : A -> Prop) :
  frame n m P -> (forall a, P a -> Q a) -> frame n m Q.
Proof.
  intros Hm HPQ w Hn. destruct (Hm w Hn) as (H1 & H2 & H3 & H4).
  repeat split; auto.
Qed.

Lemma frame_try {A} (m : M A) (h : exn -> M A) Q :
  frame n m Q -> (forall e, frame n (h e) Q) -> frame n (try_except m h) Q.
Proof.
  intros Hm Hh w Hn. destruct (Hm w Hn) as (H1 & H2 & H3 & H4).
  unfold try_except. destruct (m w) as [[a|e] w'] eqn:E; cbn in *.
  - repeat split; auto.
  - destruct (Hh e w' H1) as (K1 & K2 & K3 & K4). repeat split; auto.
    + intros l Hl. rewrite K2, H2; auto.
    + congruence.
Qed.

Lemma frame_new a : frame n (new a) (fun l => (n <= l)%nat).
Proof.
  intros w Hn. cbn. rewrite length_app. cbn. repeat split; auto; try lia.
  - intros l Hl. apply lookup_app_l. lia.
  - intros ? [= <-]. exact Hn.
Qed.

Lemma frame_load l : frame n (load l) (fun _ => True).
Proof.
  intros w Hn. unfold load. destruct (heap w !! l); cbn; repeat split; auto.
Qed.

Lemma frame_store l a : (n <= l)%nat -> frame n (store l a) (fun _ => True).
Proof.
  intros Hl w Hn. cbn. rewrite length_insert. repeat split; auto.
  intros l' Hl'. apply list_lookup_insert_ne. lia.
Qed.

Lemma frame_traverse {A B} (f : A -> M B) (Q : B -> Prop) (l : list A) :
  (forall x, frame n (f x) Q) -> frame n (traverse f l) (Forall Q).
Proof.
  intros Hf. induction l as [|x xs IH]; cbn.
  - apply frame_ret. constructor.
  - eapply frame_bind; [apply Hf|]. intros y Hy.
    eapply frame_bind; [apply IH|]. intros ys Hys.
    apply frame_ret. constructor; auto.
Qed.

Lemma frame_for_each {A} (l : list A) (body : A -> M unit) :
  (forall x, frame n (body x) (fun _ => True)) ->
  frame n (for_each l body) (fun _ => True).
Proof.
  intros Hb. induction l as [|x xs IH]; cbn.
  - apply frame_ret. exact I.
  - eapply frame_bind; [apply Hb|]. intros _ _. apply IH.
Qed.

Lemma fresh_all vs :
  (fix all (l : list pyval) : Prop :=
     match l with
     | [] => True
     | x :: xs => fresh n x /\ all xs
     end) vs <-> Forall (fresh n) vs.
Proof.
  induction vs as [|x xs IH]; cbn.
  - split; auto.
  - rewrite IH. split.
    + intros [? ?]. constructor; auto.
    + intros H. inversion H; auto.
Qed.

Lemma fresh_VList vs : fresh n (VList vs) <-> Forall (fresh n) vs.
Proof. apply fresh_all. Qed.
Lemma fresh_VTuple vs : fresh n (VTuple vs) <-> Forall (fresh n) vs.
Proof. apply fresh_all. Qed.

(** A value without references is fresh. *)
Lemma no_ref_fresh : forall v, has_ref v = false -> fresh n v.
Proof.
  fix IH 1. intros v. destruct v as [| | | | |vs|vs| |l]; cbn; auto; try discriminate.
  - induction vs as [|x xs IHxs]; [auto|].
    intros H. apply orb_false_elim in H as [Hx Hxs]. split; [apply IH, Hx | apply IHxs, Hxs].
  - induction vs as [|x xs IHxs]; [auto|].
    intros H. apply orb_false_elim in H as [Hx Hxs]. split; [apply IH, Hx | apply IHxs, Hxs].
Qed.

Lemma frame_unbox1 v : frame n (unbox1 v) (fun _ => True).
Proof.
  destruct v; cbn; try (apply frame_ret; exact I).
  eapply frame_bind; [apply frame_load|]. intros; apply frame_ret; exact I.
Qed.

Lemma frame_unbox v : frame n (unbox v) (fun _ => True).
Proof.
  destruct v; cbn; try (apply frame_ret; exact I).
  - eapply frame_bind; [apply (frame_traverse _ (fun _ => True)), frame_unbox1|].
    intros; apply frame_ret; exact I.
  - eapply frame_bind; [apply (frame_traverse _ (fun _ => True)), frame_unbox1|].
    intros; apply frame_ret; exact I.
  - eapply frame_bind; [apply frame_load|]. intros; apply frame_ret; exact I.
Qed.

Lemma frame_box1 v : fresh n v -> frame n (box1 v) (fresh n).
Proof.
  intros Hv. destruct v; cbn; try (apply frame_ret; exact Hv).
  eapply frame_bind; [apply frame_new|]. intros l Hl. apply frame_ret. exact Hl.
Qed.

Lemma frame_box v : fresh n v -> frame n (box v) (fresh n).
Proof.
  intros Hv. destruct v; try (apply frame_box1; exact Hv).
  - cbn [box]. apply fresh_VList in Hv.
    eapply frame_bind.
    + instantiate (1 := Forall (fresh n)).
      induction Hv; cbn.
      * apply frame_ret. constructor.
      * eapply frame_bind; [apply frame_box1; assumption|]. intros y Hy.
        eapply frame_bind; [apply IHHv|]. intros ys Hys.
        apply frame_ret. constructor; auto.
    + intros vs' Hvs'. apply frame_ret. apply fresh_VList. exact Hvs'.
  - cbn [box]. apply fresh_VTuple in Hv.
    eapply frame_bind.
    + instantiate (1 := Forall (fresh n)).
      induction Hv; cbn.
      * apply frame_ret. constructor.
      * eapply frame_bind; [apply frame_box1; assumption|]. intros y Hy.
        eapply frame_bind; [apply IHHv|]. intros ys Hys.
        apply frame_ret. constructor; auto.
    + intros vs' Hvs'. apply frame_ret. apply fresh_VTuple. exact Hvs'.
Qed.

Lemma frame_array_of v : frame n (array_of v) (fun _ => True).
Proof.
  destruct v; cbn; try apply frame_raise.
  - apply frame_ret; exact I.
  - apply frame_load.
Qed.

Section WithEnv.
Variable env : platform.

Lemma frame_call name args : frame n (call env name args) (fresh n).
Proof.
  unfold call.
  eapply frame_bind; [apply (frame_traverse _ (fun _ => True)), frame_unbox|].
  intros args' _. eapply frame_bind; [apply frame_lift|]. intros v _.
  destruct (has_ref v) eqn:E; [apply frame_raise|].
  apply frame_box, no_ref_fresh, E.
Qed.

Lemma frame_call_inplace name target args :
  fresh n target -> frame n (call_inplace env name target args) (fresh n).
Proof.
  intros Ht. unfold call_inplace. destruct target; try apply frame_raise.
  eapply frame_bind; [apply (frame_traverse _ (fun _ => True)), frame_unbox|].
  intros args' _. eapply frame_bind; [apply frame_lift|]. intros v _.
  destruct v; try apply frame_raise.
  eapply frame_bind; [apply frame_store, Ht|]. intros _ _. apply frame_ret, Ht.
Qed.

Create HintDb frame discriminated.
Hint Constants Opaque : frame.

Hint Resolve frame_load frame_new frame_store frame_lift frame_unbox
  frame_array_of frame_call frame_call_inplace : frame.

(** Unfolding what is tracked, in the goal and in the hypotheses. *)
Ltac frame_norm :=
  repeat match goal with
  | H : tracked _ _ |- _ =>
      repeat (progress unfold tracked, tracked_pyval, tracked_loc, tracked_list,
                tracked_prod, tracked_other in H);
      cbn [fresh fst snd] in H
  | H : fresh _ (VRef _) |- _ => cbn [fresh] in H
  | H : _ /\ _ |- _ => destruct H
  | H : True |- _ => clear H
  | H : Forall _ (_ :: _) |- _ => apply Forall_cons in H
  end.

Ltac frame_post :=
  try assumption;
  repeat (progress unfold tracked, tracked_pyval, tracked_loc, tracked_list,
            tracked_prod, tracked_other);
  try assumption;
  cbn [fresh fst snd]; frame_norm;
  repeat match goal with
  | |- _ /\ _ => split
  | |- True => exact I
  | |- Forall _ [] => constructor
  | |- Forall _ (_ :: _) => constructor
  end; auto.

Hint Extern 2 (fresh _ _) => solve [frame_post] : frame.

(** One statement at a time: a bound computation is first tried with all
    of its result tracked, then with the first component of a pair
    tracked, then with nothing tracked. *)
Ltac frame_tac :=
  lazymatch goal with
  | |- frame _ (bind _ _) _ =>
      first [ eapply (frame_bind _ _ (tracked n)); [ solve [frame_tac] | ]
            | eapply (frame_bind _ _ (fun p => tracked n p.1)); [ solve [frame_tac] | ]
            | eapply (frame_bind _ _ (fun _ => True)); [ solve [frame_tac] | ] ];
      intros ? ?; frame_norm; frame_tac
  | |- frame _ (ret _) _ => apply frame_ret; solve [frame_post]
  | |- frame _ (raise _) _ => apply frame_raise
  | |- frame _ (let _ := _ in _) _ => cbv zeta; frame_tac
  | |- frame _ (if ?b then _ else _) _ => destruct b; frame_tac
  | |- frame _ (traverse _ _) _ =>
      first [ eapply frame_weaken;
                [ apply (frame_traverse _ (tracked n)); intros ?; solve [frame_tac] | intros ? ?; solve [frame_post] ]
            | eapply frame_weaken;
                [ apply (frame_traverse _ (fun _ => True)); intros ?; solve [frame_tac] | intros ? ?; solve [frame_post] ] ]
  | |- frame _ (for_each _ _) _ =>
      eapply frame_weaken;
        [ apply frame_for_each; intros ?; solve [frame_tac] | intros ? ?; solve [frame_post] ]
  | |- frame _ _ _ =>
      first [ solve [eauto with frame]
            | eapply frame_weaken;
                [ solve [eauto with frame] | intros ? ?; solve [frame_post] ] ]
  end.

Lemma frame_py_truth v : frame n (py_truth env v) (fun _ => True).
Proof. destruct v; cbn [py_truth]; try frame_tac.
  all: eapply frame_bind; [apply frame_call|]; intros r _; destruct r; frame_tac.
Qed.
Hint Resolve frame_py_truth : frame.

Lemma frame_py_op op a b : frame n (py_op env op a b) (fresh n).
Proof.
  unfold py_op. destruct (as_int a), (as_int b); try frame_tac.
  destruct op; try frame_tac.
Qed.
Hint Resolve frame_py_op : frame.

Lemma frame_py_neg a : frame n (py_neg env a) (fresh n).
Proof. unfold py_neg. destruct (as_int a); frame_tac. Qed.
Hint Resolve frame_py_neg : frame.

Lemma frame_py_test op a b : frame n (py_test env op a b) (fun _ => True).
Proof. unfold py_test. frame_tac. Qed.
Hint Resolve frame_py_test : frame.

Lemma frame_is_even k : frame n (is_even env k) (fun _ => True).
Proof. unfold is_even. frame_tac. Qed.
Hint Resolve frame_is_even : frame.

Lemma frame_shape_of v : frame n (shape_of v) (fun _ => True).
Proof. unfold shape_of. frame_tac. Qed.
Hint Resolve frame_shape_of : frame.

Lemma frame_np_copy v : frame n (np_copy v) (fresh n).
Proof. unfold np_copy. frame_tac. Qed.
Hint Resolve frame_np_copy : frame.

(** Computations that only inspect their arguments. *)
Lemma frame_pure {A} (m : M A) (o : outcome A) (Q : A -> Prop) :
  (forall w, m w = (o, w)) -> (forall a, o = Ret a -> Q a) -> frame n m Q.
Proof.
  intros Hm HQ w Hn. rewrite Hm. cbn. repeat split; auto.
Qed.

Ltac frame_pure_tac :=
  repeat case_match;
  first [ eapply (frame_pure _ (Ret _)); [ reflexivity | intros ? [= <-]; frame_post ]
        | eapply (frame_pure _ (Raise _)); [ reflexivity | discriminate ] ].

Lemma Forall_fresh_two a b : Forall (fresh n) [a; b] -> fresh n a /\ fresh n b.
Proof. intros H. inversion H as [|? ? ? H2]. inversion H2. auto. Qed.

Lemma frame_unpack2 v : frame n (unpack2 v) (fun _ => True).
Proof. unfold unpack2. frame_pure_tac. Qed.
Lemma frame_unpack2_fresh v : fresh n v -> frame n (unpack2 v) (tracked n).
Proof.
  intros Hv. unfold unpack2. repeat case_match; subst; cbn [fresh] in Hv;
    first [ eapply (frame_pure _ (Ret _)); [ reflexivity | intros ? [= <-]; frame_post ]
          | eapply (frame_pure _ (Raise _)); [ reflexivity | discriminate ] ].
Qed.
Lemma frame_unpack3 v : frame n (unpack3 v) (fun _ => True).
Proof. unfold unpack3. frame_pure_tac. Qed.
Lemma frame_unpack3_fresh v : fresh n v -> frame n (unpack3 v) (tracked n).
Proof.
  intros Hv. unfold unpack3. repeat case_match; subst; cbn [fresh] in Hv;
    first [ eapply (frame_pure _ (Ret _)); [ reflexivity | intros ? [= <-]; frame_post ]
          | eapply (frame_pure _ (Raise _)); [ reflexivity | discriminate ] ].
Qed.
Lemma frame_unpack4 v : frame n (unpack4 v) (fun _ => True).
Proof. unfold unpack4. frame_pure_tac. Qed.
Lemma frame_unpack_shape2 shape : frame n (unpack_shape2 shape) (fun _ => True).
Proof. unfold unpack_shape2. frame_pure_tac. Qed.
Lemma frame_shape_at shape i : frame n (shape_at shape i) (fun _ => True).
Proof. unfold shape_at. frame_pure_tac. Qed.
Lemma frame_py_len v : frame n (py_len v) (fun _ => True).
Proof. unfold py_len. frame_pure_tac. Qed.
Lemma frame_py_range lo hi : frame n (py_range lo hi) (fun _ => True).
Proof. unfold py_range. frame_pure_tac. Qed.
Lemma frame_py_lower v : frame n (py_lower v) (fun _ => True).
Proof. unfold py_lower. frame_pure_tac. Qed.
Lemma frame_check_kwargs q formals params :
  frame n (check_kwargs q formals params) (fun _ => True).
Proof. unfold check_kwargs. frame_pure_tac. Qed.
Hint Resolve frame_unpack2 frame_unpack3 frame_unpack4 frame_unpack_shape2
  frame_shape_at frame_py_len frame_py_range frame_py_lower frame_check_kwargs
  frame_unpack2_fresh frame_unpack3_fresh : frame.

Lemma frame_centre_of shape : frame n (centre_of shape) (fun _ => True).
Proof. unfold centre_of. frame_tac. Qed.
Hint Resolve frame_centre_of : frame.

Lemma frame_py_iter v : frame n (py_iter env v) (fun _ => True).
Proof.
  unfold py_iter. destruct v; try frame_tac.
  all: eapply frame_bind; [apply frame_call|]; intros r _; destruct r; frame_tac.
Qed.
Lemma frame_py_iter_fresh v : fresh n v -> frame n (py_iter env v) (tracked n).
Proof.
  intros Hv. unfold py_iter.
  destruct v as [| | | |s|vs|vs|a|l]; try apply frame_raise.
  - apply frame_ret. induction (list_ascii_of_string s); constructor; auto; exact I.
  - apply frame_ret. apply fresh_VList in Hv. exact Hv.
  - apply frame_ret. apply fresh_VTuple in Hv. exact Hv.
  - eapply frame_bind; [apply frame_call|]; intros r Hr; destruct r; try apply frame_raise.
    + apply frame_ret. apply fresh_VList in Hr. exact Hr.
    + apply frame_ret. apply fresh_VTuple in Hr. exact Hr.
  - eapply frame_bind; [apply frame_call|]; intros r Hr; destruct r; try apply frame_raise.
    + apply frame_ret. apply fresh_VList in Hr. exact Hr.
    + apply frame_ret. apply fresh_VTuple in Hr. exact Hr.
Qed.
Hint Resolve frame_py_iter frame_py_iter_fresh : frame.

Lemma frame_threshold_types_get v : frame n (threshold_types_get env v) (fun _ => True).
Proof. unfold threshold_types_get. destruct v; frame_tac. Qed.
Hint Resolve frame_threshold_types_get : frame.

Lemma frame_np_rsub c v : frame n (np_rsub env c v) (fresh n).
Proof.
  unfold np_rsub. eapply frame_bind; [apply frame_array_of|]. intros a _.
  destruct a; frame_tac.
Qed.

Lemma frame_np_full_u8 name fill shape : frame n (np_full_u8 env name fill shape) (fresh n).
Proof.
  unfold np_full_u8. destruct shape as [|h [|w [|? ?]]]; frame_tac.
Qed.
Lemma frame_np_zeros_u8 shape : frame n (np_zeros_u8 env shape) (fresh n).
Proof. apply frame_np_full_u8. Qed.
Lemma frame_np_ones_u8 shape : frame n (np_ones_u8 env shape) (fresh n).
Proof. apply frame_np_full_u8. Qed.
Hint Resolve frame_np_rsub frame_np_zeros_u8 frame_np_ones_u8 : frame.

Lemma frame_setitem_where dst mask key value :
  fresh n dst -> frame n (setitem_where env dst mask key value) (fun _ => True).
Proof.
  intros Hd. unfold setitem_where.
  eapply frame_bind; [apply frame_array_of|]. intros d _.
  eapply frame_bind; [apply frame_array_of|]. intros m _.
  cbv zeta. repeat case_match; subst; frame_tac.
Qed.
Hint Resolve frame_setitem_where : frame.

Lemma frame_np_hstack images : frame n (np_hstack env images) (fresh n).
Proof.
  unfold np_hstack.
  eapply frame_bind; [apply (frame_traverse _ (fun _ => True)), frame_array_of|].
  intros arrs _. repeat case_match; frame_tac.
Qed.
Hint Resolve frame_np_hstack : frame.

Lemma frame_cvtColor src code : frame n (cvtColor env src code) (fresh n).
Proof.
  unfold cvtColor. eapply frame_bind; [apply frame_array_of|]. intros a _.
  repeat case_match; frame_tac.
Qed.
Hint Resolve frame_cvtColor : frame.

Lemma frame_cv_threshold src thresh maxval type :
  frame n (cv_threshold env src thresh maxval type) (fresh n).
Proof.
  unfold cv_threshold. eapply frame_bind; [apply frame_array_of|]. intros a _.
  repeat case_match; frame_tac.
Qed.
Hint Resolve frame_cv_threshold : frame.

Lemma frame_cv_circle img cx cy radius color :
  fresh n img -> frame n (cv_circle env img cx cy radius color) (fresh n).
Proof.
  intros Hi. unfold cv_circle. eapply frame_bind; [apply frame_array_of|]. intros a _.
  repeat case_match; subst; frame_tac.
Qed.
Hint Resolve frame_cv_circle : frame.

Lemma frame_np_max v : frame n (np_max env v) (fresh n).
Proof.
  unfold np_max. eapply frame_bind; [apply frame_array_of|]. intros a _.
  repeat case_match; frame_tac.
Qed.
Hint Resolve frame_np_max : frame.

Lemma frame_draw : frame n draw (fun _ => True).
Proof.
  intros w Hn. unfold draw. destruct (rng w); cbn; repeat split; auto.
Qed.
Hint Resolve frame_draw : frame.

Lemma frame_randint low high : frame n (randint env low high) (fresh n).
Proof. unfold randint. repeat case_match; frame_tac. Qed.
Lemma frame_call_random name args : frame n (call_random env name args) (fresh n).
Proof. unfold call_random. frame_tac. Qed.
Hint Resolve frame_randint frame_call_random : frame.

(** *** The shared fragments *)

Lemma frame_to_gray image : frame n (to_gray env image) (fresh n).
Proof. unfold to_gray. frame_tac. Qed.
Lemma frame_to_gray_ndim3 image : frame n (to_gray_ndim3 env image) (fresh n).
Proof. unfold to_gray_ndim3. frame_tac. Qed.
Lemma frame_ensure_odd k : frame n (ensure_odd env k) (fun _ => True).
Proof. unfold ensure_odd. frame_tac. Qed.
Hint Resolve frame_to_gray frame_to_gray_ndim3 frame_ensure_odd : frame.

Lemma frame_magnitude_of a : frame n (magnitude_of env a) (fresh n).
Proof. unfold magnitude_of. frame_tac. Qed.
Hint Resolve frame_magnitude_of : frame.
Lemma frame_log_magnitude a : frame n (log_magnitude env a) (fresh n).
Proof. unfold log_magnitude. frame_tac. Qed.
Lemma frame_shifted_dft gray : frame n (shifted_dft env gray) (tracked n).
Proof. unfold shifted_dft. frame_tac. Qed.
Lemma frame_masked_inverse d m r c : frame n (masked_inverse env d m r c) (fresh n).
Proof. unfold masked_inverse. frame_tac. Qed.
Lemma frame_get_kernel s k : frame n (get_kernel env s k) (fresh n).
Proof. unfold get_kernel. frame_tac. Qed.
Lemma frame_random_color : frame n (random_color env) (fresh n).
Proof. unfold random_color. frame_tac. Qed.
Hint Resolve frame_log_magnitude frame_shifted_dft frame_masked_inverse
  frame_get_kernel frame_random_color : frame.

Lemma frame_retinex_channel f s d ch :
  frame n (retinex_channel env f s d ch) (fresh n).
Proof. unfold retinex_channel. frame_tac. Qed.
Lemma frame_channel_image image cs ic :
  frame n (channel_image env image cs ic) (tracked n).
Proof. unfold channel_image. frame_tac. Qed.
Lemma frame_damage_point mask r h w :
  fresh n mask -> frame n (damage_point env mask r h w) (fun _ => True).
Proof. intros Hm. unfold damage_point. frame_tac. Qed.
Hint Resolve frame_retinex_channel frame_channel_image frame_damage_point : frame.

(** *** The transforms *)

Lemma frame_grayscale image params : frame n (grayscale env image params) (fresh n).
Proof. unfold grayscale. frame_tac. Qed.
Lemma frame_negative image params : frame n (negative env image params) (fresh n).
Proof. unfold negative. frame_tac. Qed.
Lemma frame_threshold image params : frame n (threshold env image params) (fresh n).
Proof. unfold threshold. frame_tac. Qed.
Lemma frame_adjust_brightness image params : frame n (adjust_brightness env image params) (fresh n).
Proof. unfold adjust_brightness. frame_tac. Qed.
Lemma frame_adjust_contrast image params : frame n (adjust_contrast env image params) (fresh n).
Proof. unfold adjust_contrast. frame_tac. Qed.
Lemma frame_gaussian_blur image params : frame n (gaussian_blur env image params) (fresh n).
Proof. unfold gaussian_blur. frame_tac. Qed.
Lemma frame_median_blur image params : frame n (median_blur env image params) (fresh n).
Proof. unfold median_blur. frame_tac. Qed.
Lemma frame_bilateral_filter image params : frame n (bilateral_filter env image params) (fresh n).
Proof. unfold bilateral_filter. frame_tac. Qed.
Lemma frame_histogram_equalization image params : frame n (histogram_equalization env image params) (fresh n).
Proof. unfold histogram_equalization. frame_tac. Qed.
Lemma frame_sharpen image params : frame n (sharpen env image params) (fresh n).
Proof. unfold sharpen. frame_tac. Qed.
Lemma frame_retinex image params : frame n (retinex env image params) (fresh n).
Proof. unfold retinex. frame_tac. Qed.
Lemma frame_clahe image params : frame n (clahe env image params) (fresh n).
Proof. unfold clahe. frame_tac. Qed.
Lemma frame_fourier_transform image params : frame n (fourier_transform env image params) (fresh n).
Proof. unfold fourier_transform. frame_tac. Qed.
Lemma frame_frequency_filter image params : frame n (frequency_filter env image params) (fresh n).
Proof. unfold frequency_filter. frame_tac. Qed.
Lemma frame_erosion image params : frame n (erosion env image params) (fresh n).
Proof. unfold erosion. frame_tac. Qed.
Lemma frame_dilation image params : frame n (dilation env image params) (fresh n).
Proof. unfold dilation. frame_tac. Qed.
Lemma frame_opening image params : frame n (opening env image params) (fresh n).
Proof. unfold opening. frame_tac. Qed.
Lemma frame_closing image params : frame n (closing env image params) (fresh n).
Proof. unfold closing. frame_tac. Qed.
Lemma frame_gradient image params : frame n (gradient env image params) (fresh n).
Proof. unfold gradient. frame_tac. Qed.
Lemma frame_top_hat image params : frame n (top_hat env image params) (fresh n).
Proof. unfold top_hat. frame_tac. Qed.
Lemma frame_black_hat image params : frame n (black_hat env image params) (fresh n).
Proof. unfold black_hat. frame_tac. Qed.
Lemma frame_canny_edge image params : frame n (canny_edge env image params) (fresh n).
Proof. unfold canny_edge. frame_tac. Qed.
Lemma frame_sobel_edge image params : frame n (sobel_edge env image params) (fresh n).
Proof. unfold sobel_edge. frame_tac. Qed.
Lemma frame_watershed image params : frame n (watershed env image params) (fresh n).
Proof. unfold watershed. frame_tac. Qed.
Lemma frame_contour_detection image params : frame n (contour_detection env image params) (fresh n).
Proof. unfold contour_detection. frame_tac. Qed.
Lemma frame_orb_keypoints image params : frame n (orb_keypoints env image params) (fresh n).
Proof. unfold orb_keypoints. frame_tac. Qed.
Lemma frame_rgb_to_hsv image params : frame n (rgb_to_hsv env image params) (fresh n).
Proof. unfold rgb_to_hsv. frame_tac. Qed.
Lemma frame_rgb_to_lab image params : frame n (rgb_to_lab env image params) (fresh n).
Proof. unfold rgb_to_lab. frame_tac. Qed.
Lemma frame_rgb_to_ycrcb image params : frame n (rgb_to_ycrcb env image params) (fresh n).
Proof. unfold rgb_to_ycrcb. frame_tac. Qed.
Lemma frame_channel_separation image params : frame n (channel_separation env image params) (fresh n).
Proof. unfold channel_separation. frame_tac. Qed.
Lemma frame_color_quantization image params : frame n (color_quantization env image params) (fresh n).
Proof. unfold color_quantization. frame_tac. Qed.
Lemma frame_visualize_spectrum image params : frame n (visualize_spectrum env image params) (fresh n).
Proof. unfold visualize_spectrum. frame_tac. Qed.
Lemma frame_bandpass_filter image params : frame n (bandpass_filter env image params) (fresh n).
Proof. unfold bandpass_filter. frame_tac. Qed.
Lemma frame_notch_filter image params : frame n (notch_filter env image params) (fresh n).
Proof. unfold notch_filter. frame_tac. Qed.
Lemma frame_add_degradation image params : frame n (add_degradation env image params) (fresh n).
Proof. unfold add_degradation. frame_tac. Qed.
Lemma frame_wiener_deconvolution image params : frame n (wiener_deconvolution env image params) (fresh n).
Proof. unfold wiener_deconvolution. frame_tac. Qed.
Lemma frame_inpainting image params : frame n (inpainting env image params) (fresh n).
Proof. unfold inpainting. frame_tac. Qed.

End WithEnv.
End Frame.

(** ** Independence from the random generators *)

Lemma rng_free_pure {A} (m : M A) (o : outcome A) :
  (forall w, m w = (o, w)) -> rng_free m.
Proof. intros Hm w t. rewrite !Hm. reflexivity. Qed.

Lemma rng_free_ret {A} (a : A) : rng_free (ret a).
Proof. intros w t. reflexivity. Qed.
Lemma rng_free_raise {A} e : rng_free (@raise A e).
Proof. intros w t. reflexivity. Qed.
Lemma rng_free_lift {A} (o : outcome A) : rng_free (lift o).
Proof. intros w t. reflexivity. Qed.

Lemma rng_free_bind {A B} (m : M A) (k : A -> M B) :
  rng_free m -> (forall a, rng_free (k a)) -> rng_free (bind m k).
Proof.
  intros Hm Hk w t. unfold bind. rewrite Hm.
  destruct (m w) as [[a|e] w']; cbn; [apply Hk | reflexivity].
Qed.

Lemma rng_free_new a : rng_free (new a).
Proof. intros w t. reflexivity. Qed.
Lemma rng_free_load l : rng_free (load l).
Proof. intros w t. unfold load. cbn. destruct (heap w !! l); reflexivity. Qed.
Lemma rng_free_store l a : rng_free (store l a).
Proof. intros w t. reflexivity. Qed.

Lemma rng_free_traverse {A B} (f : A -> M B) (l : list A) :
  (forall x, rng_free (f x)) -> rng_free (traverse f l).
Proof.
  intros Hf. induction l as [|x xs IH]; cbn.
  - apply rng_free_ret.
  - apply rng_free_bind; [apply Hf|]. intros y.
    apply rng_free_bind; [apply IH|]. intros ys. apply rng_free_ret.
Qed.

Lemma rng_free_for_each {A} (l : list A) (body : A -> M unit) :
  (forall x, rng_free (body x)) -> rng_free (for_each l body).
Proof.
  intros Hb. induction l as [|x xs IH]; cbn.
  - apply rng_free_ret.
  - apply rng_free_bind; [apply Hb|]. intros _. apply IH.
Qed.

Create HintDb rngfree discriminated.
Hint Constants Opaque : rngfree.
Hint Resolve rng_free_ret rng_free_raise rng_free_lift rng_free_new
  rng_free_load rng_free_store : rngfree.

Ltac rng_tac :=
  lazymatch goal with
  | |- rng_free (bind _ _) => apply rng_free_bind; [ rng_tac | intros ?; rng_tac ]
  | |- rng_free (let _ := _ in _) => cbv zeta; rng_tac
  | |- rng_free (if ?b then _ else _) => destruct b; rng_tac
  | |- rng_free (match ?x with _ => _ end) => destruct x; rng_tac
  | |- rng_free (traverse _ _) => apply rng_free_traverse; intros ?; rng_tac
  | |- rng_free (for_each _ _) => apply rng_free_for_each; intros ?; rng_tac
  | |- rng_free _ => solve [eauto with rngfree]
  end.

Ltac rng_pure_tac :=
  repeat case_match;
  first [ eapply (rng_free_pure _ (Ret _)); reflexivity
        | eapply (rng_free_pure _ (Raise _)); reflexivity ].

Lemma rng_free_unbox1 v : rng_free (unbox1 v).
Proof. unfold unbox1. rng_tac. Qed.
Hint Resolve rng_free_unbox1 : rngfree.
Lemma rng_free_unbox v : rng_free (unbox v).
Proof. unfold unbox. rng_tac. Qed.
Lemma rng_free_box1 v : rng_free (box1 v).
Proof. unfold box1. rng_tac. Qed.
Hint Resolve rng_free_box1 : rngfree.
Lemma rng_free_box v : rng_free (box v).
Proof. unfold box. rng_tac. Qed.
Lemma rng_free_array_of v : rng_free (array_of v).
Proof. unfold array_of. rng_tac. Qed.
Hint Resolve rng_free_unbox rng_free_box rng_free_array_of : rngfree.

Lemma rng_free_unpack2 v : rng_free (unpack2 v).
Proof. unfold unpack2. rng_pure_tac. Qed.
Lemma rng_free_unpack3 v : rng_free (unpack3 v).
Proof. unfold unpack3. rng_pure_tac. Qed.
Lemma rng_free_unpack4 v : rng_free (unpack4 v).
Proof. unfold unpack4. rng_pure_tac. Qed.
Lemma rng_free_unpack_shape2 s : rng_free (unpack_shape2 s).
Proof. unfold unpack_shape2. rng_pure_tac. Qed.
Lemma rng_free_shape_at s i : rng_free (shape_at s i).
Proof. unfold shape_at. rng_pure_tac. Qed.
Lemma rng_free_py_len v : rng_free (py_len v).
Proof. unfold py_len. rng_pure_tac. Qed.
Lemma rng_free_py_range lo hi : rng_free (py_range lo hi).
Proof. unfold py_range. rng_pure_tac. Qed.
Lemma rng_free_py_lower v : rng_free (py_lower v).
Proof. unfold py_lower. rng_pure_tac. Qed.
Lemma rng_free_check_kwargs q f p : rng_free (check_kwargs q f p).
Proof. unfold check_kwargs. rng_pure_tac. Qed.
Hint Resolve rng_free_unpack2 rng_free_unpack3 rng_free_unpack4
  rng_free_unpack_shape2 rng_free_shape_at rng_free_py_len rng_free_py_range
  rng_free_py_lower rng_free_check_kwargs : rngfree.

Section RngFree.
Variable env : platform.

Lemma rng_free_call name args : rng_free (call env name args).
Proof. unfold call. rng_tac. Qed.
Hint Resolve rng_free_call : rngfree.
Lemma rng_free_call_inplace name target args :
  rng_free (call_inplace env name target args).
Proof. unfold call_inplace. rng_tac. Qed.
Hint Resolve rng_free_call_inplace : rngfree.

Ltac rng_unfold f := unfold f; repeat case_match; rng_tac.

Lemma rng_free_py_truth v : rng_free (py_truth env v).
Proof. rng_unfold py_truth. Qed.
Hint Resolve rng_free_py_truth : rngfree.
Lemma rng_free_py_op op a b : rng_free (py_op env op a b).
Proof. rng_unfold py_op. Qed.
Lemma rng_free_py_neg a : rng_free (py_neg env a).
Proof. rng_unfold py_neg. Qed.
Hint Resolve rng_free_py_op rng_free_py_neg : rngfree.
Lemma rng_free_py_test op a b : rng_free (py_test env op a b).
Proof. rng_unfold py_test. Qed.
Hint Resolve rng_free_py_test : rngfree.
Lemma rng_free_is_even k : rng_free (is_even env k).
Proof. rng_unfold is_even. Qed.
Lemma rng_free_shape_of v : rng_free (shape_of v).
Proof. rng_unfold shape_of. Qed.
Lemma rng_free_np_copy v : rng_free (np_copy v).
Proof. rng_unfold np_copy. Qed.
Hint Resolve rng_free_is_even rng_free_shape_of rng_free_np_copy : rngfree.
Lemma rng_free_centre_of s : rng_free (centre_of s).
Proof. rng_unfold centre_of. Qed.
Lemma rng_free_py_iter v : rng_free (py_iter env v).
Proof. rng_unfold py_iter. Qed.
Lemma rng_free_threshold_types_get v : rng_free (threshold_types_get env v).
Proof. rng_unfold threshold_types_get. Qed.
Lemma rng_free_np_rsub c v : rng_free (np_rsub env c v).
Proof. rng_unfold np_rsub. Qed.
Lemma rng_free_np_full_u8 name fill shape : rng_free (np_full_u8 env name fill shape).
Proof. rng_unfold np_full_u8. Qed.
Lemma rng_free_np_zeros_u8 shape : rng_free (np_zeros_u8 env shape).
Proof. apply rng_free_np_full_u8. Qed.
Lemma rng_free_np_ones_u8 shape : rng_free (np_ones_u8 env shape).
Proof. apply rng_free_np_full_u8. Qed.
Hint Resolve rng_free_centre_of rng_free_py_iter rng_free_threshold_types_get
  rng_free_np_rsub rng_free_np_zeros_u8 rng_free_np_ones_u8 : rngfree.
Lemma rng_free_setitem_where dst mask key value :
  rng_free (setitem_where env dst mask key value).
Proof.
  unfold setitem_where. apply rng_free_bind; [rng_tac|]. intros d.
  apply rng_free_bind; [rng_tac|]. intros m. cbv zeta.
  repeat case_match; rng_tac.
Qed.
Lemma rng_free_np_hstack images : rng_free (np_hstack env images).
Proof.
  unfold np_hstack. apply rng_free_bind; [rng_tac|]. intros arrs.
  repeat case_match; rng_tac.
Qed.
Lemma rng_free_cvtColor src code : rng_free (cvtColor env src code).
Proof.
  unfold cvtColor. apply rng_free_bind; [rng_tac|]. intros a.
  repeat case_match; rng_tac.
Qed.
Lemma rng_free_cv_threshold src thresh maxval type :
  rng_free (cv_threshold env src thresh maxval type).
Proof.
  unfold cv_threshold. apply rng_free_bind; [rng_tac|]. intros a.
  repeat case_match; rng_tac.
Qed.
Lemma rng_free_cv_circle img cx cy radius color :
  rng_free (cv_circle env img cx cy radius color).
Proof.
  unfold cv_circle. apply rng_free_bind; [rng_tac|]. intros a.
  repeat case_match; rng_tac.
Qed.
Lemma rng_free_np_max v : rng_free (np_max env v).
Proof.
  unfold np_max. apply rng_free_bind; [rng_tac|]. intros a.
  repeat case_match; rng_tac.
Qed.
Hint Resolve rng_free_setitem_where rng_free_np_hstack rng_free_cvtColor
  rng_free_cv_threshold rng_free_cv_circle rng_free_np_max : rngfree.

Lemma rng_free_to_gray image : rng_free (to_gray env image).
Proof. rng_unfold to_gray. Qed.
Lemma rng_free_to_gray_ndim3 image : rng_free (to_gray_ndim3 env image).
Proof. rng_unfold to_gray_ndim3. Qed.
Lemma rng_free_ensure_odd k : rng_free (ensure_odd env k).
Proof. rng_unfold ensure_odd. Qed.
Lemma rng_free_magnitude_of a : rng_free (magnitude_of env a).
Proof. rng_unfold magnitude_of. Qed.
Hint Resolve rng_free_to_gray rng_free_to_gray_ndim3 rng_free_ensure_odd
  rng_free_magnitude_of : rngfree.
Lemma rng_free_log_magnitude a : rng_free (log_magnitude env a).
Proof. rng_unfold log_magnitude. Qed.
Lemma rng_free_shifted_dft gray : rng_free (shifted_dft env gray).
Proof. rng_unfold shifted_dft. Qed.
Lemma rng_free_masked_inverse d m r c : rng_free (masked_inverse env d m r c).
Proof. rng_unfold masked_inverse. Qed.
Lemma rng_free_get_kernel s k : rng_free (get_kernel env s k).
Proof. rng_unfold get_kernel. Qed.
Lemma rng_free_retinex_channel f s d ch : rng_free (retinex_channel env f s d ch).
Proof. rng_unfold retinex_channel. Qed.
Lemma rng_free_channel_image image cs ic : rng_free (channel_image env image cs ic).
Proof. rng_unfold channel_image. Qed.
Hint Resolve rng_free_log_magnitude rng_free_shifted_dft rng_free_masked_inverse
  rng_free_get_kernel rng_free_retinex_channel rng_free_channel_image : rngfree.

Lemma rng_free_grayscale image params : rng_free (grayscale env image params).
Proof. unfold grayscale. rng_tac. Qed.
Lemma rng_free_negative image params : rng_free (negative env image params).
Proof. unfold negative. rng_tac. Qed.
Lemma rng_free_threshold image params : rng_free (threshold env image params).
Proof. unfold threshold. rng_tac. Qed.
Lemma rng_free_adjust_brightness image params : rng_free (adjust_brightness env image params).
Proof. unfold adjust_brightness. rng_tac. Qed.
Lemma rng_free_adjust_contrast image params : rng_free (adjust_contrast env image params).
Proof. unfold adjust_contrast. rng_tac. Qed.
Lemma rng_free_gaussian_blur image params : rng_free (gaussian_blur env image params).
Proof. unfold gaussian_blur. rng_tac. Qed.
Lemma rng_free_median_blur image params : rng_free (median_blur env image params).
Proof. unfold median_blur. rng_tac. Qed.
Lemma rng_free_bilateral_filter image params : rng_free (bilateral_filter env image params).
Proof. unfold bilateral_filter. rng_tac. Qed.
Lemma rng_free_histogram_equalization image params : rng_free (histogram_equalization env image params).
Proof. unfold histogram_equalization. rng_tac. Qed.
Lemma rng_free_sharpen image params : rng_free (sharpen env image params).
Proof. unfold sharpen. rng_tac. Qed.
Lemma rng_free_retinex image params : rng_free (retinex env image params).
Proof. unfold retinex. rng_tac. Qed.
Lemma rng_free_clahe image params : rng_free (clahe env image params).
Proof. unfold clahe. rng_tac. Qed.
Lemma rng_free_fourier_transform image params : rng_free (fourier_transform env image params).
Proof. unfold fourier_transform. rng_tac. Qed.
Lemma rng_free_frequency_filter image params : rng_free (frequency_filter env image params).
Proof. unfold frequency_filter. rng_tac. Qed.
Lemma rng_free_erosion image params : rng_free (erosion env image params).
Proof. unfold erosion. rng_tac. Qed.
Lemma rng_free_dilation image params : rng_free (dilation env image params).
Proof. unfold dilation. rng_tac. Qed.
Lemma rng_free_opening image params : rng_free (opening env image params).
Proof. unfold opening. rng_tac. Qed.
Lemma rng_free_closing image params : rng_free (closing env image params).
Proof. unfold closing. rng_tac. Qed.
Lemma rng_free_gradient image params : rng_free (gradient env image params).
Proof. unfold gradient. rng_tac. Qed.
Lemma rng_free_top_hat image params : rng_free (top_hat env image params).
Proof. unfold top_hat. rng_tac. Qed.
Lemma rng_free_black_hat image params : rng_free (black_hat env image params).
Proof. unfold black_hat. rng_tac. Qed.
Lemma rng_free_canny_edge image params : rng_free (canny_edge env image params).
Proof. unfold canny_edge. rng_tac. Qed.
Lemma rng_free_sobel_edge image params : rng_free (sobel_edge env image params).
Proof. unfold sobel_edge. rng_tac. Qed.
Lemma rng_free_contour_detection image params : rng_free (contour_detection env image params).
Proof. unfold contour_detection. rng_tac. Qed.
Lemma rng_free_orb_keypoints image params : rng_free (orb_keypoints env image params).
Proof. unfold orb_keypoints. rng_tac. Qed.
Lemma rng_free_rgb_to_hsv image params : rng_free (rgb_to_hsv env image params).
Proof. unfold rgb_to_hsv. rng_tac. Qed.
Lemma rng_free_rgb_to_lab image params : rng_free (rgb_to_lab env image params).
Proof. unfold rgb_to_lab. rng_tac. Qed.
Lemma rng_free_rgb_to_ycrcb image params : rng_free (rgb_to_ycrcb env image params).
Proof. unfold rgb_to_ycrcb. rng_tac. Qed.
Lemma rng_free_channel_separation image params : rng_free (channel_separation env image params).
Proof. unfold channel_separation. rng_tac. Qed.
Lemma rng_free_visualize_spectrum image params : rng_free (visualize_spectrum env image params).
Proof. unfold visualize_spectrum. rng_tac. Qed.
Lemma rng_free_bandpass_filter image params : rng_free (bandpass_filter env image params).
Proof. unfold bandpass_filter. rng_tac. Qed.
Lemma rng_free_notch_filter image params : rng_free (notch_filter env image params).
Proof. unfold notch_filter. rng_tac. Qed.
Lemma rng_free_wiener_deconvolution image params : rng_free (wiener_deconvolution env image params).
Proof. unfold wiener_deconvolution. rng_tac. Qed.

End RngFree.

(** ** The dispatcher and the loop *)

Section Executor.
Variable env : platform.

Lemma all_transforms_frame name m :
  In (name, m) (all_transforms env) ->
  forall n image params, frame n (m image params) (fresh n).
Proof.
  intros H n image params. cbn in H.
  repeat (destruct H as [H|H]; [injection H as <- <-|]); try contradiction.
  all: eauto using frame_grayscale, frame_negative, frame_threshold,
    frame_adjust_brightness, frame_adjust_contrast, frame_gaussian_blur,
    frame_median_blur, frame_bilateral_filter, frame_histogram_equalization,
    frame_sharpen, frame_retinex, frame_clahe, frame_fourier_transform,
    frame_frequency_filter, frame_erosion, frame_dilation, frame_opening,
    frame_closing, frame_gradient, frame_top_hat, frame_black_hat,
    frame_canny_edge, frame_sobel_edge, frame_watershed,
    frame_contour_detection, frame_orb_keypoints, frame_rgb_to_hsv,
    frame_rgb_to_lab, frame_rgb_to_ycrcb, frame_channel_separation,
    frame_color_quantization, frame_visualize_spectrum, frame_bandpass_filter,
    frame_notch_filter, frame_add_degradation, frame_wiener_deconvolution,
    frame_inpainting.
Qed.

Lemma find_method_In h name m :
  find_method h name = Some m -> In (name, m) (methods h).
Proof.
  unfold find_method. destruct (find _ (methods h)) as [[k m']|] eqn:E; [|discriminate].
  intros [= <-]. apply find_some in E as [Hin Heq]. cbn in Heq.
  apply String.eqb_eq in Heq. subst. exact Hin.
Qed.

Lemma registered_In h name m :
  In h (handlers env) -> find_method h name = Some m ->
  In (name, m) (all_transforms env).
Proof.
  intros Hh Hm. apply find_method_In in Hm. unfold all_transforms.
  apply in_or_app. left. apply in_concat. exists (methods h). split; [|exact Hm].
  apply in_map. exact Hh.
Qed.

Lemma dispatch_Some op_type h name :
  dispatch env op_type = Some (h, name) ->
  op_type = VStr name /\ In h (handlers env).
Proof.
  unfold dispatch. destruct op_type; try discriminate.
  destruct (find _ (handlers env)) as [h'|] eqn:E; [|discriminate].
  intros H. injection H as H1 H2. subst. apply find_some in E as [Hin _]. auto.
Qed.

Lemma getattr_call_eq h name current_img params w :
  getattr_call env h name current_img params w
  = attribute_body env h name current_img params (noted name w).
Proof. reflexivity. Qed.

Lemma frame_attribute_body n h name current_img params :
  In h (handlers env) ->
  frame n (attribute_body env h name current_img params) (fresh n).
Proof.
  intros Hh. unfold attribute_body. destruct (find_method h name) as [m|] eqn:E.
  - eapply all_transforms_frame, registered_In; eauto.
  - eapply frame_bind; [apply frame_unbox|]. intros seen _. apply frame_raise.
Qed.

Lemma try_stage_eq op_type params results current_img h name w :
  dispatch env op_type = Some (h, name) ->
  try_stage env op_type params results current_img w
  = bind (attribute_body env h name current_img params)
         (after_call env op_type results) (noted name w).
Proof. intros H. unfold try_stage. rewrite H. reflexivity. Qed.

Lemma frame_after_call n op_type results r :
  fresh n r -> frame n (after_call env op_type results r) (goes_on n op_type results).
Proof.
  intros Hr. unfold after_call.
  eapply frame_bind; [apply frame_unpack2_fresh, Hr|]. intros pd [Hp _]. cbv zeta.
  eapply frame_bind; [apply frame_unbox|]. intros pixels _.
  eapply frame_bind; [apply frame_lift|]. intros img_base64 _.
  eapply frame_bind; [apply frame_shape_of|]. intros shape _.
  eapply frame_bind; [apply frame_shape_at|]. intros width _.
  eapply frame_bind; [apply frame_shape_at|]. intros height _.
  apply frame_ret. eexists _, _. split; [reflexivity|]. split; [reflexivity|exact Hp].
Qed.

Lemma run_stage_outcome n op results current_img w :
  (n <= length (heap w))%nat ->
  exists s w',
    run_stage env op results current_img w = (Ret s, w') /\
    (n <= length (heap w'))%nat /\
    (forall l, (l < n)%nat -> heap w' !! l = heap w !! l) /\
    stage_outcome env n op results w s w'.
Proof.
  intros Hn. unfold run_stage, try_except. cbv zeta.
  destruct (dispatch env (op_type op)) as [[h name]|] eqn:D.
  - destruct (dispatch_Some _ _ _ D) as [Ht Hh].
    rewrite (try_stage_eq _ _ _ _ _ _ _ D).
    assert (F : frame n (bind (attribute_body env h name current_img (op_params op))
                           (after_call env (op_type op) results))
                  (goes_on n (op_type op) results)).
    { eapply frame_bind; [apply frame_attribute_body, Hh|].
      intros r Hr. apply frame_after_call, Hr. }
    destruct (F (noted name w) Hn) as (F1 & F2 & F3 & F4).
    destruct (bind _ _ (noted name w)) as [[s|e] w'] eqn:E; cbn in *.
    + exists s, w'. repeat split; auto. eapply stage_done; eauto.
    + exists (Return {| json := Error ("Error in operation " +:+ name +:+ ": " +:+ str_exn e);
                        status := 500 |}), w'.
      rewrite Ht. cbn. repeat split; auto. eapply stage_failed; eauto.
  - unfold try_stage. rewrite D. cbn.
    eexists _, w. repeat split; auto. apply stage_unknown; auto.
Qed.

(** A round of the loop never lets an exception escape. *)
Lemma run_stage_returns op results current_img w :
  exists s, (run_stage env op results current_img w).1 = Ret s.
Proof.
  destruct (run_stage_outcome 0 op results current_img w) as (s & w' & E & _); [lia|].
  exists s. rewrite E. reflexivity.
Qed.

Lemma run_stages_cons op rest results current_img w :
  run_stages env (op :: rest) results current_img w
  = match run_stage env op results current_img w with
    | (Ret (Return r), w') => (Ret r, w')
    | (Ret (Continue results' current_img'), w') =>
        run_stages env rest results' current_img' w'
    | (Raise e, w') => (Raise e, w')
    end.
Proof.
  cbn [run_stages]. unfold bind.
  destruct (run_stage env op results current_img w) as [[[r|rs c]|e] w']; reflexivity.
Qed.

Lemma run_prefix_cons op rest results current_img w :
  run_prefix env (op :: rest) results current_img w
  = match run_stage env op results current_img w with
    | (Ret (Return r), w') => (Ret (Return r), w')
    | (Ret (Continue results' current_img'), w') =>
        run_prefix env rest results' current_img' w'
    | (Raise e, w') => (Raise e, w')
    end.
Proof.
  cbn [run_prefix]. unfold bind.
  destruct (run_stage env op results current_img w) as [[[r|rs c]|e] w']; reflexivity.
Qed.

(** The loop over a request is the loop over a prefix, then over the
    rest. *)
Lemma run_stages_app pre post results current_img w results' current_img' w' :
  run_prefix env pre results current_img w
    = (Ret (Continue results' current_img'), w') ->
  run_stages env (pre ++ post) results current_img w
    = run_stages env post results' current_img' w'.
Proof.
  revert results current_img w.
  induction pre as [|op pre IH]; intros results current_img w H.
  - cbn in H. injection H as <- <- <-. reflexivity.
  - rewrite run_prefix_cons in H. cbn [app]. rewrite run_stages_cons.
    destruct (run_stage env op results current_img w) as [[[r|rs c]|e] w1];
      try discriminate.
    apply IH, H.
Qed.

(** Where the loop stands after a prefix that completed: one entry per
    stage, each stage recorded once, nothing older than the prefix
    touched. *)
Lemma run_prefix_completed n pre results current_img w results' current_img' w' :
  (n <= length (heap w))%nat ->
  run_prefix env pre results current_img w
    = (Ret (Continue results' current_img'), w') ->
  (n <= length (heap w'))%nat /\
  (forall l, (l < n)%nat -> heap w' !! l = heap w !! l) /\
  invoked w' = (invoked w ++ op_names pre)%list /\
  (exists added, results' = (results ++ added)%list /\
                 map r_operation added = map op_type pre) /\
  (pre <> [] -> fresh n current_img').
Proof.
  revert results current_img w.
  induction pre as [|op pre IH]; intros results current_img w Hn H.
  - cbn in H. injection H as <- <- <-. repeat split; auto.
    + cbn. rewrite app_nil_r. reflexivity.
    + exists []. rewrite app_nil_r. auto.
    + congruence.
  - rewrite run_prefix_cons in H.
    destruct (run_stage_outcome n op results current_img w Hn)
      as (s & w1 & E & H1 & H2 & O).
    rewrite E in H. destruct s as [r|rs c]; [discriminate|].
    destruct O as [? Hs ?|? ? ? ? Hs ?|h name D G I]; try discriminate.
    destruct G as (entry & c' & [= -> ->] & Hop & Hc).
    destruct (dispatch_Some _ _ _ D) as [Ht _].
    destruct (IH _ _ _ H1 H) as (K1 & K2 & K3 & (added & K4 & K5) & K6).
    repeat split; auto.
    + intros l Hl. rewrite K2, H2; auto.
    + rewrite K3, I. unfold op_names. cbn [map]. rewrite Ht. cbn [py_str].
      rewrite <- app_assoc. reflexivity.
    + exists (entry :: added). rewrite K4, <- app_assoc. cbn. rewrite Hop, K5. auto.
    + intros _. destruct pre as [|op' pre'].
      * cbn in H. injection H as <- <- <-. exact Hc.
      * apply K6. discriminate.
Qed.

Lemma process_image_eq operations img w :
  process_image env operations img w
  = run_stages env operations [] (working_copy w) (loaded img w).
Proof.
  unfold process_image, bind, new, np_copy, bind, array_of, load. cbn.
  rewrite lookup_app_r by lia. rewrite Nat.sub_diag. cbn.
  rewrite length_app. cbn. rewrite Nat.add_1_r.
  unfold loaded, working_copy, set_heap. cbn. rewrite <- app_assoc. reflexivity.
Qed.

End Executor.

(** ** Requests *)

(** Which handler a name goes to is computed once the version of the
    interpreter, on which [dir] depends, is settled. *)
Ltac dispatch_by_version env :=
  cbv [dispatch handlers find in_dir dir inherited private methods
       basic_ops advanced_ops morphological_ops segmentation_ops object_dir];
  destruct (11 <=? python_minor env); destruct (13 <=? python_minor env);
  reflexivity.

Section Pipeline.
Variable env : platform.

Lemma failing_stage_cons op rest results current_img w :
  failing_stage env (op :: rest) results current_img w
  = match run_stage env op results current_img w with
    | (Ret (Continue results' current_img'), w') =>
        option_map S (failing_stage env rest results' current_img' w')
    | _ => Some 0%nat
    end.
Proof. reflexivity. Qed.

(** How the loop ends: with every stage done, or at the first stage that
    does not go on, with that stage's error and nothing else. *)
Lemma run_stages_outcome operations results current_img w :
  exists r w',
    run_stages env operations results current_img w = (Ret r, w') /\
    ((exists added,
        r = {| json := Success (results ++ added); status := 200 |} /\
        map r_operation added = map op_type operations /\
        failing_stage env operations results current_img w = None) \/
     (exists i op,
        operations !! i = Some op /\
        failing_stage env operations results current_img w = Some i /\
        (r = {| json := Error ("Unknown operation: " +:+ py_str (op_type op));
                status := 400 |} \/
         exists e,
           r = {| json := Error ("Error in operation " +:+ py_str (op_type op)
                                 +:+ ": " +:+ str_exn e);
                  status := 500 |}))).
Proof.
  revert results current_img w.
  induction operations as [|op rest IH]; intros results current_img w.
  - eexists _, w. split; [reflexivity|]. left. exists []. rewrite app_nil_r. auto.
  - rewrite run_stages_cons, failing_stage_cons.
    destruct (run_stage_outcome env 0 op results current_img w) as (s & w1 & E & _ & _ & O);
      [lia|].
    rewrite E. destruct O as [D -> ->|h name e D -> I|h name D G I].
    + eexists _, w. split; [reflexivity|]. right. exists 0%nat, op. auto.
    + eexists _, w1. split; [reflexivity|]. right. exists 0%nat, op.
      destruct (dispatch_Some _ _ _ _ D) as [-> _]. cbn [py_str]. eauto.
    + destruct G as (entry & c' & -> & Hop & _).
      destruct (IH (results ++ [entry]) c' w1) as (r & w' & R & [(added & -> & M & F)|(i & op' & L & F & C)]).
      * exists {| json := Success ((results ++ [entry]) ++ added); status := 200 |}, w'.
        split; [exact R|]. left. exists (entry :: added).
        rewrite <- app_assoc. cbn. rewrite Hop, M, F. auto.
      * exists r, w'. split; [exact R|]. right. exists (S i), op'.
        rewrite F. auto.
Qed.

(** A transform that raises at a stage ends the request there: the
    response is the error of that stage, the world is the one the
    transform left. *)
Lemma run_stages_transform_raises pre op post results0 current_img0 w0
    results current_img w h name m e w' :
  run_prefix env pre results0 current_img0 w0
    = (Ret (Continue results current_img), w) ->
  dispatch env (op_type op) = Some (h, name) ->
  find_method h name = Some m ->
  m current_img (op_params op) (noted name w) = (Raise e, w') ->
  run_stages env (pre ++ op :: post) results0 current_img0 w0
  = (Ret {| json := Error ("Error in operation " +:+ name +:+ ": " +:+ str_exn e);
            status := 500 |}, w').
Proof.
  intros P D F R. rewrite (run_stages_app _ _ _ _ _ _ _ _ _ P), run_stages_cons.
  unfold run_stage, try_except. cbv zeta.
  rewrite (try_stage_eq _ _ _ _ _ _ _ _ D). unfold bind, attribute_body.
  rewrite F, R. destruct (dispatch_Some _ _ _ _ D) as [-> _]. reflexivity.
Qed.

Lemma returns_ret {A} (a : A) (Q : A -> Prop) : Q a -> returns (ret a) Q.
Proof. intros H w b [= <-]. exact H. Qed.

Lemma returns_bind {A B} (m : M A) (k : A -> M B) (Q : B -> Prop) :
  (forall a, returns (k a) Q) -> returns (bind m k) Q.
Proof.
  intros H w b. rewrite bind_eq. destruct (m w).1 as [a|e]; [apply H|discriminate].
Qed.

Lemma returns_if {A} (c : bool) (m1 m2 : M A) (Q : A -> Prop) :
  returns m1 Q -> returns m2 Q -> returns (if c then m1 else m2) Q.
Proof. destruct c; auto. Qed.

(** [frequency_filter] has no [return]: a call that comes back, comes
    back with [None]. *)
Lemma frequency_filter_returns_None image params :
  returns (frequency_filter env image params) (fun v => v = VNone).
Proof.
  unfold frequency_filter.
  repeat (first [ apply returns_bind; intros ? | progress cbv zeta ]).
  apply returns_ret. reflexivity.
Qed.

(** C1. The operation [frequency_filter] never yields an (image,
    description) pair: the method comes back with [None] or raises, and
    the stage that calls it ends the request with status 500, whatever
    the image, the parameters and the library. *)
Theorem frequency_filter_stage_always_fails params results current_img w :
  exists msg w',
    run_stage env {| op_type := VStr "frequency_filter"; op_params := params |}
      results current_img w
    = (Ret (Return {| json := Error ("Error in operation frequency_filter: " +:+ msg);
                      status := 500 |}), w') /\
    match (frequency_filter env current_img params (noted "frequency_filter" w)).1 with
    | Ret v => v = VNone /\ msg = "cannot unpack non-iterable NoneType object"
    | Raise e => msg = str_exn e
    end.
Proof.
  assert (D : dispatch env (VStr "frequency_filter")
              = Some (advanced_ops env, "frequency_filter"))
    by dispatch_by_version env.
  unfold run_stage, try_except. cbv zeta. cbn [op_type op_params].
  rewrite (try_stage_eq _ _ _ _ _ _ _ _ D).
  unfold bind, attribute_body.
  change (find_method (advanced_ops env) "frequency_filter")
    with (Some (frequency_filter env)).
  pose proof (frequency_filter_returns_None current_img params
                (noted "frequency_filter" w)) as R.
  destruct (frequency_filter env current_img params (noted "frequency_filter" w))
    as [[v|e] w1]; cbn in *.
  - rewrite (R v eq_refl). cbn. eexists _, w1. split; [reflexivity|]. auto.
  - eexists _, w1. split; [reflexivity|]. reflexivity.
Qed.

(** C2, as the code has it. Every request ends in one of two ways: with
    status 200 and one result entry per requested operation, in order;
    or at the first stage that fails, with an error message that names
    that stage's operation (status 400 for an unknown name, 500 for an
    exception) and with none of the results completed before it. *)
Theorem all_results_or_error_only operations img w :
  exists r w',
    process_image env operations img w = (Ret r, w') /\
    ((exists results,
        r = {| json := Success results; status := 200 |} /\
        length results = length operations /\
        map r_operation results = map op_type operations) \/
     (exists i op,
        operations !! i = Some op /\
        failing_stage env operations [] (working_copy w) (loaded img w) = Some i /\
        response_results r = [] /\
        (r = {| json := Error ("Unknown operation: " +:+ py_str (op_type op));
                status := 400 |} \/
         exists e,
           r = {| json := Error ("Error in operation " +:+ py_str (op_type op)
                                 +:+ ": " +:+ str_exn e);
                  status := 500 |}))).
Proof.
  rewrite process_image_eq.
  destruct (run_stages_outcome operations [] (working_copy w) (loaded img w))
    as (r & w' & R & [(added & -> & Hm & _)|(i & op & L & F & C)]).
  - eexists _, w'. split; [exact R|]. left. exists added. repeat split; auto.
    rewrite <- (length_map r_operation), Hm, length_map. reflexivity.
  - exists r, w'. split; [exact R|]. right. exists i, op. repeat split; auto.
    destruct C as [->|[e ->]]; reflexivity.
Qed.

(** C3. When the transform of a stage raises, after the stages before it
    completed, the request fails as a unit: the response is an error with
    status 500 and carries no results, the world is the one in which the
    transform raised, and the dispatcher has called the operations up to
    that stage and none after it. *)
Theorem failure_aborts_the_pipeline pre op post img w0
    results current_img w h name m e w' :
  run_prefix env pre [] (working_copy w0) (loaded img w0)
    = (Ret (Continue results current_img), w) ->
  dispatch env (op_type op) = Some (h, name) ->
  find_method h name = Some m ->
  m current_img (op_params op) (noted name w) = (Raise e, w') ->
  exists r,
    process_image env (pre ++ op :: post) img w0 = (Ret r, w') /\
    (exists msg, json r = Error msg) /\
    status r = 500 /\
    response_results r = [] /\
    invoked w' = invoked w0 ++ op_names pre ++ [name].
Proof.
  intros P D F R. rewrite process_image_eq.
  rewrite (run_stages_transform_raises _ _ post _ _ _ _ _ _ _ _ _ _ _ P D F R).
  eexists. split; [reflexivity|]. repeat split; eauto.
  destruct (dispatch_Some _ _ _ _ D) as [_ Hh].
  pose proof (all_transforms_frame env name m (registered_In env _ _ _ Hh F)
                0%nat current_img (op_params op) (noted name w)) as Fm.
  destruct Fm as (_ & _ & Fi & _); [lia|]. rewrite R in Fi. cbn in Fi. rewrite Fi.
  destruct (run_prefix_completed env 0 _ _ _ _ _ _ _ (Nat.le_0_l _) P)
    as (_ & _ & K & _). rewrite K. cbn. rewrite <- app_assoc. reflexivity.
Qed.

(** C4. A name that is an attribute of a handler without being a
    transform is not reported as unknown: [__class__] is found in
    [dir(basic_ops)], called, and the request ends with status 500 and
    the message of the exception the call raised. *)
Theorem non_transform_attribute_is_called params img w :
  exists w',
    process_image env [{| op_type := VStr "__class__"; op_params := params |}] img w
    = (Ret {| json := Error ("Error in operation __class__: "
                             +:+ slot_msg env "__class__" [VArr img] params);
              status := 500 |}, w') /\
    invoked w' = invoked w ++ ["__class__"].
Proof.
  assert (D : dispatch env (VStr "__class__") = Some (basic_ops env, "__class__"))
    by reflexivity.
  rewrite process_image_eq, run_stages_cons.
  unfold run_stage, try_except. cbv zeta. cbn [op_type op_params].
  rewrite (try_stage_eq _ _ _ _ _ _ _ _ D).
  unfold bind, attribute_body.
  change (find_method (basic_ops env) "__class__") with (@None method).
  unfold bind, working_copy, unbox, unbox1, bind, load. cbn.
  rewrite lookup_app_r by lia.
  replace (S (length (heap w)) - length (heap w))%nat with 1%nat by lia. cbn.
  eexists. split; reflexivity.
Qed.

(** C5, as the code has it. When the transform of a stage raises, the
    body of the response is the one string [Error in operation <name>:
    <message of the exception>] with status 500: it names the operation
    and nothing in it depends on the position of the stage. *)
Theorem error_names_the_operation pre op post img w0
    results current_img w h name m e w' :
  run_prefix env pre [] (working_copy w0) (loaded img w0)
    = (Ret (Continue results current_img), w) ->
  dispatch env (op_type op) = Some (h, name) ->
  find_method h name = Some m ->
  m current_img (op_params op) (noted name w) = (Raise e, w') ->
  (process_image env (pre ++ op :: post) img w0).1
  = Ret {| json := Error ("Error in operation " +:+ name +:+ ": " +:+ str_exn e);
           status := 500 |} /\
  op_type op = VStr name.
Proof.
  intros P D F R. rewrite process_image_eq.
  rewrite (run_stages_transform_raises _ _ post _ _ _ _ _ _ _ _ _ _ _ P D F R).
  split; [reflexivity|]. apply (dispatch_Some _ _ _ _ D).
Qed.

End Pipeline.

(** ** Arithmetic on samples *)

Lemma u8_rsub_involutive x : 0 <= x < 256 -> u8_rsub 255 (u8_rsub 255 x) = x.
Proof.
  intros H. unfold u8_rsub.
  rewrite (Z.mod_small (255 - x)) by lia. rewrite Z.mod_small by lia. lia.
Qed.

Lemma Forall_concat_inv {A} (P : A -> Prop) (ls : list (list A)) :
  Forall P (concat ls) -> Forall (Forall P) ls.
Proof.
  induction ls as [|l ls IH]; cbn; intros H; constructor.
  - apply Forall_app in H. tauto.
  - apply IH. apply Forall_app in H. tauto.
Qed.

Lemma map_map_involutive {A} (f : A -> A) (P : A -> Prop) (rows : list (list A)) :
  (forall x, P x -> f (f x) = x) ->
  Forall (Forall P) rows ->
  map (map f) (map (map f) rows) = rows.
Proof.
  intros Hf H. induction H as [|row rows Hrow _ IH]; cbn; [reflexivity|].
  rewrite IH. f_equal. induction Hrow as [|x xs Hx _ IHx]; cbn; [reflexivity|].
  rewrite IHx, Hf by assumption. reflexivity.
Qed.

Lemma Forall_map_intro {A B} (f : A -> B) (P : B -> Prop) (l : list A) :
  (forall x, In x l -> P (f x)) -> Forall P (map f l).
Proof.
  induction l as [|x xs IH]; cbn; intros H; constructor; auto.
Qed.

Lemma Forall_concat_intro {A} (P : A -> Prop) (ls : list (list A)) :
  Forall (Forall P) ls -> Forall P (concat ls).
Proof.
  induction 1; cbn; [constructor|]. apply Forall_app. auto.
Qed.

Lemma width_of_map {A B} (f : A -> B) (rows : list (list A)) :
  width_of (map (map f) rows) = width_of rows.
Proof. destruct rows; cbn; [reflexivity|]. rewrite length_map. reflexivity. Qed.

Lemma rectangular_map {A B} (f : A -> B) (rows : list (list A)) :
  rectangular rows -> rectangular (map (map f) rows).
Proof.
  unfold rectangular. rewrite width_of_map. generalize (width_of rows). intros n H.
  induction H; cbn; constructor; auto. rewrite length_map. assumption.
Qed.

Lemma color_samples_u8 rows :
  Forall (fun x => 0 <= x < 256) (samples (Color rows)) ->
  Forall (Forall px_is_u8) rows.
Proof.
  cbn. intros H. apply Forall_concat_inv in H.
  induction rows as [|row rows IH]; [constructor|].
  cbn in H. apply Forall_cons in H as [Hrow H]. constructor; [|apply IH, H].
  apply Forall_concat_inv in Hrow. clear -Hrow.
  induction row as [|[[b g] r] row IH]; [constructor|].
  cbn in Hrow. apply Forall_cons in Hrow as [Hp Hrow]. constructor; [|apply IH, Hrow].
  unfold px_is_u8. cbn.
  apply Forall_cons in Hp as [Hb Hp]. apply Forall_cons in Hp as [Hg Hp].
  apply Forall_cons in Hp as [Hr _]. auto.
Qed.

Lemma map_px_rsub_involutive p :
  px_is_u8 p -> map_px (u8_rsub 255) (map_px (u8_rsub 255) p) = p.
Proof.
  destruct p as [[b g] r]. unfold px_is_u8. cbn. intros [[Hb Hg] Hr].
  rewrite !u8_rsub_involutive by assumption. reflexivity.
Qed.

Section Transforms.
Variable env : platform.

Lemma load_Some l a w : heap w !! l = Some a -> load l w = (Ret a, w).
Proof. intros H. unfold load. rewrite H. reflexivity. Qed.

Lemma lookup_new (h : list ndarray) a : (h ++ [a]) !! length h = Some a.
Proof. rewrite lookup_app_r by lia. rewrite Nat.sub_diag. reflexivity. Qed.

(** [negative] on an 8-bit image: a new array with every sample [x]
    replaced by [255 - x]. *)
Lemma negative_u8 l img w :
  heap w !! l = Some img -> is_u8 img ->
  exists img',
    negative env (VRef l) [] w
    = (Ret (VTuple [VRef (length (heap w)); VStr negative_description]),
       set_heap (heap w ++ [img']) w) /\
    img' = match img with
           | Gray rows => Gray (map (map (u8_rsub 255)) rows)
           | Color rows => Color (map (map (map_px (u8_rsub 255))) rows)
           | _ => img
           end.
Proof.
  intros Hl Hu. unfold negative, np_rsub, bind, array_of. cbn.
  rewrite (load_Some _ _ _ Hl).
  destruct img; cbn in Hu; try contradiction; cbn; eexists; split; reflexivity.
Qed.

(** C9. [negative] is an involution on 8-bit images: applied to an
    image and then to its own output, it gives an array whose samples are
    those of the image, and the image itself is still as it was. *)
Theorem negative_twice_is_identity l img w :
  heap w !! l = Some img -> is_u8 img ->
  exists l1 w1 l2 w2,
    negative env (VRef l) [] w
      = (Ret (VTuple [VRef l1; VStr negative_description]), w1) /\
    negative env (VRef l1) [] w1
      = (Ret (VTuple [VRef l2; VStr negative_description]), w2) /\
    heap w2 !! l2 = Some img /\
    heap w2 !! l = Some img.
Proof.
  intros Hl Hu.
  destruct (negative_u8 l img w Hl Hu) as (img1 & E1 & D1).
  assert (Hu1 : is_u8 img1 /\
                match img1 with
                | Gray rows => Gray (map (map (u8_rsub 255)) rows)
                | Color rows => Color (map (map (map_px (u8_rsub 255))) rows)
                | _ => img1
                end = img).
  { subst img1. destruct img as [rows|rows| |]; cbn in Hu; try contradiction;
      destruct Hu as [Hr Hs].
    - split.
      + split; [apply rectangular_map, Hr|].
        apply Forall_concat_intro, Forall_map_intro. intros row _.
        apply Forall_map_intro. intros x _.
        unfold u8_rsub. apply Z.mod_pos_bound. lia.
      + f_equal. eapply map_map_involutive; [apply u8_rsub_involutive|].
        apply Forall_concat_inv, Hs.
    - split.
      + split; [apply rectangular_map, Hr|].
        cbn. apply Forall_concat_intro, Forall_map_intro. intros row Hrow.
        apply in_map_iff in Hrow as (row0 & <- & _).
        apply Forall_concat_intro, Forall_map_intro. intros p Hp.
        apply in_map_iff in Hp as ([[b g] r] & <- & _). cbn.
        repeat constructor; unfold u8_rsub; apply Z.mod_pos_bound; lia.
      + f_equal. eapply map_map_involutive; [apply map_px_rsub_involutive|].
        apply color_samples_u8, Hs. }
  destruct Hu1 as [Hu1 Hback].
  set (w1 := set_heap (heap w ++ [img1]) w) in *.
  assert (Hl1 : heap w1 !! length (heap w) = Some img1) by apply lookup_new.
  destruct (negative_u8 _ img1 w1 Hl1 Hu1) as (img2 & E2 & D2).
  rewrite Hback in D2. subst img2.
  eexists _, _, _, _. split; [exact E1|]. split; [exact E2|]. split.
  - cbn. apply lookup_new.
  - cbn. rewrite <- app_assoc. apply lookup_app_l_Some. exact Hl.
Qed.


(** *** Keyword arguments *)

Lemma check_kwargs_value q formals k v1 v2 params :
  check_kwargs q formals ((k, v1) :: params)
  = check_kwargs q formals ((k, v2) :: params).
Proof. unfold check_kwargs. cbn. destruct (negb _); reflexivity. Qed.

Lemma kwarg_here k d v params : kwarg k d ((k, v) :: params) = v.
Proof. unfold kwarg, lookup_kw. cbn. rewrite String.eqb_refl. reflexivity. Qed.

Lemma kwarg_other k k' d v params :
  String.eqb k' k = false -> kwarg k d ((k', v) :: params) = kwarg k d params.
Proof. intros H. unfold kwarg, lookup_kw. cbn. rewrite H. reflexivity. Qed.





(** *** Grey conversion and thresholding, step by step *)

Lemma bind_Ret {A B} (m : M A) (k : A -> M B) w a w' :
  m w = (Ret a, w') -> bind m k w = k a w'.
Proof. intros H. unfold bind. rewrite H. reflexivity. Qed.

Lemma array_of_ref l a w : heap w !! l = Some a -> array_of (VRef l) w = (Ret a, w).
Proof. apply load_Some. Qed.

Lemma shape_of_ref l a w :
  heap w !! l = Some a -> shape_of (VRef l) w = (Ret (np_shape a), w).
Proof.
  intros H. unfold shape_of. rewrite (bind_Ret _ _ _ _ _ (array_of_ref _ _ _ H)).
  reflexivity.
Qed.

Lemma cvtColor_bgr2gray l rows w :
  heap w !! l = Some (Color rows) -> is_empty (Color rows) = false ->
  cvtColor env (VRef l) COLOR_BGR2GRAY w
  = (Ret (VRef (length (heap w))), set_heap (heap w ++ [Gray (gray_of env rows)]) w).
Proof.
  intros H E. unfold cvtColor. rewrite (bind_Ret _ _ _ _ _ (array_of_ref _ _ _ H)).
  rewrite E. reflexivity.
Qed.

Lemma cvtColor_gray2bgr l rows w :
  heap w !! l = Some (Gray rows) -> is_empty (Gray rows) = false ->
  cvtColor env (VRef l) COLOR_GRAY2BGR w
  = (Ret (VRef (length (heap w))), set_heap (heap w ++ [Color (gray2bgr rows)]) w).
Proof.
  intros H E. unfold cvtColor. rewrite (bind_Ret _ _ _ _ _ (array_of_ref _ _ _ H)).
  rewrite E. reflexivity.
Qed.

Lemma cv_threshold_binary l rows t w :
  heap w !! l = Some (Gray rows) -> is_empty (Gray rows) = false ->
  is_int32 t = true ->
  cv_threshold env (VRef l) (VInt t) (VInt 255) (VInt THRESH_BINARY) w
  = (Ret (VTuple [VFloat (str_int t +:+ ".0"); VRef (length (heap w))]),
     set_heap (heap w ++ [Gray (map (map (threshold_u8 t 255 THRESH_BINARY)) rows)]) w).
Proof.
  intros H E Ht. unfold cv_threshold.
  rewrite (bind_Ret _ _ _ _ _ (array_of_ref _ _ _ H)). rewrite E, Ht. reflexivity.
Qed.

(** Shapes under the conversions. *)
Lemma shape_gray_of rows h w :
  np_shape (Color rows) = [h; w; 3] -> np_shape (Gray (gray_of env rows)) = [h; w].
Proof.
  cbn. unfold gray_of. rewrite length_map, width_of_map. congruence.
Qed.

Lemma shape_gray2bgr rows h w :
  np_shape (Gray rows) = [h; w] -> np_shape (Color (gray2bgr rows)) = [h; w; 3].
Proof.
  cbn. unfold gray2bgr. rewrite length_map, width_of_map. congruence.
Qed.

Lemma shape_map_gray (f : Z -> Z) rows :
  np_shape (Gray (map (map f) rows)) = np_shape (Gray rows).
Proof. cbn. rewrite length_map, width_of_map. reflexivity. Qed.

Lemma nonempty_2d h v : h <> 0 -> v <> 0 -> existsb (Z.eqb 0) [h; v] = false.
Proof.
  intros Hh Hv. cbn [existsb].
  rewrite (proj2 (Z.eqb_neq 0 h)), (proj2 (Z.eqb_neq 0 v)) by lia. reflexivity.
Qed.

Lemma is_empty_shape a s :
  np_shape a = s -> is_empty a = existsb (Z.eqb 0) s.
Proof. intros <-. reflexivity. Qed.

(** [grayscale] on a non-empty colour image: a grey plane, then its
    expansion to three equal channels. *)
Lemma grayscale_color l rows w :
  heap w !! l = Some (Color rows) -> is_empty (Color rows) = false ->
  grayscale env (VRef l) [] w
  = (Ret (VTuple [VRef (S (length (heap w))); VStr grayscale_description]),
     set_heap (heap w ++ [Gray (gray_of env rows); Color (gray2bgr (gray_of env rows))]) w).
Proof.
  intros H E. unfold grayscale.
  change (check_kwargs "BasicOperations.grayscale" [] []) with (@ret unit tt).
  rewrite bind_ret_l.
  rewrite (bind_Ret _ _ _ _ _ (cvtColor_bgr2gray _ _ _ H E)).
  assert (E' : is_empty (Gray (gray_of env rows)) = false).
  { unfold is_empty in *. cbn [np_shape existsb] in *. unfold gray_of.
    rewrite length_map, width_of_map.
    apply orb_false_elim in E as [E1 E]. apply orb_false_elim in E as [E2 _].
    rewrite E1, E2. reflexivity. }
  rewrite (bind_Ret _ _ _ _ _
             (cvtColor_gray2bgr (length (heap w)) (gray_of env rows)
                (set_heap (heap w ++ [Gray (gray_of env rows)]) w) (lookup_new _ _) E')).
  cbn. rewrite length_app. cbn. rewrite Nat.add_1_r, <- app_assoc. reflexivity.
Qed.

(** [threshold] with the default type on a non-empty colour image: the
    grey plane, its binary image, and the expansion of that. *)
Lemma threshold_color l rows t w :
  heap w !! l = Some (Color rows) -> is_empty (Color rows) = false ->
  is_int32 t = true ->
  threshold env (VRef l) [("threshold_value", VInt t)] w
  = (Ret (VTuple [VRef (S (S (length (heap w))));
                  VStr (threshold_description "Binary" (str_int t) "255")]),
     set_heap (heap w ++
       [Gray (gray_of env rows);
        Gray (map (map (threshold_u8 t 255 THRESH_BINARY)) (gray_of env rows));
        Color (gray2bgr (map (map (threshold_u8 t 255 THRESH_BINARY)) (gray_of env rows)))])
       w).
Proof.
  intros H E Ht.
  assert (Hs : exists h v, np_shape (Color rows) = [h; v; 3] /\ h <> 0 /\ v <> 0).
  { eexists _, _. split; [reflexivity|]. unfold is_empty in E.
    cbn [np_shape existsb] in E. apply orb_false_elim in E as [E1 E].
    apply orb_false_elim in E as [E2 _].
    apply Z.eqb_neq in E1, E2. lia. }
  destruct Hs as (h & v & Hs & Hh & Hv).
  assert (Eg : forall f, is_empty (Gray (map (map f) (gray_of env rows))) = false).
  { intros f. erewrite is_empty_shape;
      [|rewrite shape_map_gray; eapply shape_gray_of, Hs].
    apply nonempty_2d; assumption. }
  assert (Eg0 : is_empty (Gray (gray_of env rows)) = false).
  { erewrite is_empty_shape; [|eapply shape_gray_of, Hs].
    apply nonempty_2d; assumption. }
  unfold threshold.
  change (check_kwargs "BasicOperations.threshold" _ _) with (@ret unit tt).
  rewrite bind_ret_l. cbv zeta.
  change (kwarg "threshold_value" (VInt 127) [("threshold_value", VInt t)]) with (VInt t).
  change (kwarg "max_value" (VInt 255) [("threshold_value", VInt t)]) with (VInt 255).
  change (kwarg "threshold_type" (VInt THRESH_BINARY) [("threshold_value", VInt t)])
    with (VInt THRESH_BINARY).
  (* gray = cv2.cvtColor(image, cv2.COLOR_BGR2GRAY) *)
  assert (G : to_gray env (VRef l) w
              = (Ret (VRef (length (heap w))),
                 set_heap (heap w ++ [Gray (gray_of env rows)]) w)).
  { unfold to_gray. rewrite (bind_Ret _ _ _ _ _ (shape_of_ref _ _ _ H)).
    rewrite Hs. cbn [has_three_channels len length nth]. cbn.
    apply cvtColor_bgr2gray; assumption. }
  rewrite (bind_Ret _ _ _ _ _ G).
  (* ret, result = cv2.threshold(gray, ...) *)
  rewrite (bind_Ret _ _ _ _ _
             (cv_threshold_binary (length (heap w)) (gray_of env rows) t
                (set_heap (heap w ++ [Gray (gray_of env rows)]) w)
                (lookup_new _ _) Eg0 Ht)).
  cbn [unpack2]. rewrite bind_ret_l. cbn [snd].
  (* if len(result.shape) < 3: result = cv2.cvtColor(result, cv2.COLOR_GRAY2BGR) *)
  set (w2 := set_heap (heap (set_heap (heap w ++ [Gray (gray_of env rows)]) w) ++ _) _).
  assert (L2 : heap w2 !! length (heap (set_heap (heap w ++ [Gray (gray_of env rows)]) w))
               = Some (Gray (map (map (threshold_u8 t 255 THRESH_BINARY)) (gray_of env rows))))
    by apply lookup_new.
  rewrite (bind_Ret _ _ _ _ _ (shape_of_ref _ _ _ L2)).
  rewrite shape_map_gray, (shape_gray_of _ _ _ Hs). cbn [len length].
  change (Z.of_nat 2 <? 3) with true. cbv iota.
  rewrite (bind_Ret _ _ _ _ _ (cvtColor_gray2bgr _ _ _ L2 (Eg _))).
  cbn [threshold_types_get as_int default]. rewrite bind_ret_l.
  unfold ret. f_equal.
  - subst w2. cbn. rewrite !length_app. cbn [length].
    replace (length (heap w) + 1 + 1)%nat with (S (S (length (heap w)))) by lia.
    reflexivity.
  - subst w2. unfold set_heap. cbn. rewrite <- !app_assoc. reflexivity.
Qed.

(** A stage whose transform returns an image the codec accepts adds its
    entry and hands the new image on. *)
Lemma run_stage_success op results current_img w h name m out d w1 a s hgt wid rest :
  dispatch env (op_type op) = Some (h, name) ->
  find_method h name = Some m ->
  m current_img (op_params op) (noted name w) = (Ret (VTuple [VRef out; d]), w1) ->
  heap w1 !! out = Some a ->
  png_base64 env (VArr a) = Ret s ->
  np_shape a = hgt :: wid :: rest ->
  run_stage env op results current_img w
  = (Ret (Continue (results ++ [{| r_operation := op_type op;
                                   r_image := s;
                                   r_description := d;
                                   r_width := wid;
                                   r_height := hgt |}])
                   (VRef out)), w1).
Proof.
  intros D F R L P S. unfold run_stage, try_except. cbv zeta.
  rewrite (try_stage_eq _ _ _ _ _ _ _ _ D).
  assert (B : attribute_body env h name current_img (op_params op) (noted name w)
              = (Ret (VTuple [VRef out; d]), w1)).
  { unfold attribute_body. rewrite F. exact R. }
  rewrite (bind_Ret _ _ _ _ _ B). unfold after_call.
  cbn [unpack2]. rewrite bind_ret_l. cbv zeta. cbn [fst snd].
  assert (U : unbox (VRef out) w1 = (Ret (VArr a), w1)).
  { unfold unbox, unbox1. rewrite (bind_Ret _ _ _ _ _ (load_Some _ _ _ L)). reflexivity. }
  rewrite (bind_Ret _ _ _ _ _ U).
  unfold lift at 1. rewrite P. unfold bind at 1.
  rewrite (bind_Ret _ _ _ _ _ (shape_of_ref _ _ _ L)). rewrite S.
  reflexivity.
Qed.

Lemma threshold_two_valued t x :
  threshold_u8 t 255 THRESH_BINARY x = 0 \/ threshold_u8 t 255 THRESH_BINARY x = 255.
Proof. unfold threshold_u8. cbn. destruct (t <? x); auto. Qed.

Lemma gray2bgr_samples (P : Z -> Prop) rows :
  Forall (Forall P) rows -> Forall P (samples (Color (gray2bgr rows))).
Proof.
  intros H. cbn. unfold gray2bgr.
  apply Forall_concat_intro, Forall_map_intro. intros row Hrow.
  apply in_map_iff in Hrow as (row0 & <- & Hin).
  apply Forall_concat_intro, Forall_map_intro. intros p Hp.
  apply in_map_iff in Hp as (y & <- & Hy).
  rewrite List.Forall_forall in H. pose proof (H _ Hin) as Hr.
  rewrite List.Forall_forall in Hr. pose proof (Hr _ Hy). repeat constructor; assumption.
Qed.

(** C8, as the code has it.  The request [grayscale,
    threshold(threshold_value=127)] - [threshold_value] is the name the
    method gives its threshold, and [THRESH_BINARY] its default type - on
    a 100 x 100 colour image.  [grayscale] makes of the image a
    100 x 100 three-channel image whose channels are equal, the output of
    stage 1; [threshold] makes of that a 100 x 100 three-channel image
    whose samples are 0 or 255, the output of stage 2.  When the PNG
    encoder takes the two outputs, the response has status 200 and one
    entry per stage, with the encoding of the stage's output and width
    and height 100. *)
Theorem grayscale_then_threshold_100x100 rows :
  is_100x100x3 rows ->
  exists rows1 rows2 d1 d2,
    (is_100x100x3 rows1 /\
     Forall (Forall (fun p : pixel => p.1.1 = p.2 /\ p.1.2 = p.2)) rows1) /\
    (is_100x100x3 rows2 /\
     Forall (fun x => x = 0 \/ x = 255) (samples (Color rows2))) /\
    (forall l w,
       heap w !! l = Some (Color rows) ->
       exists l1 w1,
         grayscale env (VRef l) [] w = (Ret (VTuple [VRef l1; d1]), w1) /\
         heap w1 !! l1 = Some (Color rows1)) /\
    (forall l w,
       heap w !! l = Some (Color rows1) ->
       exists l2 w2,
         threshold env (VRef l) [("threshold_value", VInt 127)] w
         = (Ret (VTuple [VRef l2; d2]), w2) /\
         heap w2 !! l2 = Some (Color rows2)) /\
    (forall w s1 s2,
       png_base64 env (VArr (Color rows1)) = Ret s1 ->
       png_base64 env (VArr (Color rows2)) = Ret s2 ->
       exists w',
         process_image env
           [{| op_type := VStr "grayscale"; op_params := [] |};
            {| op_type := VStr "threshold";
               op_params := [("threshold_value", VInt 127)] |}]
           (Color rows) w
         = (Ret {| json := Success
                     [{| r_operation := VStr "grayscale"; r_image := s1;
                         r_description := d1; r_width := 100; r_height := 100 |};
                      {| r_operation := VStr "threshold"; r_image := s2;
                         r_description := d2; r_width := 100; r_height := 100 |}];
                   status := 200 |}, w')).
Proof.
  intros [Hs Hr].
  assert (E : is_empty (Color rows) = false)
    by (unfold is_empty; rewrite Hs; reflexivity).
  set (rows1 := gray2bgr (gray_of env rows)).
  set (rows2 := gray2bgr (map (map (threshold_u8 127 255 THRESH_BINARY)) (gray_of env rows1))).
  assert (Hs1 : np_shape (Color rows1) = [100; 100; 3])
    by (eapply shape_gray2bgr, shape_gray_of, Hs).
  assert (E1 : is_empty (Color rows1) = false)
    by (unfold is_empty; rewrite Hs1; reflexivity).
  assert (Hs2 : np_shape (Color rows2) = [100; 100; 3]).
  { eapply shape_gray2bgr. rewrite shape_map_gray. eapply shape_gray_of, Hs1. }
  exists rows1, rows2, (VStr grayscale_description),
    (VStr (threshold_description "Binary" (str_int 127) "255")).
  split; [|split; [|split; [|split]]].
  - split; [split; [exact Hs1|]|].
    + apply rectangular_map, rectangular_map, Hr.
    + unfold rows1, gray2bgr. apply Forall_map_intro. intros row _.
      apply Forall_map_intro. intros y _. cbn. auto.
  - split; [split; [exact Hs2|]|].
    + apply rectangular_map, rectangular_map, rectangular_map, rectangular_map,
        rectangular_map, Hr.
    + apply gray2bgr_samples. apply Forall_map_intro. intros row _.
      apply Forall_map_intro. intros x _. apply threshold_two_valued.
  - intros l w L. eexists _, _. split; [apply (grayscale_color _ _ _ L E)|].
    cbn -[rows1]. rewrite lookup_app_r by lia.
    match goal with |- _ !! ?i = _ => replace i with 1%nat by lia end. reflexivity.
  - intros l w L. eexists _, _.
    split; [apply (threshold_color _ _ 127 _ L E1 eq_refl)|].
    cbn -[rows1 rows2]. rewrite lookup_app_r by lia.
    match goal with |- _ !! ?i = _ => replace i with 2%nat by lia end. reflexivity.
  - intros w s1 s2 P1 P2.
    rewrite process_image_eq, run_stages_cons.
    (* stage 0 *)
    set (wa := noted "grayscale" (loaded (Color rows) w)).
    assert (La : heap wa !! S (length (heap w)) = Some (Color rows)).
    { cbn. rewrite lookup_app_r by lia.
      replace (S (length (heap w)) - length (heap w))%nat with 1%nat by lia. reflexivity. }
    pose proof (grayscale_color _ _ _ La E) as G.
    set (wb := set_heap (heap wa ++ _) wa) in G.
    assert (Lb : heap wb !! S (length (heap wa)) = Some (Color rows1)).
    { subst wb. cbn -[rows1]. rewrite lookup_app_r by lia.
      match goal with |- _ !! ?i = _ => replace i with 1%nat by lia end. reflexivity. }
    assert (D0 : dispatch env (VStr "grayscale") = Some (basic_ops env, "grayscale"))
      by dispatch_by_version env.
    assert (D1 : dispatch env (VStr "threshold") = Some (basic_ops env, "threshold"))
      by dispatch_by_version env.
    rewrite (run_stage_success {| op_type := VStr "grayscale"; op_params := [] |}
               [] (working_copy w) (loaded (Color rows) w)
               (basic_ops env) "grayscale" (grayscale env) _ _ wb _ s1 100 100 [3]
               D0 eq_refl G Lb P1 Hs1).
    rewrite run_stages_cons.
    (* stage 1 *)
    set (wc := noted "threshold" wb).
    assert (Lc : heap wc !! S (length (heap wa)) = Some (Color rows1)) by exact Lb.
    pose proof (threshold_color _ _ 127 _ Lc E1 eq_refl) as T.
    set (wd := set_heap (heap wc ++ _) wc) in T.
    assert (Ld : heap wd !! S (S (length (heap wc))) = Some (Color rows2)).
    { subst wd. cbn -[rows1 rows2]. rewrite lookup_app_r by lia.
      match goal with |- _ !! ?i = _ => replace i with 2%nat by lia end. reflexivity. }
    rewrite (run_stage_success
               {| op_type := VStr "threshold";
                  op_params := [("threshold_value", VInt 127)] |}
               _ (VRef (S (length (heap wa)))) wb
               (basic_ops env) "threshold" (threshold env) _ _ wd _ s2 100 100 [3]
               D1 eq_refl T Ld P2 Hs2).
    cbn [run_stages ret app]. exists wd. reflexivity.
Qed.

(** The same request with the threshold under the key [value]: stage 1
    completes, and the call of stage 2 is refused. *)
Lemma value_keyword_ends_the_request rows w s1 :
  is_empty (Color rows) = false ->
  png_base64 env (VArr (Color (gray2bgr (gray_of env rows)))) = Ret s1 ->
  (process_image env
     [{| op_type := VStr "grayscale"; op_params := [] |};
      {| op_type := VStr "threshold"; op_params := [("value", VInt 127)] |}]
     (Color rows) w).1
  = Ret {| json := Error ("Error in operation threshold: BasicOperations.threshold() "
                          +:+ "got an unexpected keyword argument 'value'");
           status := 500 |}.
Proof.
  intros E P1. rewrite process_image_eq.
  set (wa := noted "grayscale" (loaded (Color rows) w)).
  assert (La : heap wa !! S (length (heap w)) = Some (Color rows)).
  { cbn. rewrite lookup_app_r by lia.
    replace (S (length (heap w)) - length (heap w))%nat with 1%nat by lia. reflexivity. }
  pose proof (grayscale_color _ _ _ La E) as G.
  set (wb := set_heap (heap wa ++ _) wa) in G.
  assert (Lb : heap wb !! S (length (heap wa))
               = Some (Color (gray2bgr (gray_of env rows)))).
  { subst wb. cbn. rewrite lookup_app_r by lia.
    match goal with |- _ !! ?i = _ => replace i with 1%nat by lia end. reflexivity. }
  assert (D0 : dispatch env (VStr "grayscale") = Some (basic_ops env, "grayscale"))
    by dispatch_by_version env.
  assert (D1 : dispatch env (VStr "threshold") = Some (basic_ops env, "threshold"))
    by dispatch_by_version env.
  assert (Hs1 : exists h v, np_shape (Color (gray2bgr (gray_of env rows))) = [h; v; 3])
    by (eexists _, _; reflexivity).
  destruct Hs1 as (h & v & Hs1).
  pose proof (run_stage_success {| op_type := VStr "grayscale"; op_params := [] |}
                [] (working_copy w) (loaded (Color rows) w)
                (basic_ops env) "grayscale" (grayscale env) _ _ wb _ s1 h v [3]
                D0 eq_refl G Lb P1 Hs1) as S0.
  assert (P : run_prefix env [{| op_type := VStr "grayscale"; op_params := [] |}]
                [] (working_copy w) (loaded (Color rows) w)
              = (Ret (Continue
                        ([] ++ [{| r_operation := VStr "grayscale"; r_image := s1;
                                   r_description := VStr grayscale_description;
                                   r_width := v; r_height := h |}])
                        (VRef (S (length (heap wa))))), wb)).
  { rewrite run_prefix_cons, S0. reflexivity. }
  pose proof (run_stages_transform_raises env
                [{| op_type := VStr "grayscale"; op_params := [] |}]
                {| op_type := VStr "threshold"; op_params := [("value", VInt 127)] |}
                [] _ _ _ _ _ _ (basic_ops env) "threshold" (threshold env)
                (TypeError ("BasicOperations.threshold() "
                            +:+ "got an unexpected keyword argument 'value'"))
                (noted "threshold" wb) P D1 eq_refl eq_refl) as T.
  cbn [app] in T. rewrite T. reflexivity.
Qed.

End Transforms.

(** ** Inputs and generators *)

Section Purity.
Variable env : platform.

Lemma frame_keeps n {A} (m : M A) Q w :
  frame n m Q -> n = length (heap w) ->
  forall l a, heap w !! l = Some a -> heap (m w).2 !! l = Some a.
Proof.
  intros F -> l a H. destruct (F w (le_n _)) as (_ & K & _).
  rewrite K; [exact H|]. apply lookup_lt_Some in H. exact H.
Qed.

(** C7. A transform leaves every array that exists when it is called as
    it is, its argument among them, and the arrays it returns are new; so
    does a round of the executor's loop, whose next working image is a new
    array. *)
Theorem transforms_do_not_mutate_their_input name m image params w :
  In (name, m) (all_transforms env) ->
  (forall l a, heap w !! l = Some a -> heap (m image params w).2 !! l = Some a) /\
  (forall v, (m image params w).1 = Ret v -> fresh (length (heap w)) v) /\
  (forall op results, exists s w',
      run_stage env op results image w = (Ret s, w') /\
      (forall l a, heap w !! l = Some a -> heap w' !! l = Some a) /\
      (forall results' current_img', s = Continue results' current_img' ->
         fresh (length (heap w)) current_img')).
Proof.
  intros H.
  pose proof (all_transforms_frame env _ _ H (length (heap w)) image params) as F.
  split; [|split].
  - eapply frame_keeps; [exact F|reflexivity].
  - destruct (F w (le_n _)) as (_ & _ & _ & K). exact K.
  - intros op results.
    destruct (run_stage_outcome env (length (heap w)) op results image w (le_n _))
      as (s & w' & E & _ & K & O).
    exists s, w'. split; [exact E|]. split.
    + intros l a Hl. rewrite K; [exact Hl|]. apply lookup_lt_Some in Hl. exact Hl.
    + intros results' c' ->.
      destruct O as [? Hs ?|? ? ? ? Hs ?|h nm D G I]; try discriminate.
      destruct G as (entry & c & [= _ ->] & _ & Hc). exact Hc.
Qed.

Lemma rng_free_apply (m : method) params :
  rng_free (m (VRef 0%nat) params) ->
  forall img t1 t2, apply_transform m img params t1 = apply_transform m img params t2.
Proof.
  intros R img t1 t2. unfold apply_transform.
  assert (B : rng_free (let! v := m (VRef 0%nat) params in unbox v))
    by (apply rng_free_bind; [exact R|intros; apply rng_free_unbox]).
  pose (w0 := {| heap := [img]; rng := []; invoked := [] |}).
  change {| heap := [img]; rng := t1; invoked := [] |} with (set_rng t1 w0).
  change {| heap := [img]; rng := t2; invoked := [] |} with (set_rng t2 w0).
  rewrite !B. reflexivity.
Qed.

Lemma all_transforms_rng_free name m :
  In (name, m) (all_transforms env) -> ~ In name randomized ->
  forall image params, rng_free (m image params).
Proof.
  intros H N image params. cbn in H.
  repeat (destruct H as [H|H]; [injection H as <- <-|]); try contradiction.
  all: try (exfalso; apply N; cbn; tauto).
  all: eauto using rng_free_grayscale, rng_free_negative, rng_free_threshold,
    rng_free_adjust_brightness, rng_free_adjust_contrast, rng_free_gaussian_blur,
    rng_free_median_blur, rng_free_bilateral_filter,
    rng_free_histogram_equalization, rng_free_sharpen, rng_free_retinex,
    rng_free_clahe, rng_free_fourier_transform, rng_free_frequency_filter,
    rng_free_erosion, rng_free_dilation, rng_free_opening, rng_free_closing,
    rng_free_gradient, rng_free_top_hat, rng_free_black_hat, rng_free_canny_edge,
    rng_free_sobel_edge, rng_free_contour_detection, rng_free_orb_keypoints,
    rng_free_rgb_to_hsv, rng_free_rgb_to_lab, rng_free_rgb_to_ycrcb,
    rng_free_channel_separation, rng_free_visualize_spectrum,
    rng_free_bandpass_filter, rng_free_notch_filter,
    rng_free_wiener_deconvolution.
Qed.

(** C6, amended. A transform other than watershed, inpainting,
    add_degradation and color_quantization neither reads nor advances the
    random generators: whatever their state, it returns the same image
    and description for the same image and parameters, and leaves them
    where they were. *)
Theorem transforms_without_draws_are_deterministic name m image params :
  In (name, m) (all_transforms env) ->
  ~ In name randomized ->
  rng_free (m image params) /\
  (forall w t, rng (m image params (set_rng t w)).2 = t) /\
  (forall img t1 t2,
     apply_transform m img params t1 = apply_transform m img params t2).
Proof.
  intros H N. pose proof (all_transforms_rng_free _ _ H N) as R.
  split; [apply R|]. split.
  - intros w t. rewrite (R image params w t). reflexivity.
  - apply rng_free_apply, R.
Qed.

End Purity.

(** * The theorems on concrete requests *)

(** C1: the request [negative, frequency_filter, grayscale] ends at
    stage 1 with status 500. *)
Example frequency_filter_request_fails :
  (process_image stand_in
     [op_negative;
      {| op_type := VStr "frequency_filter"; op_params := [] |};
      op_grayscale]
     sample_image empty_world).1
  = Ret {| json := Error ("Error in operation frequency_filter: "
                          +:+ "cannot unpack non-iterable NoneType object");
           status := 500 |}.
Proof. vm_compute. reflexivity. Qed.

(** C2, counterexample: in [negative, threshold(value=127), grayscale]
    stage 0 completes with an entry and stage 1 fails; the response holds
    the error and no results. *)
Lemma completed_results_are_dropped :
  (exists entry current_img w,
     run_prefix stand_in [op_negative] [] (working_copy empty_world)
       (loaded sample_image empty_world)
     = (Ret (Continue [entry] current_img), w)) /\
  failing_stage stand_in [op_negative; op_bad_threshold; op_grayscale] []
    (working_copy empty_world) (loaded sample_image empty_world) = Some 1%nat /\
  (process_image stand_in [op_negative; op_bad_threshold; op_grayscale]
     sample_image empty_world).1 = Ret bad_threshold_response /\
  response_results bad_threshold_response = [].
Proof.
  split; [|repeat split; vm_compute; reflexivity].
  eexists _, _, _. vm_compute. reflexivity.
Qed.

(** C3, on [negative, threshold(value=127), grayscale]. *)
Lemma failure_aborts_the_pipeline_witness :
  exists w' r,
    process_image stand_in ([op_negative] ++ op_bad_threshold :: [op_grayscale])
      sample_image empty_world = (Ret r, w') /\
    (exists msg, json r = Error msg) /\
    status r = 500 /\
    response_results r = [] /\
    invoked w' = invoked empty_world ++ op_names [op_negative] ++ ["threshold"].
Proof.
  eexists.
  eapply (failure_aborts_the_pipeline stand_in [op_negative] op_bad_threshold
            [op_grayscale] sample_image empty_world _ _ _
            (basic_ops stand_in) "threshold" (threshold stand_in)).
  - vm_compute. reflexivity.
  - reflexivity.
  - reflexivity.
  - vm_compute. reflexivity.
Defined.

(** C5, counterexample: the same failing operation at stage 0 and at
    stage 1 gives the same response. *)
Lemma error_carries_no_stage_index :
  failing_stage stand_in [op_bad_threshold] []
    (working_copy empty_world) (loaded sample_image empty_world) = Some 0%nat /\
  failing_stage stand_in [op_negative; op_bad_threshold] []
    (working_copy empty_world) (loaded sample_image empty_world) = Some 1%nat /\
  (process_image stand_in [op_bad_threshold] sample_image empty_world).1
  = Ret bad_threshold_response /\
  (process_image stand_in [op_negative; op_bad_threshold] sample_image empty_world).1
  = Ret bad_threshold_response.
Proof. repeat split; vm_compute; reflexivity. Qed.

(** C5, on [negative, threshold(value=127), grayscale]. *)
Lemma error_names_the_operation_witness :
  (process_image stand_in ([op_negative] ++ op_bad_threshold :: [op_grayscale])
     sample_image empty_world).1
  = Ret {| json := Error ("Error in operation " +:+ "threshold" +:+ ": "
                          +:+ str_exn (TypeError ("BasicOperations.threshold() got an "
                                +:+ "unexpected keyword argument 'value'")));
           status := 500 |} /\
  op_type op_bad_threshold = VStr "threshold".
Proof.
  eapply (error_names_the_operation stand_in [op_negative] op_bad_threshold
            [op_grayscale] sample_image empty_world _ _ _
            (basic_ops stand_in) "threshold" (threshold stand_in)).
  - vm_compute. reflexivity.
  - reflexivity.
  - reflexivity.
  - vm_compute. reflexivity.
Defined.

(** C6, counterexample: [inpainting] with the same image and parameters
    marks a different pixel when the generator stands elsewhere, and so
    does the second of two invocations in a row. *)
Lemma inpainting_differs_between_invocations :
  In ("inpainting", inpainting stand_in) (all_transforms stand_in) /\
  apply_transform (inpainting stand_in) black_1x2 one_damaged_pixel [0; 0]
  = Ret damaged_left /\
  apply_transform (inpainting stand_in) black_1x2 one_damaged_pixel [1; 0]
  = Ret damaged_right /\
  apply_twice (inpainting stand_in) black_1x2 one_damaged_pixel [0; 0; 1; 0]
  = Ret (damaged_left, damaged_right) /\
  damaged_left <> damaged_right.
Proof.
  split; [cbn; tauto|]. repeat split; try (vm_compute; reflexivity).
  discriminate.
Qed.

(** C6, amended, on [negative]. *)
Lemma transforms_without_draws_are_deterministic_witness :
  rng_free (negative stand_in (VRef 0%nat) []) /\
  (forall w t, rng (negative stand_in (VRef 0%nat) [] (set_rng t w)).2 = t) /\
  (forall img t1 t2,
     apply_transform (negative stand_in) img [] t1
     = apply_transform (negative stand_in) img [] t2).
Proof.
  apply (transforms_without_draws_are_deterministic stand_in "negative").
  - cbn. tauto.
  - cbn. intros H. repeat (destruct H as [H|H]; [discriminate H|]). exact H.
Defined.

(** C7, on [negative] and the working copy of [sample_image]. *)
Lemma transforms_do_not_mutate_their_input_witness :
  (forall l a, heap sample_world !! l = Some a ->
     heap (negative stand_in (VRef 1%nat) [] sample_world).2 !! l = Some a) /\
  (forall v, (negative stand_in (VRef 1%nat) [] sample_world).1 = Ret v ->
     fresh (length (heap sample_world)) v) /\
  (forall op results, exists s w',
      run_stage stand_in op results (VRef 1%nat) sample_world = (Ret s, w') /\
      (forall l a, heap sample_world !! l = Some a -> heap w' !! l = Some a) /\
      (forall results' current_img', s = Continue results' current_img' ->
         fresh (length (heap sample_world)) current_img')).
Proof.
  apply (transforms_do_not_mutate_their_input stand_in "negative").
  cbn. tauto.
Defined.

Lemma rectangular_repeat {A} (x : A) (h w : nat) :
  rectangular (repeat (repeat x w) h).
Proof.
  unfold rectangular. apply List.Forall_forall. intros row Hrow.
  destruct h; [destruct Hrow|]. apply repeat_spec in Hrow as ->. reflexivity.
Qed.

(** C8, counterexample: the request as the scenario writes it,
    [grayscale, threshold(value=127)].  [threshold] has no parameter
    [value]: the call raises before anything is computed, for every image,
    and the request ends at stage 2 with status 500 and no output. *)
Lemma threshold_value_keyword_is_refused :
  (forall env image w,
     threshold env image [("value", VInt 127)] w
     = (Raise (TypeError ("BasicOperations.threshold() "
                          +:+ "got an unexpected keyword argument 'value'")), w)) /\
  (process_image stand_in [op_grayscale; op_bad_threshold]
     (Color black_100x100) empty_world).1
  = Ret bad_threshold_response /\
  response_results bad_threshold_response = [].
Proof.
  split; [intros env image w; reflexivity|].
  split; [|reflexivity].
  apply (value_keyword_ends_the_request stand_in black_100x100 empty_world _
           eq_refl eq_refl).
Qed.

(** C8, on the black 100 x 100 image. *)
Lemma grayscale_then_threshold_100x100_witness :
  exists rows1 rows2 d1 d2,
    (is_100x100x3 rows1 /\
     Forall (Forall (fun p : pixel => p.1.1 = p.2 /\ p.1.2 = p.2)) rows1) /\
    (is_100x100x3 rows2 /\
     Forall (fun x => x = 0 \/ x = 255) (samples (Color rows2))) /\
    (forall l w,
       heap w !! l = Some (Color black_100x100) ->
       exists l1 w1,
         grayscale stand_in (VRef l) [] w = (Ret (VTuple [VRef l1; d1]), w1) /\
         heap w1 !! l1 = Some (Color rows1)) /\
    (forall l w,
       heap w !! l = Some (Color rows1) ->
       exists l2 w2,
         threshold stand_in (VRef l) [("threshold_value", VInt 127)] w
         = (Ret (VTuple [VRef l2; d2]), w2) /\
         heap w2 !! l2 = Some (Color rows2)) /\
    (forall w s1 s2,
       png_base64 stand_in (VArr (Color rows1)) = Ret s1 ->
       png_base64 stand_in (VArr (Color rows2)) = Ret s2 ->
       exists w',
         process_image stand_in
           [{| op_type := VStr "grayscale"; op_params := [] |};
            {| op_type := VStr "threshold";
               op_params := [("threshold_value", VInt 127)] |}]
           (Color black_100x100) w
         = (Ret {| json := Success
                     [{| r_operation := VStr "grayscale"; r_image := s1;
                         r_description := d1; r_width := 100; r_height := 100 |};
                      {| r_operation := VStr "threshold"; r_image := s2;
                         r_description := d2; r_width := 100; r_height := 100 |}];
                   status := 200 |}, w')).
Proof.
  apply (grayscale_then_threshold_100x100 stand_in black_100x100).
  split; [reflexivity|apply rectangular_repeat].
Defined.

(** C9, on [sample_image]. *)
Lemma negative_twice_is_identity_witness :
  exists l1 w1 l2 w2,
    negative stand_in (VRef 1%nat) [] sample_world
      = (Ret (VTuple [VRef l1; VStr negative_description]), w1) /\
    negative stand_in (VRef l1) [] w1
      = (Ret (VTuple [VRef l2; VStr negative_description]), w2) /\
    heap w2 !! l2 = Some sample_image /\
    heap w2 !! 1%nat = Some sample_image.
Proof.
  apply (negative_twice_is_identity stand_in 1%nat sample_image sample_world).
  - reflexivity.
  - split; [repeat constructor|cbn; repeat constructor; lia].
Defined.


(** * More on the executor *)

Section Unknown.
Variable env : platform.

Lemma existsb_eqb_false (s : string) (l : list string) :
  ~ In s l -> existsb (String.eqb s) l = false.
Proof.
  intros H. destruct (existsb (String.eqb s) l) eqn:E; [|reflexivity].
  apply existsb_exists in E as (x & Hx & Heq). apply String.eqb_eq in Heq. subst.
  contradiction.
Qed.

Lemma dispatch_unknown (op_type : pyval) :
  (forall name, op_type = VStr name -> ~ In name (known_names env)) ->
  dispatch env op_type = None.
Proof.
  intros H. unfold dispatch. destruct op_type; try reflexivity.
  destruct (find (in_dir (VStr s)) (handlers env)) as [h|] eqn:F; [|reflexivity].
  apply find_some in F as [Hin Hd]. exfalso. apply (H s eq_refl).
  unfold known_names. apply in_concat. exists (dir h). split.
  - apply in_map, Hin.
  - unfold in_dir in Hd. apply existsb_exists in Hd as (x & Hx & Heq).
    apply String.eqb_eq in Heq. subst. exact Hx.
Qed.

Lemma run_stages_unknown pre op post results0 current_img0 w0 results current_img w :
  run_prefix env pre results0 current_img0 w0
    = (Ret (Continue results current_img), w) ->
  dispatch env (op_type op) = None ->
  run_stages env (pre ++ op :: post) results0 current_img0 w0
  = (Ret {| json := Error ("Unknown operation: " +:+ py_str (op_type op));
            status := 400 |}, w).
Proof.
  intros P D. rewrite (run_stages_app _ _ _ _ _ _ _ _ _ P), run_stages_cons.
  unfold run_stage, try_except, try_stage. cbv zeta. rewrite D. reflexivity.
Qed.


Lemma unimported_unknown name m :
  In (name, m) (unimported env) -> ~ In name (known_names env).
Proof.
  intros H. cbn in H.
  repeat (destruct H as [H|H]; [injection H as <- _|]); try contradiction.
  all: intros K;
    match type of K with In ?n _ =>
      assert (E : existsb (String.eqb n) (known_names env) = true)
        by (apply existsb_exists; exists n; split; [exact K|apply String.eqb_refl])
    end;
    cbv [known_names handlers dir inherited private methods basic_ops
         advanced_ops morphological_ops segmentation_ops object_dir] in E;
    destruct (11 <=? python_minor env); destruct (13 <=? python_minor env);
    vm_compute in E; discriminate E.
Qed.

(** X2. The transforms of the classes [app.py] does not import
    (ColorProcessing, FrequencyDomain, RestorationOperations) cannot be
    requested: a request for any of them is answered with status 400 and
    [Unknown operation: <name>], and the transform is not called. *)
Theorem unimported_transforms_are_unknown name m params img w :
  In (name, m) (unimported env) ->
  process_image env [{| op_type := VStr name; op_params := params |}] img w
  = (Ret {| json := Error ("Unknown operation: " +:+ name); status := 400 |},
     loaded img w).
Proof.
  intros H. rewrite process_image_eq.
  apply (run_stages_unknown [] {| op_type := VStr name; op_params := params |} []
           [] (working_copy w) (loaded img w) [] (working_copy w) (loaded img w));
    [reflexivity|].
  apply dispatch_unknown. intros n [= <-]. eapply unimported_unknown, H.
Qed.

Lemma unpack2_world v w : (unpack2 v w).2 = w.
Proof. unfold unpack2. repeat case_match; reflexivity. Qed.

Lemma array_of_unbox v a w :
  array_of v w = (Ret a, w) -> unbox v w = (Ret (VArr a), w).
Proof.
  destruct v; cbn; try discriminate.
  - intros [= ->]. reflexivity.
  - unfold load, unbox, unbox1, bind, load.
    destruct (heap w !! l); [|discriminate]. intros [= ->]. reflexivity.
Qed.

Lemma bind_Ret_inv {A B} (m : M A) (k : A -> M B) w b w' :
  bind m k w = (Ret b, w') ->
  exists a w1, m w = (Ret a, w1) /\ k a w1 = (Ret b, w').
Proof.
  unfold bind. destruct (m w) as [[a|e] w1]; [|discriminate].
  intros H. exists a, w1. auto.
Qed.

(** X3. A stage that completes adds one entry for its operation, and
    the entry describes the image the next stage receives: [image] is the
    encoding of that array, [height] and [width] are the first two
    entries of its shape. *)
Theorem stage_entry_describes_its_output op results current_img w
    results' current_img' w' :
  run_stage env op results current_img w
    = (Ret (Continue results' current_img'), w') ->
  exists entry a,
    results' = results ++ [entry] /\
    r_operation entry = op_type op /\
    array_of current_img' w' = (Ret a, w') /\
    png_base64 env (VArr a) = Ret (r_image entry) /\
    np_shape a !! 0%nat = Some (r_height entry) /\
    np_shape a !! 1%nat = Some (r_width entry).
Proof.
  unfold run_stage, try_except. cbv zeta.
  destruct (dispatch env (op_type op)) as [[h name]|] eqn:D.
  2:{ unfold try_stage. rewrite D. cbn. discriminate. }
  rewrite (try_stage_eq _ _ _ _ _ _ _ _ D).
  destruct (bind _ _ (noted name w)) as [[s|e] w2] eqn:B; [|cbn; discriminate].
  intros [= -> ->].
  apply bind_Ret_inv in B as (r & w1 & _ & B). unfold after_call in B.
  apply bind_Ret_inv in B as (pd & w2 & U & B).
  assert (w2 = w1) as -> by (rewrite <- (unpack2_world r w1), U; reflexivity).
  cbv zeta in B.
  apply bind_Ret_inv in B as (pixels & w3 & X & B).
  apply bind_Ret_inv in B as (img_base64 & w4 & P & B).
  unfold lift in P. injection P as P <-.
  apply bind_Ret_inv in B as (shape & w5 & S & B).
  unfold shape_of in S. apply bind_Ret_inv in S as (a & w6 & A & S).
  injection S as <- <-.
  apply bind_Ret_inv in B as (width & w7 & S1 & B).
  apply bind_Ret_inv in B as (height & w8 & S0 & B).
  unfold shape_at in S1, S0.
  destruct (np_shape a !! 1%nat) as [wd|] eqn:E1; [|discriminate].
  destruct (np_shape a !! 0%nat) as [ht|] eqn:E0; [|discriminate].
  injection S1 as <- <-. injection S0 as <- <-. injection B as <- <- <-.
  assert (W : w3 = w1 /\ w6 = w1 /\ pixels = VArr a).
  { destruct pd.1 eqn:E; cbn in A; try discriminate.
    - injection A as <- <-. cbn in X. injection X as <- <-. auto.
    - unfold load in A. destruct (heap w3 !! l) eqn:L; [|discriminate].
      injection A as <- <-. cbn in X. unfold bind, load in X.
      destruct (heap w1 !! l) eqn:L1; [|discriminate].
      injection X as <- <-. rewrite L in L1. injection L1 as <-. auto. }
  destruct W as (-> & -> & ->).
  eexists _, a. split; [reflexivity|]. cbn. repeat split; auto.
Qed.

End Unknown.

(** * Keyword arguments *)

Section Keywords.
Variable env : platform.


Lemma bind_Raise {A B} (m : M A) (k : A -> M B) w e w' :
  m w = (Raise e, w') -> bind m k w = (Raise e, w').
Proof. intros H. unfold bind. rewrite H. reflexivity. Qed.


End Keywords.

(** * Parameters the transforms do not check *)

Section Fallbacks.
Variable env : platform.

Lemma same_image_bind {A} (m : M A) (k1 k2 : A -> M pyval) w :
  (forall a w', same_image (k1 a w') (k2 a w')) ->
  same_image (bind m k1 w) (bind m k2 w).
Proof.
  intros H. unfold bind. destruct (m w) as [[a|e] w']; [apply H|split; reflexivity].
Qed.

Lemma same_image_ret img d1 d2 w :
  same_image (ret (VTuple [img; d1]) w) (ret (VTuple [img; d2]) w).
Proof. split; reflexivity. Qed.

Lemma get_kernel_fallback s kernel_size :
  s <> "ellipse" -> s <> "cross" ->
  get_kernel env (VStr s) kernel_size = get_kernel env (VStr "rect") kernel_size.
Proof.
  intros He Hc. unfold get_kernel. cbn [py_eq_str].
  apply String.eqb_neq in He, Hc. rewrite He, Hc.
  destruct (String.eqb s "rect"); reflexivity.
Qed.

(** X5. The morphological transforms do not check [kernel_shape]: with
    any string other than [ellipse] and [cross] - a misspelt or
    differently cased name included - they use the rectangular kernel,
    and so return the image (or raise the exception) that
    [kernel_shape='rect'] gives, in the same world; only the description
    repeats the requested name. *)
Theorem unknown_kernel_shape_means_rect name m image params s w :
  In (name, m) (methods (morphological_ops env)) ->
  s <> "ellipse" -> s <> "cross" ->
  same_image (m image (("kernel_shape", VStr s) :: params) w)
             (m image (("kernel_shape", VStr "rect") :: params) w).
Proof.
  intros H He Hc. cbn in H.
  repeat (destruct H as [H|H]; [injection H as <- <-|]); try contradiction.
  all: match goal with |- same_image (?f env _ _ _) _ => unfold f end.
  all: rewrite (check_kwargs_value _ _ _ (VStr s) (VStr "rect")).
  all: rewrite !kwarg_here, !(kwarg_other "kernel_size") by reflexivity.
  all: try rewrite !(kwarg_other "iterations") by reflexivity.
  all: rewrite (get_kernel_fallback s _ He Hc).
  all: apply same_image_bind; intros _ w1; cbv zeta.
  all: apply same_image_bind; intros kernel w2.
  all: apply same_image_bind; intros result w3.
  all: apply same_image_ret.
Qed.

(** X6. [channel_separation] accepts the four names [RGB], [HSV], [LAB]
    and [YCrCb], spelt exactly so: for any other string it raises
    [ValueError: Unsupported color space: <name>] before it reads the
    image. *)
Theorem unsupported_color_space_is_refused image s w :
  s <> "RGB" -> s <> "HSV" -> s <> "LAB" -> s <> "YCrCb" ->
  channel_separation env image [("color_space", VStr s)] w
  = (Raise (ValueError ("Unsupported color space: " +:+ s)), w).
Proof.
  intros H1 H2 H3 H4. unfold channel_separation.
  change (check_kwargs "ColorProcessing.channel_separation" ["color_space"]
            [("color_space", VStr s)]) with (@ret unit tt).
  rewrite bind_ret_l, kwarg_here. cbn [py_eq_str py_str].
  apply String.eqb_neq in H1, H2, H3, H4. rewrite H1, H2, H3, H4. reflexivity.
Qed.

End Fallbacks.

(** * Images too small to damage *)

Section Inpainting.
Variable env : platform.

Lemma width_of_repeat {A} (x : A) (h w : nat) :
  (0 < h)%nat -> width_of (repeat (repeat x w) h) = Z.of_nat w.
Proof. destruct h; [lia|]. intros _. cbn. rewrite repeat_length. reflexivity. Qed.

Lemma randint_empty_range lo hi w :
  hi <= lo ->
  randint env (VInt lo) (VInt hi) w = (Raise (ValueError "low >= high"), w).
Proof.
  intros H. unfold randint. cbn [as_int].
  rewrite (proj2 (Z.leb_le hi lo) H). reflexivity.
Qed.

Lemma randint_in_range lo hi w :
  lo < hi ->
  exists v w', randint env (VInt lo) (VInt hi) w = (Ret (VInt v), w') /\
               heap w' = heap w /\ lo <= v < hi.
Proof.
  intros H. unfold randint. cbn [as_int].
  rewrite (proj2 (Z.leb_gt hi lo) H). unfold bind, draw.
  destruct (rng w) as [|z t]; cbn.
  - exists (lo + 0 mod (hi - lo)), w. repeat split; auto.
    + rewrite Z.mod_0_l by lia. lia.
    + rewrite Z.mod_0_l by lia. lia.
  - exists (lo + z mod (hi - lo)), (set_rng t w). repeat split; auto.
    + pose proof (Z.mod_pos_bound z (hi - lo)). lia.
    + pose proof (Z.mod_pos_bound z (hi - lo)). lia.
Qed.

(** The first round of the loop on an image at most [2 * mask_radius]
    wide or high. *)
Lemma damage_point_too_small mask r height width w :
  width <= 2 * r \/ height <= 2 * r ->
  exists w', damage_point env mask (VInt r) height width w
             = (Raise (ValueError "low >= high"), w') /\
             heap w' = heap w.
Proof.
  intros H. unfold damage_point.
  change (py_op env Sub (VInt width) (VInt r)) with (@ret pyval (VInt (width - r))).
  rewrite bind_ret_l.
  destruct (Z_le_gt_dec (width - r) r) as [Hw|Hw].
  - exists w. split; [|reflexivity].
    apply bind_Raise, randint_empty_range, Hw.
  - destruct (randint_in_range r (width - r) w) as (x & w1 & E & Hh & _); [lia|].
    rewrite (bind_Ret _ _ _ _ _ E).
    change (py_op env Sub (VInt height) (VInt r)) with (@ret pyval (VInt (height - r))).
    rewrite bind_ret_l. exists w1. split; [|exact Hh].
    apply bind_Raise, randint_empty_range. lia.
Qed.

(** X7. [inpainting] cannot damage an image that is at most
    [2 * mask_radius] pixels wide or high: asked for at least one damaged
    area, it raises [ValueError: low >= high] at the first one (with the
    default radius 20, on every image up to 40 pixels wide or high), and
    the image it was given is left as it was. *)
Theorem inpainting_needs_room l rows r n w :
  heap w !! l = Some (Color rows) ->
  is_empty (Color rows) = false ->
  1 <= n ->
  width_of rows <= 2 * r \/ Z.of_nat (length rows) <= 2 * r ->
  exists w',
    inpainting env (VRef l) [("mask_radius", VInt r); ("num_points", VInt n)] w
    = (Raise (ValueError "low >= high"), w') /\
    heap w' !! l = Some (Color rows).
Proof.
  intros Hl He Hn Hr. unfold inpainting.
  change (check_kwargs _ _ _) with (@ret unit tt). rewrite bind_ret_l.
  rewrite kwarg_here, (kwarg_other "num_points"), kwarg_here by reflexivity.
  cbv zeta.
  (* result = image.copy() *)
  set (w1 := set_heap (heap w ++ [Color rows]) w).
  assert (C : np_copy (VRef l) w = (Ret (VRef (length (heap w))), w1)).
  { unfold np_copy. rewrite (bind_Ret _ _ _ _ _ (array_of_ref _ _ _ Hl)). reflexivity. }
  rewrite (bind_Ret _ _ _ _ _ C).
  assert (Hl1 : heap w1 !! l = Some (Color rows))
    by (apply lookup_app_l_Some, Hl).
  rewrite (bind_Ret _ _ _ _ _ (shape_of_ref _ _ _ Hl1)).
  (* mask = np.zeros(image.shape[:2]) *)
  unfold is_empty in He. cbn [np_shape existsb] in He.
  apply orb_false_elim in He as [Hh He]. apply orb_false_elim in He as [Hw _].
  apply Z.eqb_neq in Hh, Hw.
  assert (Hrows : (0 < length rows)%nat) by lia.
  pose proof (Nat2Z.is_nonneg (length rows)) as Hh0.
  assert (Hw0 : 0 < width_of rows).
  { destruct rows as [|row rows']; cbn in *; lia. }
  cbn [np_shape take].
  set (zeros := Gray (repeat (repeat 0 (Z.to_nat (width_of rows)))
                        (Z.to_nat (Z.of_nat (length rows))))).
  set (w2 := set_heap (heap w1 ++ [zeros]) w1).
  assert (Z0 : np_zeros_u8 env [Z.of_nat (length rows); width_of rows] w1
               = (Ret (VRef (length (heap w1))), w2)).
  { unfold np_zeros_u8, np_full_u8.
    rewrite (proj2 (Z.ltb_ge _ 0)), (proj2 (Z.ltb_ge _ 0)) by lia. reflexivity. }
  rewrite (bind_Ret _ _ _ _ _ Z0).
  assert (Hm : heap w2 !! length (heap w1) = Some zeros) by apply lookup_new.
  rewrite (bind_Ret _ _ _ _ _ (shape_of_ref _ _ _ Hm)).
  assert (S : np_shape zeros = [Z.of_nat (length rows); width_of rows]).
  { cbn. rewrite repeat_length, width_of_repeat by lia. f_equal; [|f_equal]; lia. }
  rewrite S. cbn [unpack_shape2]. rewrite bind_ret_l. cbv zeta. cbn [fst snd].
  (* the loop *)
  unfold py_range. cbn [as_int]. rewrite bind_ret_l.
  replace (Z.to_nat (n - 0)) with (Datatypes.S (Z.to_nat (n - 1))) by lia.
  cbn [seq map for_each].
  destruct (damage_point_too_small (VRef (length (heap w1))) r
              (Z.of_nat (length rows)) (width_of rows) w2) as (w3 & D & Hh3);
    [tauto|].
  exists w3. split.
  - apply bind_Raise, bind_Raise, D.
  - rewrite Hh3. subst w2. apply lookup_app_l_Some, Hl1.
Qed.

End Inpainting.

(** * Grey conversion and thresholding, composed *)

Section Composed.
Variable env : platform.

Lemma nonempty_color rows :
  is_empty (Color rows) = false ->
  exists h v, np_shape (Color rows) = [h; v; 3] /\ h <> 0 /\ v <> 0.
Proof.
  intros E. eexists _, _. split; [reflexivity|]. unfold is_empty in E.
  cbn [np_shape existsb] in E. apply orb_false_elim in E as [E1 E].
  apply orb_false_elim in E as [E2 _]. apply Z.eqb_neq in E1, E2. lia.
Qed.

Lemma nonempty_gray2bgr g h v :
  np_shape (Gray g) = [h; v] -> h <> 0 -> v <> 0 ->
  is_empty (Color (gray2bgr g)) = false.
Proof.
  intros Hs Hh Hv. erewrite is_empty_shape; [|eapply shape_gray2bgr, Hs].
  cbn [existsb]. rewrite (proj2 (Z.eqb_neq 0 h)), (proj2 (Z.eqb_neq 0 v)) by lia.
  reflexivity.
Qed.

Lemma gray_of_gray2bgr (g : list (list Z)) :
  (forall y, 0 <= y < 256 -> luma env y y y = y) ->
  Forall (Forall (fun y => 0 <= y < 256)) g ->
  gray_of env (gray2bgr g) = g.
Proof.
  intros Hl H. unfold gray_of, gray2bgr.
  induction H as [|row rows Hrow _ IH]; cbn; [reflexivity|].
  rewrite IH. f_equal.
  induction Hrow as [|y ys Hy _ IHy]; cbn; [reflexivity|].
  rewrite IHy, Hl by assumption. reflexivity.
Qed.

Lemma gray_of_bytes rows :
  (forall b g r, 0 <= b < 256 -> 0 <= g < 256 -> 0 <= r < 256 ->
                 0 <= luma env b g r < 256) ->
  Forall (Forall px_is_u8) rows ->
  Forall (Forall (fun y => 0 <= y < 256)) (gray_of env rows).
Proof.
  intros Hl H. unfold gray_of. apply Forall_map_intro. intros row Hrow.
  apply Forall_map_intro. intros [[b g] r] Hp. cbn.
  rewrite List.Forall_forall in H. pose proof (H _ Hrow) as Hr.
  rewrite List.Forall_forall in Hr. destruct (Hr _ Hp) as [[Hb Hg] Hr']. cbn in *.
  apply Hl; assumption.
Qed.

(** X8. [grayscale] is idempotent on 8-bit colour images: applied to
    its own output it gives an image with the same samples, provided the
    library's luminance of a byte triple is a byte and that of a grey
    triple (y, y, y) is y. *)
Theorem grayscale_is_idempotent l rows w :
  (forall b g r, 0 <= b < 256 -> 0 <= g < 256 -> 0 <= r < 256 ->
                 0 <= luma env b g r < 256) ->
  (forall y, 0 <= y < 256 -> luma env y y y = y) ->
  heap w !! l = Some (Color rows) ->
  is_empty (Color rows) = false ->
  is_u8 (Color rows) ->
  exists l1 w1 l2 w2 out,
    grayscale env (VRef l) [] w
      = (Ret (VTuple [VRef l1; VStr grayscale_description]), w1) /\
    grayscale env (VRef l1) [] w1
      = (Ret (VTuple [VRef l2; VStr grayscale_description]), w2) /\
    heap w2 !! l1 = Some out /\
    heap w2 !! l2 = Some out.
Proof.
  intros Hb Hg Hl He [_ Hu].
  destruct (nonempty_color rows He) as (h & v & Hs & Hh & Hv).
  set (out := Color (gray2bgr (gray_of env rows))).
  set (w1 := set_heap (heap w ++ [Gray (gray_of env rows); out]) w).
  assert (L1 : heap w1 !! S (length (heap w)) = Some out).
  { subst w1. cbn. rewrite lookup_app_r by lia.
    replace (S (length (heap w)) - length (heap w))%nat with 1%nat by lia.
    reflexivity. }
  assert (E1 : is_empty out = false)
    by (eapply nonempty_gray2bgr; [eapply shape_gray_of, Hs|assumption|assumption]).
  pose proof (grayscale_color env _ _ _ L1 E1) as G2.
  rewrite (gray_of_gray2bgr _ Hg (gray_of_bytes _ Hb (color_samples_u8 _ Hu))) in G2.
  eexists _, w1, _, _, out. split; [apply grayscale_color; assumption|].
  split; [exact G2|]. split.
  - cbn. apply lookup_app_l_Some. exact L1.
  - cbn -[out]. rewrite lookup_app_r by lia.
    match goal with |- _ !! ?i = _ => replace i with 1%nat by lia end.
    reflexivity.
Qed.

Lemma cv_threshold_plain l rows t m ty w :
  heap w !! l = Some (Gray rows) -> is_empty (Gray rows) = false ->
  0 <= ty <= 4 -> is_int32 t = true -> is_int32 m = true ->
  cv_threshold env (VRef l) (VInt t) (VInt m) (VInt ty) w
  = (Ret (VTuple [VFloat (str_int t +:+ ".0"); VRef (length (heap w))]),
     set_heap (heap w ++ [Gray (map (map (threshold_u8 t m ty)) rows)]) w).
Proof.
  intros H E Hty Ht Hm. unfold cv_threshold.
  rewrite (bind_Ret _ _ _ _ _ (array_of_ref _ _ _ H)). rewrite E, Ht, Hm.
  rewrite (proj2 (Z.leb_le 0 ty)), (proj2 (Z.leb_le ty 4)) by lia. reflexivity.
Qed.

(** [threshold] on a non-empty colour image, with an integer threshold
    and one of the five plain types. *)
Lemma threshold_color_typed l rows t ty w :
  heap w !! l = Some (Color rows) -> is_empty (Color rows) = false ->
  0 <= ty <= 4 -> is_int32 t = true ->
  exists d,
    threshold env (VRef l)
      [("threshold_value", VInt t); ("threshold_type", VInt ty)] w
    = (Ret (VTuple [VRef (S (S (length (heap w)))); VStr d]),
       set_heap (heap w ++
         [Gray (gray_of env rows);
          Gray (map (map (threshold_u8 t 255 ty)) (gray_of env rows));
          Color (gray2bgr (map (map (threshold_u8 t 255 ty)) (gray_of env rows)))])
         w).
Proof.
  intros H E Hty Ht.
  destruct (nonempty_color rows E) as (h & v & Hs & Hh & Hv).
  assert (Eg : forall f, is_empty (Gray (map (map f) (gray_of env rows))) = false).
  { intros f. erewrite is_empty_shape;
      [|rewrite shape_map_gray; eapply shape_gray_of, Hs].
    apply nonempty_2d; assumption. }
  assert (Eg0 : is_empty (Gray (gray_of env rows)) = false).
  { erewrite is_empty_shape; [|eapply shape_gray_of, Hs].
    apply nonempty_2d; assumption. }
  eexists. unfold threshold.
  change (check_kwargs "BasicOperations.threshold" _ _) with (@ret unit tt).
  rewrite bind_ret_l. cbv zeta.
  change (kwarg "threshold_value" (VInt 127) _) with (VInt t).
  change (kwarg "max_value" (VInt 255) _) with (VInt 255).
  change (kwarg "threshold_type" (VInt THRESH_BINARY) _) with (VInt ty).
  assert (G : to_gray env (VRef l) w
              = (Ret (VRef (length (heap w))),
                 set_heap (heap w ++ [Gray (gray_of env rows)]) w)).
  { unfold to_gray. rewrite (bind_Ret _ _ _ _ _ (shape_of_ref _ _ _ H)).
    rewrite Hs. cbn [has_three_channels len length nth]. cbn.
    apply cvtColor_bgr2gray; assumption. }
  rewrite (bind_Ret _ _ _ _ _ G).
  rewrite (bind_Ret _ _ _ _ _
             (cv_threshold_plain (length (heap w)) (gray_of env rows) t 255 ty
                (set_heap (heap w ++ [Gray (gray_of env rows)]) w)
                (lookup_new _ _) Eg0 Hty Ht eq_refl)).
  cbn [unpack2]. rewrite bind_ret_l. cbn [snd].
  set (w2 := set_heap (heap (set_heap (heap w ++ [Gray (gray_of env rows)]) w) ++ _) _).
  assert (L2 : heap w2 !! length (heap (set_heap (heap w ++ [Gray (gray_of env rows)]) w))
               = Some (Gray (map (map (threshold_u8 t 255 ty)) (gray_of env rows))))
    by apply lookup_new.
  rewrite (bind_Ret _ _ _ _ _ (shape_of_ref _ _ _ L2)).
  rewrite shape_map_gray, (shape_gray_of _ _ _ _ Hs). cbn [len length].
  change (len [h; v] <? 3) with true. cbv iota.
  rewrite (bind_Ret _ _ _ _ _ (cvtColor_gray2bgr _ _ _ _ L2 (Eg _))).
  cbn [threshold_types_get as_int default]. rewrite bind_ret_l.
  unfold ret. f_equal.
  - subst w2. cbn. rewrite !length_app. cbn [length].
    replace (length (heap w) + 1 + 1)%nat with (S (S (length (heap w)))) by lia.
    reflexivity.
  - subst w2. unfold set_heap. cbn. rewrite <- !app_assoc. reflexivity.
Qed.

Lemma negative_of_binary t x :
  u8_rsub 255 (threshold_u8 t 255 THRESH_BINARY x)
  = threshold_u8 t 255 THRESH_BINARY_INV x.
Proof. unfold threshold_u8, u8_rsub. cbn. destruct (t <? x); reflexivity. Qed.

(** X9. Thresholding with [THRESH_BINARY_INV] gives the negative of
    thresholding with [THRESH_BINARY]: on a colour image, with the same
    integer threshold, one that a 32-bit [int] holds, and the default
    maximum 255, [negative] applied to the output of the binary threshold
    has exactly the samples of the inverted threshold's output. *)
Theorem inverted_threshold_is_the_negative l rows t w :
  heap w !! l = Some (Color rows) ->
  is_empty (Color rows) = false ->
  -2147483648 <= t <= 2147483647 ->
  exists l1 d1 w1 l2 w2 l3 d3 w3 out,
    threshold env (VRef l)
      [("threshold_value", VInt t); ("threshold_type", VInt THRESH_BINARY)] w
      = (Ret (VTuple [VRef l1; VStr d1]), w1) /\
    negative env (VRef l1) [] w1
      = (Ret (VTuple [VRef l2; VStr negative_description]), w2) /\
    threshold env (VRef l)
      [("threshold_value", VInt t); ("threshold_type", VInt THRESH_BINARY_INV)] w
      = (Ret (VTuple [VRef l3; VStr d3]), w3) /\
    heap w2 !! l2 = Some out /\
    heap w3 !! l3 = Some out.
Proof.
  intros H E Hr.
  assert (Ht : is_int32 t = true).
  { unfold is_int32. apply andb_true_intro. split; apply Z.leb_le; lia. }
  destruct (threshold_color_typed l rows t THRESH_BINARY w H E) as (d1 & T1);
    [unfold THRESH_BINARY; lia|exact Ht|].
  destruct (threshold_color_typed l rows t THRESH_BINARY_INV w H E) as (d3 & T3);
    [unfold THRESH_BINARY_INV; lia|exact Ht|].
  set (w1 := set_heap _ w) in T1. set (w3 := set_heap _ w) in T3.
  set (T := map (map (threshold_u8 t 255 THRESH_BINARY)) (gray_of env rows)) in *.
  assert (L1 : heap w1 !! S (S (length (heap w))) = Some (Color (gray2bgr T))).
  { subst w1. cbn. rewrite lookup_app_r by lia.
    replace (S (S (length (heap w))) - length (heap w))%nat with 2%nat by lia.
    reflexivity. }
  assert (N : negative env (VRef (S (S (length (heap w))))) [] w1
              = (Ret (VTuple [VRef (length (heap w1)); VStr negative_description]),
                 set_heap (heap w1 ++
                   [Color (map (map (map_px (u8_rsub 255))) (gray2bgr T))]) w1)).
  { unfold negative, np_rsub, bind, array_of. cbn -[w1 T].
    rewrite (load_Some _ _ _ L1). reflexivity. }
  eexists _, d1, w1, _, _, _, d3, w3, _.
  split; [exact T1|]. split; [exact N|]. split; [exact T3|]. split.
  - cbn -[w1 T]. apply lookup_new.
  - subst w3. cbn -[T]. rewrite lookup_app_r by lia.
    replace (S (S (length (heap w))) - length (heap w))%nat with 2%nat by lia.
    cbn -[T]. f_equal. f_equal. subst T. unfold gray2bgr.
    rewrite !map_map. apply map_ext. intros row. rewrite !map_map.
    apply map_ext. intros x. rewrite <- negative_of_binary. reflexivity.
Qed.

End Composed.

(** * The description of the notch filter *)

Section Notch.
Variable env : platform.

Lemma returns_bind_post {A B} (m : M A) (k : A -> M B) (P : A -> Prop) (Q : B -> Prop) :
  returns m P -> (forall a, P a -> returns (k a) Q) -> returns (bind m k) Q.
Proof.
  intros Hm Hk w b. unfold bind. destruct (m w) as [[a|e] w'] eqn:E; [|discriminate].
  apply Hk. apply (Hm w). rewrite E. reflexivity.
Qed.

Lemma subtract_None_never_returns c :
  (forall a, exists e, lib env "-" [a; VNone] = Raise e) ->
  returns (py_op env Sub (VInt c) VNone) (fun _ => False).
Proof.
  intros H w v. destruct (H (VInt c)) as [e E].
  unfold py_op, call, bind, lift. cbn. rewrite E. discriminate.
Qed.

(** X10. When [notch_filter] returns, its description says the notch
    positions were [manually specified], also when they were detected
    automatically: the test [notch_x is None] comes after [notch_x] has
    been given the detected position (subtracting [None] from an integer
    being an error, as it is in Python). *)
Theorem notch_filter_always_says_manual image params :
  (forall a, exists e, lib env "-" [a; VNone] = Raise e) ->
  returns (notch_filter env image params) (says_notch_mode "manually specified").
Proof.
  intros H. unfold notch_filter.
  do 6 (apply returns_bind; intros ?; cbv zeta).
  destruct (is_none a4.2.1) eqn:N.
  - destruct a4.2.1; try discriminate.
    eapply returns_bind_post; [apply subtract_None_never_returns, H|].
    intros ? [].
  - repeat (first [ apply returns_bind; intros ? | progress cbv zeta ]).
    apply returns_ret. unfold says_notch_mode. eauto 10.
Qed.

End Notch.

(** * Which file names are accepted *)

Lemma append_nil (t : string) : EmptyString +:+ t = t.
Proof. reflexivity. Qed.

Lemma append_cons c (s t : string) : String c s +:+ t = String c (s +:+ t).
Proof. reflexivity. Qed.

Lemma contains_app sep s t :
  contains sep (s +:+ t) = contains sep s || contains sep t.
Proof.
  induction s as [|c s IH]; [reflexivity|].
  rewrite append_cons. cbn. rewrite IH, orb_assoc. reflexivity.
Qed.

Lemma rsplit1_none sep s : contains sep s = false -> rsplit1 sep s = [s].
Proof.
  induction s as [|c s IH]; cbn; [reflexivity|].
  intros H. apply orb_false_elim in H as [Hc Hs]. rewrite (IH Hs), Hc. reflexivity.
Qed.

Lemma rsplit1_last sep stem ext :
  contains sep ext = false ->
  rsplit1 sep (stem +:+ String sep ext) = [stem; ext].
Proof.
  intros H. induction stem as [|c stem IH].
  - rewrite append_nil. cbn. rewrite (rsplit1_none _ _ H), Ascii.eqb_refl. reflexivity.
  - rewrite append_cons. cbn. rewrite IH. reflexivity.
Qed.

(** A name with a separator is cut at the last one. *)
Lemma rsplit1_some sep s :
  contains sep s = true ->
  exists stem ext, s = stem +:+ String sep ext /\ contains sep ext = false.
Proof.
  induction s as [|c s IH]; cbn; [discriminate|].
  destruct (contains sep s) eqn:Hs.
  - intros _. destruct (IH eq_refl) as (stem & ext & -> & He).
    exists (String c stem), ext. auto.
  - rewrite orb_false_r. intros Hc. apply Ascii.eqb_eq in Hc as ->.
    exists EmptyString, s. auto.
Qed.

Lemma lower_ascii_dot c : Ascii.eqb (lower_ascii c) "." = Ascii.eqb c ".".
Proof.
  unfold lower_ascii.
  destruct ((65 <=? nat_of_ascii c)%nat && (nat_of_ascii c <=? 90)%nat) eqn:E;
    [|reflexivity].
  apply andb_prop in E as [E1 E2]. apply Nat.leb_le in E1, E2.
  assert (H1 : Ascii.eqb c "." = false).
  { apply Ascii.eqb_neq. intros ->.
    change (nat_of_ascii ".") with 46%nat in E1. lia. }
  rewrite H1. apply Ascii.eqb_neq. intros H.
  apply (f_equal nat_of_ascii) in H. rewrite nat_ascii_embedding in H by lia.
  change (nat_of_ascii ".") with 46%nat in H. lia.
Qed.

Lemma contains_lower s : contains "." (lower s) = contains "." s.
Proof.
  induction s as [|c s IH]; cbn; [reflexivity|].
  rewrite IH, lower_ascii_dot. reflexivity.
Qed.

Lemma allowed_extension_no_dot x :
  is_allowed_extension x = true -> contains "." x = false.
Proof.
  unfold is_allowed_extension, ALLOWED_EXTENSIONS. cbn [existsb].
  intros H. repeat (apply orb_prop in H as [H|H]);
    try (apply String.eqb_eq in H as ->; reflexivity).
  discriminate.
Qed.

(** X11. [allowed_file] never raises, and it accepts a name exactly when
    the text after the name's last dot is, letter case aside, one of
    png, jpg, jpeg, bmp, tif, tiff: whatever comes before that dot -
    other dots and extensions included - plays no part, and a name with
    no dot is refused. *)
Theorem allowed_file_looks_at_the_last_extension filename :
  (exists b, allowed_file filename = Ret b) /\
  (allowed_file filename = Ret true <->
   exists stem ext,
     filename = stem +:+ "." +:+ ext /\ is_allowed_extension (lower ext) = true).
Proof.
  unfold allowed_file. destruct (contains "." filename) eqn:C.
  - destruct (rsplit1_some _ _ C) as (stem & ext & -> & He).
    rewrite (rsplit1_last _ _ _ He). cbn [py_index lookup list_lookup].
    split; [eauto|]. split.
    + intros [= H]. exists stem, ext. auto.
    + intros (stem' & ext' & E & H). f_equal.
      pose proof (allowed_extension_no_dot _ H) as Hd. rewrite contains_lower in Hd.
      assert (R : rsplit1 "." (stem' +:+ "." +:+ ext') = [stem'; ext'])
        by (apply rsplit1_last, Hd).
      rewrite <- E, (rsplit1_last _ _ _ He) in R. injection R as _ <-. exact H.
  - split; [eauto|]. split; [discriminate|].
    intros (stem & ext & -> & _). rewrite contains_app in C. cbn in C.
    rewrite orb_true_r in C. discriminate.
Qed.

(** * What the server says it can do *)

(** The names a class lists once those with a leading underscore are
    dropped do not depend on the version of the interpreter. *)
Ltac public_by_version env :=
  cbv [public_names sorted_dir dir inherited private methods basic_ops
       advanced_ops morphological_ops segmentation_ops object_dir];
  destruct (11 <=? python_minor env); destruct (13 <=? python_minor env);
  reflexivity.

Section Available.
Variable env : platform.

Lemma public_names_basic :
  public_names (basic_ops env)
  = ["adjust_brightness"; "adjust_contrast"; "bilateral_filter"; "gaussian_blur";
     "grayscale"; "histogram_equalization"; "median_blur"; "negative"; "sharpen";
     "threshold"].
Proof. public_by_version env. Qed.

Lemma public_names_advanced :
  public_names (advanced_ops env)
  = ["clahe"; "fourier_transform"; "frequency_filter"; "retinex"].
Proof. public_by_version env. Qed.

Lemma public_names_morphological :
  public_names (morphological_ops env)
  = ["black_hat"; "closing"; "dilation"; "erosion"; "gradient"; "opening"; "top_hat"].
Proof. public_by_version env. Qed.

Lemma public_names_segmentation :
  public_names (segmentation_ops env)
  = ["canny_edge"; "contour_detection"; "orb_keypoints"; "sobel_edge"; "watershed"].
Proof. public_by_version env. Qed.

(** X12. Every category of [/get_available_operations] lists exactly
    the transforms of its handler - no inherited attribute, no private
    helper - and [/process] dispatches each listed operation to that same
    handler. *)
Theorem listed_operations_are_the_transforms category names :
  In (category, names) (av_operations (get_available_operations env)) ->
  exists h,
    category_module env category = Some h /\
    In h (handlers env) /\
    (forall name, In name names <-> In name (map fst (methods h))) /\
    (forall name, In name names -> dispatch env (VStr name) = Some (h, name)).
Proof.
  intros H. cbn [get_available_operations av_operations In] in H.
  rewrite public_names_basic, public_names_advanced, public_names_morphological,
    public_names_segmentation in H.
  destruct H as [H|[H|[H|[H|[]]]]]; injection H as <- <-.
  - exists (basic_ops env). split; [reflexivity|]. split; [cbn; tauto|]. split.
    + intros name. cbn. tauto.
    + intros name Hn. cbn in Hn.
      repeat (destruct Hn as [<-|Hn]; [dispatch_by_version env|]). contradiction.
  - exists (advanced_ops env). split; [reflexivity|]. split; [cbn; tauto|]. split.
    + intros name. cbn. tauto.
    + intros name Hn. cbn in Hn.
      repeat (destruct Hn as [<-|Hn]; [dispatch_by_version env|]). contradiction.
  - exists (morphological_ops env). split; [reflexivity|]. split; [cbn; tauto|]. split.
    + intros name. cbn. tauto.
    + intros name Hn. cbn in Hn.
      repeat (destruct Hn as [<-|Hn]; [dispatch_by_version env|]). contradiction.
  - exists (segmentation_ops env). split; [reflexivity|]. split; [cbn; tauto|]. split.
    + intros name. cbn. tauto.
    + intros name Hn. cbn in Hn.
      repeat (destruct Hn as [<-|Hn]; [dispatch_by_version env|]). contradiction.
Qed.

(** X13. [operation_details] is keyed by operation name alone; no name
    occurs under two categories, so it holds one entry for each listed
    operation and no other, in listing order: the entry gives the
    operation's category and the first line of its docstring, which is
    not empty, and its [parameters] are empty. *)
Theorem operation_details_cover_the_listing :
  map fst (av_operation_details (get_available_operations env))
  = concat (map snd (av_operations (get_available_operations env))) /\
  NoDup (map fst (av_operation_details (get_available_operations env))) /\
  (forall category names name,
     In (category, names) (av_operations (get_available_operations env)) ->
     In name names ->
     exists h,
       category_module env category = Some h /\
       dict_get name (av_operation_details (get_available_operations env))
       = Some {| info_category := category;
                 info_description := doc_summary h name;
                 info_parameters := [] |} /\
       doc_summary h name <> "").
Proof.
  unfold get_available_operations. cbv zeta.
  rewrite public_names_basic, public_names_advanced, public_names_morphological,
    public_names_segmentation.
  split; [reflexivity|]. split.
  - apply (bool_decide_unpack _). vm_compute. exact I.
  - intros category names name H Hn.
    cbn [av_operations In] in H.
    destruct H as [H|[H|[H|[H|[]]]]]; injection H as <- <-; cbn in Hn;
      repeat (destruct Hn as [<-|Hn];
              [eexists; split; [reflexivity|]; split; [reflexivity|discriminate]|]);
      contradiction.
Qed.

End Available.

(** * The routes that touch the disk *)

Lemma and_then_Ok {A B} (m : R A) (k : A -> R B) s a s' :
  m s = (Ok a, s') -> and_then m k s = k a s'.
Proof. intros H. unfold and_then. rewrite H. reflexivity. Qed.

Lemma and_then_Fail {A B} (m : R A) (k : A -> R B) s f s' :
  m s = (Fail f, s') -> and_then m k s = (Fail f, s').
Proof. intros H. unfold and_then. rewrite H. reflexivity. Qed.

Lemma path_join_absolute a b : String.prefix "/" b = true -> path_join a b = b.
Proof. intros H. unfold path_join. rewrite H. reflexivity. Qed.

Lemma path_join_upload name :
  String.prefix "/" name = false ->
  path_join UPLOAD_FOLDER name = "static/uploads/" +:+ name.
Proof. intros H. unfold path_join. rewrite H. reflexivity. Qed.

Lemma allowed_file_nonempty filename :
  allowed_file filename = Ret true -> String.eqb filename "" = false.
Proof. destruct filename; [discriminate|reflexivity]. Qed.

Lemma disk_lookup_insert (d : disk) p n : <[p := n]> d !! p = Some n.
Proof. apply lookup_insert_eq. Qed.

Lemma disk_delete_insert (d : disk) p n : d !! p = None -> delete p (<[p := n]> d) = d.
Proof. apply delete_insert_id. Qed.

(** An entry of the disk is what its own path leads to. *)
Lemma at_path_entry (d : disk) p n : d !! p = Some n -> at_path d p = Some n.
Proof. intros H. unfold at_path. rewrite H. reflexivity. Qed.

Section Uploads.
Variable env : platform.
Variable sys : host.

(** The part of [upload_file] up to the saved file being read back. *)
Lemma upload_file_saved filename content s :
  allowed_file filename = Ret true ->
  is_directory (files s) (dirname (saved_path sys filename (issued s))) = true ->
  files s !! saved_path sys filename (issued s) = None ->
  upload_file sys (one_file filename content) s
  = (let path := saved_path sys filename (issued s) in
     let s1 := {| files := <[path := File content]> (files s);
                  issued := S (issued s);
                  memory := memory s |} in
     match imdecode sys content with
     | None =>
         (Ok {| body_of := ErrorBody "Invalid image file"; code := 400 |},
          set_files (delete path (files s1)) s1)
     | Some img =>
         (do! img_base64 := of_outcome
                (encode_base64 sys (splitext (secure_filename sys filename)).2 img) in
          do! width := shape_entry img 1 in
          do! height := shape_entry img 0 in
          done {| body_of := Uploaded (saved_name sys filename (issued s))
                               img_base64 width height;
                  code := 200 |}) s1
     end).
Proof.
  intros Ha Hd Hn. unfold upload_file.
  change (find _ (one_file filename content))
    with (Some ("file", {| up_filename := filename; up_content := content |})).
  cbv iota. cbn [up_filename up_content].
  rewrite (allowed_file_nonempty _ Ha), Ha.
  unfold of_outcome at 1. unfold and_then at 1. unfold and_then at 1.
  unfold uuid4 at 1. cbv zeta.
  fold (saved_name sys filename (issued s)).
  fold (saved_path sys filename (issued s)).
  set (path := saved_path sys filename (issued s)) in *.
  unfold and_then at 1. unfold write_file at 1. cbn [files].
  rewrite Hd, Hn. cbn [negb].
  unfold and_then at 1. unfold imread at 1. unfold set_files. cbn [files issued memory].
  rewrite (at_path_entry _ _ _ (disk_lookup_insert _ _ _)).
  destruct (imdecode sys content) as [img|]; [reflexivity|].
  unfold and_then, remove_file, done. cbn [files]. rewrite disk_lookup_insert. reflexivity.
Qed.

(** X14. An upload is kept only if it can be read back as an image:
    when the saved file does not decode, [upload_file] removes it again
    and answers 400 [Invalid image file]; the upload's name being new on
    the disk, the disk is then exactly as it was before the request. *)
Theorem undecodable_upload_leaves_no_file filename content s :
  allowed_file filename = Ret true ->
  is_directory (files s) (dirname (saved_path sys filename (issued s))) = true ->
  files s !! saved_path sys filename (issued s) = None ->
  imdecode sys content = None ->
  exists s',
    upload_file sys (one_file filename content) s
    = (Ok {| body_of := ErrorBody "Invalid image file"; code := 400 |}, s') /\
    files s' = files s.
Proof.
  intros Ha Hd Hn Hi. rewrite (upload_file_saved _ _ _ Ha Hd Hn). cbv zeta.
  rewrite Hi. eexists. split; [reflexivity|].
  cbn. rewrite disk_delete_insert by exact Hn. reflexivity.
Qed.

(** X15. [upload_file] has no handler around the encoding of its
    reply: when [cv2.imencode] refuses the extension of the secured name
    (the empty one, say), the exception leaves the route - no JSON error
    is returned - and the file saved for the request stays on the disk. *)
Theorem failed_encoding_leaves_the_upload filename content img e s :
  allowed_file filename = Ret true ->
  is_directory (files s) (dirname (saved_path sys filename (issued s))) = true ->
  files s !! saved_path sys filename (issued s) = None ->
  imdecode sys content = Some img ->
  encode_base64 sys (splitext (secure_filename sys filename)).2 img = Raise e ->
  exists s',
    upload_file sys (one_file filename content) s = (Fail (PyError e), s') /\
    files s' !! saved_path sys filename (issued s) = Some (File content).
Proof.
  intros Ha Hd Hn Hi He. rewrite (upload_file_saved _ _ _ Ha Hd Hn). cbv zeta.
  rewrite Hi. eexists. split.
  - apply and_then_Fail. unfold of_outcome. rewrite He. reflexivity.
  - cbn. apply disk_lookup_insert.
Qed.

(** X16. [/process] joins the upload folder and the request's
    [filename] without checking the name: an absolute [filename] is used
    as it is, so the route reads that very file, wherever on the disk it
    is, and runs the pipeline on it. *)
Theorem process_reads_absolute_paths filename operations content img s :
  String.prefix "/" filename = true ->
  files s !! filename = Some (File content) ->
  imdecode sys content = Some img ->
  process_route env sys
    (Some {| pb_filename := Some filename; pb_operations := Some operations |}) s
  = run_pipeline env operations img s.
Proof.
  intros Hp Hf Hi. unfold process_route. cbv zeta.
  rewrite (path_join_absolute _ _ Hp).
  unfold and_then at 1. unfold path_exists at 1.
  rewrite (at_path_entry _ _ _ Hf).
  rewrite bool_decide_true by eauto. cbn [negb].
  unfold and_then, imread. rewrite (at_path_entry _ _ _ Hf), Hi. reflexivity.
Qed.

End Uploads.

(** ** Strings and paths *)

Lemma prefix_cut (pre p : string) :
  String.prefix pre p = true ->
  p = pre +:+ substring (String.length pre) (String.length p - String.length pre) p.
Proof.
  revert p. induction pre as [|c pre IH]; intros p H.
  - cbn [String.length]. rewrite Nat.sub_0_r. rewrite append_nil.
    clear H. induction p as [|x p IHp]; [reflexivity|].
    cbn. f_equal. exact IHp.
  - destruct p as [|x p]; [discriminate|]. cbn -[Ascii.ascii_dec] in H.
    destruct (Ascii.ascii_dec c x) as [->|]; [|discriminate].
    rewrite append_cons. cbn [String.length substring Nat.sub]. f_equal. apply IH, H.
Qed.

Lemma prefix_self (pre rest : string) : String.prefix pre (pre +:+ rest) = true.
Proof.
  induction pre as [|c pre IH]; [destruct rest; reflexivity|].
  rewrite append_cons. cbn -[Ascii.ascii_dec].
  destruct (Ascii.ascii_dec c c); [exact IH|congruence].
Qed.

Lemma length_append (a b : string) :
  String.length (a +:+ b) = (String.length a + String.length b)%nat.
Proof.
  induction a as [|c a IH]; [reflexivity|]. rewrite append_cons. cbn. rewrite IH.
  reflexivity.
Qed.

Lemma substring_all (s : string) : substring 0 (String.length s) s = s.
Proof. induction s as [|c s IH]; [reflexivity|]. cbn. rewrite IH. reflexivity. Qed.

Lemma substring_after (pre rest : string) :
  substring (String.length pre)
    (String.length (pre +:+ rest) - String.length pre) (pre +:+ rest) = rest.
Proof.
  rewrite length_append.
  replace (String.length pre + String.length rest - String.length pre)%nat
    with (String.length rest) by lia.
  induction pre as [|c pre IH]; [apply substring_all|].
  rewrite append_cons. cbn. exact IH.
Qed.

Lemma no_slash_not_absolute name :
  contains "/" name = false -> String.prefix "/" name = false.
Proof.
  destruct name as [|c name]; [reflexivity|]. intros H.
  cbn -[Ascii.ascii_dec] in *. apply orb_false_elim in H as [H _].
  destruct (Ascii.ascii_dec "/" c) as [<-|]; [discriminate|reflexivity].
Qed.

(** An entry of the upload folder and its path. *)
Lemma child_name_Some p name :
  child_name UPLOAD_FOLDER p = Some name ->
  p = "static/uploads/" +:+ name /\ String.eqb name "" = false
  /\ contains "/" name = false.
Proof.
  unfold child_name. cbv zeta.
  change (UPLOAD_FOLDER +:+ "/") with "static/uploads/".
  destruct (String.prefix "static/uploads/" p) eqn:P; [|discriminate].
  destruct (_ || _) eqn:E; [discriminate|]. intros [= <-].
  apply orb_false_elim in E as [E1 E2]. split; [|split; assumption].
  apply prefix_cut, P.
Qed.

Lemma child_name_entry name :
  String.eqb name "" = false -> contains "/" name = false ->
  child_name UPLOAD_FOLDER ("static/uploads/" +:+ name) = Some name.
Proof.
  intros H1 H2. unfold child_name. cbv zeta.
  change (UPLOAD_FOLDER +:+ "/") with "static/uploads/".
  rewrite prefix_self, substring_after, H1, H2. reflexivity.
Qed.

Lemma entry_path name :
  contains "/" name = false ->
  path_join UPLOAD_FOLDER name = "static/uploads/" +:+ name.
Proof. intros H. apply path_join_upload, no_slash_not_absolute, H. Qed.

(** ** What a path leads to *)

Lemma split_on_none sep s : contains sep s = false -> split_on sep s = [s].
Proof.
  induction s as [|c s IH]; cbn; [reflexivity|].
  intros H. apply orb_false_elim in H as [Hc Hs]. rewrite (IH Hs), Hc. reflexivity.
Qed.

Lemma split_upload_entry name :
  contains "/" name = false ->
  split_on "/" ("static/uploads/" +:+ name) = ["static"; "uploads"; name].
Proof.
  intros H. rewrite !append_cons, append_nil. cbn [split_on].
  rewrite (split_on_none _ _ H). reflexivity.
Qed.

Lemma holds_directory_entry (d : disk) p c :
  String.eqb (rstrip_slash p) "" = false ->
  forallb (String.eqb "..") (split_on "/" p) = false ->
  holds_directory d p = true -> d !! p <> Some (File c).
Proof.
  intros H1 H2. unfold holds_directory, is_directory. rewrite H1, H2.
  destruct (d !! p) as [[?|]|]; cbn; congruence.
Qed.

(** A name the upload folder does not list leads to no regular file. *)
Lemma missing_entry_is_no_file (d : disk) name :
  contains "/" name = false ->
  d !! ("static/uploads/" +:+ name) = None ->
  match at_path d ("static/uploads/" +:+ name) with
  | Some (File _) => true
  | _ => false
  end = false.
Proof.
  intros Hs Hn. unfold at_path. rewrite Hn.
  rewrite (split_upload_entry _ Hs).
  change (String.eqb ("static/uploads/" +:+ name) "") with false.
  change (String.prefix "/" ("static/uploads/" +:+ name)) with false.
  cbv iota. cbn [walk].
  change (holds_directory d "") with true. cbv iota.
  change (String.eqb "static" "" || String.eqb "static" ".") with false.
  change (String.eqb "static" "..") with false. cbv iota.
  change (path_join "" "static") with "static".
  destruct (holds_directory d "static") eqn:D1; [|reflexivity].
  change (String.eqb "uploads" "" || String.eqb "uploads" ".") with false.
  change (String.eqb "uploads" "..") with false. cbv iota.
  change (path_join "static" "uploads") with "static/uploads".
  destruct (holds_directory d "static/uploads") eqn:D2; [|reflexivity].
  destruct (String.eqb name "" || String.eqb name ".").
  - pose proof (holds_directory_entry d "static/uploads") as N.
    destruct (d !! "static/uploads") as [[c|]|]; [|reflexivity|rewrite D2; reflexivity].
    exfalso. apply (N c); auto.
  - destruct (String.eqb name "..").
    + change (parent "static/uploads") with "static".
      pose proof (holds_directory_entry d "static") as N.
      destruct (d !! "static") as [[c|]|]; [|reflexivity|rewrite D1; reflexivity].
      exfalso. apply (N c); auto.
    + unfold path_join. rewrite (no_slash_not_absolute _ Hs).
      change (String.eqb "static/uploads" "" || bool_decide (last_char "static/uploads" = Some "/"%char)) with false.
      cbv iota. change ("static/uploads" +:+ "/" +:+ name) with ("static/uploads/" +:+ name).
      rewrite Hn. destruct (holds_directory d ("static/uploads/" +:+ name)); reflexivity.
Qed.

(** ** Clearing the upload folder *)

Section Clearing.

Lemma clear_one_spec filename s :
  contains "/" filename = false ->
  exists s',
    clear_one filename s = (Ok tt, s') /\
    issued s' = issued s /\ memory s' = memory s /\
    (forall p,
       files s' !! p
       = if decide (p = path_join UPLOAD_FOLDER filename)
         then match files s !! p with Some (File _) => None | o => o end
         else files s !! p).
Proof.
  intros Hs. unfold clear_one, and_then, isfile, remove_file. cbv zeta.
  rewrite (path_join_upload _ (no_slash_not_absolute _ Hs)).
  set (path := "static/uploads/" +:+ filename).
  destruct (files s !! path) as [[c|]|] eqn:E.
  - rewrite (at_path_entry _ _ _ E). cbn. rewrite E.
    eexists. split; [reflexivity|]. cbn. split; [reflexivity|]. split; [reflexivity|].
    intros p. destruct (decide (p = path)) as [->|N].
    + rewrite E. apply lookup_delete_eq.
    + apply lookup_delete_ne. congruence.
  - rewrite (at_path_entry _ _ _ E). cbn.
    eexists. split; [reflexivity|]. split; [reflexivity|]. split; [reflexivity|].
    intros p. destruct (decide (p = path)) as [->|N]; [rewrite E|]; reflexivity.
  - pose proof (missing_entry_is_no_file _ _ Hs E) as M. fold path in M. rewrite M. cbn.
    eexists. split; [reflexivity|]. split; [reflexivity|]. split; [reflexivity|].
    intros p. destruct (decide (p = path)) as [->|N]; [rewrite E|]; reflexivity.
Qed.

Lemma each_clear_spec names s :
  Forall (fun name => contains "/" name = false) names ->
  exists s',
    each names clear_one s = (Ok tt, s') /\
    issued s' = issued s /\ memory s' = memory s /\
    (forall p,
       files s' !! p
       = if decide (p ∈ path_join UPLOAD_FOLDER <$> names)
         then match files s !! p with Some (File _) => None | o => o end
         else files s !! p).
Proof.
  intros Hs. revert s. induction Hs as [|n names Hn _ IH]; intros s.
  - exists s. repeat split; auto.
  - cbn [each]. destruct (clear_one_spec n s Hn) as (s1 & E1 & I1 & M1 & F1).
    rewrite (and_then_Ok _ _ _ _ _ E1).
    destruct (IH s1) as (s' & E & I & M & F).
    exists s'. split; [exact E|]. split; [congruence|]. split; [congruence|].
    intros p. rewrite F, F1, fmap_cons.
    destruct (decide (p ∈ path_join UPLOAD_FOLDER <$> names)) as [Hin|Hin];
      destruct (decide (p = path_join UPLOAD_FOLDER n)) as [->|Hp].
    + rewrite decide_True by (apply elem_of_cons; auto).
      destruct (files s !! _) as [[?|]|]; reflexivity.
    + rewrite decide_True by (apply elem_of_cons; auto). reflexivity.
    + rewrite decide_True by (apply elem_of_cons; auto). reflexivity.
    + rewrite decide_False by (intros [?|?]%elem_of_cons; congruence). reflexivity.
Qed.

(** The names [os.listdir] gives are those of the entries on the disk. *)
Lemma listed_paths (d : disk) p :
  p ∈ path_join UPLOAD_FOLDER <$>
        omap (fun pn : string * node => child_name UPLOAD_FOLDER pn.1)
             (map_to_list d)
  <-> (exists name, child_name UPLOAD_FOLDER p = Some name) /\ is_Some (d !! p).
Proof.
  rewrite list_elem_of_fmap. split.
  - intros (name & -> & Hin). apply list_elem_of_omap in Hin.
    destruct Hin as ([q n] & Hq & Hc). cbn in Hc.
    apply elem_of_map_to_list in Hq.
    destruct (child_name_Some _ _ Hc) as (-> & H1 & H2).
    rewrite (entry_path _ H2). split; [eauto|]. eauto.
  - intros [(name & Hc) [n Hn]].
    destruct (child_name_Some _ _ Hc) as (-> & H1 & H2).
    exists name. split; [symmetry; apply entry_path, H2|].
    apply list_elem_of_omap.
    exists ("static/uploads/" +:+ name, n). split; [|exact Hc].
    apply elem_of_map_to_list, Hn.
Qed.

(** X17. [clear_uploads], when the upload folder is there, answers
    with success and removes exactly the regular files that are entries
    of the folder: subdirectories, what they hold and everything else on
    the disk stay as they were. *)
Theorem clear_uploads_removes_the_files s :
  files s !! UPLOAD_FOLDER = Some Directory ->
  exists s',
    clear_uploads s = (Ok {| body_of := Cleared; code := 200 |}, s') /\
    issued s' = issued s /\ memory s' = memory s /\
    (forall p,
       files s' !! p = if is_upload (files s) p then None else files s !! p).
Proof.
  intros Hd. unfold clear_uploads, try_route.
  unfold and_then at 1. unfold listdir at 1. rewrite Hd.
  destruct (each_clear_spec
              (omap (fun pn : string * node => child_name UPLOAD_FOLDER pn.1)
                    (map_to_list (files s))) s) as (s' & E & I & M & F).
  { apply List.Forall_forall. intros name Hin. apply list_elem_of_In in Hin.
    apply list_elem_of_omap in Hin as (pn & _ & Hc).
    apply child_name_Some in Hc as (_ & _ & Hc). exact Hc. }
  rewrite (and_then_Ok _ _ _ _ _ E).
  exists s'. split; [reflexivity|]. split; [exact I|]. split; [exact M|].
  intros p. rewrite F. unfold is_upload.
  destruct (decide _) as [Hin|Hin].
  - apply listed_paths in Hin as [(name & ->) _].
    destruct (files s !! p) as [[?|]|]; reflexivity.
  - destruct (child_name UPLOAD_FOLDER p) as [name|] eqn:C; [|reflexivity].
    destruct (files s !! p) as [n|] eqn:L; [|reflexivity].
    exfalso. apply Hin, listed_paths. split; [eauto|]. rewrite L. eauto.
Qed.

End Clearing.

(** ** Saving a processed image *)

Lemma split_on_two sep a b :
  contains sep a = false -> contains sep b = false ->
  split_on sep (a +:+ String sep b) = [a; b].
Proof.
  intros Ha Hb. induction a as [|c a IH].
  - rewrite append_nil. cbn. rewrite (split_on_none _ _ Hb), Ascii.eqb_refl. reflexivity.
  - rewrite append_cons. cbn in Ha |- *. apply orb_false_elim in Ha as [Hc Ha].
    rewrite (IH Ha), Hc. reflexivity.
Qed.

Lemma prefix_append (pre a b : string) :
  String.prefix pre a = true -> String.prefix pre (a +:+ b) = true.
Proof.
  revert a. induction pre as [|c pre IH]; intros a H; [destruct (a +:+ b); reflexivity|].
  destruct a as [|x a]; [discriminate|]. rewrite append_cons.
  cbn -[Ascii.ascii_dec] in *. destruct (Ascii.ascii_dec c x); [apply IH, H|discriminate].
Qed.

Section Saving.
Variable sys : host.

(** X18. [save_processed] stores the payload of a data URL - the text
    after its comma, base64-decoded - in a new file named
    [<operation>_<uuid>.png] and answers with that name.  The operation
    is used as it comes: when it is an absolute path, the file is written
    there and not in the upload folder. *)
Theorem save_processed_trusts_operation prefix encoded operation bytes s :
  contains "," prefix = false ->
  contains "," encoded = false ->
  b64decode sys encoded = Ok bytes ->
  is_directory (files s) (dirname (processed_path sys operation (issued s))) = true ->
  files s !! processed_path sys operation (issued s) <> Some Directory ->
  save_processed sys
    (Some {| sb_image := Some (prefix +:+ "," +:+ encoded);
             sb_operation := Some operation |}) s
  = (Ok {| body_of := Saved (processed_name sys operation (issued s)); code := 200 |},
     {| files := <[processed_path sys operation (issued s) := File bytes]> (files s);
        issued := S (issued s);
        memory := memory s |}) /\
  (String.prefix "/" (py_str operation) = true ->
   processed_path sys operation (issued s) = processed_name sys operation (issued s)).
Proof.
  intros Hp He Hb Hd Hn. split.
  - unfold save_processed, try_route.
    assert (C : contains "," (prefix +:+ "," +:+ encoded) = true).
    { rewrite contains_app. cbn. rewrite orb_true_r. reflexivity. }
    rewrite C. change (prefix +:+ "," +:+ encoded) with (prefix +:+ String "," encoded).
    rewrite (split_on_two _ _ _ Hp He).
    change (of_outcome (py_index [prefix; encoded] 1)) with (@done string encoded).
    unfold and_then at 1. unfold done at 1.
    unfold and_then at 1. unfold of_result at 1. rewrite Hb.
    unfold and_then at 1. unfold uuid4 at 1. cbv zeta.
    fold (processed_name sys operation (issued s)).
    fold (processed_path sys operation (issued s)).
    unfold and_then, write_file. cbn [files]. rewrite Hd. cbn [negb].
    destruct (files s !! processed_path sys operation (issued s)) as [[c|]|] eqn:E;
      try reflexivity.
    contradiction.
  - intros Ha. apply path_join_absolute. unfold processed_name.
    apply prefix_append, Ha.
Qed.

End Saving.

(** ** Where uploads are written *)

Lemma touches_done {A} path (a : A) : touches_only path (done a).
Proof. intros s p _. reflexivity. Qed.

Lemma touches_fail {A} path f : touches_only path (@fail A f).
Proof. intros s p _. reflexivity. Qed.

Lemma touches_and_then {A B} path (m : R A) (k : A -> R B) :
  touches_only path m -> (forall a, touches_only path (k a)) ->
  touches_only path (and_then m k).
Proof.
  intros Hm Hk s p Hp. unfold and_then. pose proof (Hm s p Hp) as H1.
  destruct (m s) as [[a|f] s1]; cbn in *; [|exact H1].
  rewrite (Hk a s1 p Hp). exact H1.
Qed.

Lemma touches_of_outcome {A} path (o : outcome A) : touches_only path (of_outcome o).
Proof. intros s p _. unfold of_outcome. destruct o; reflexivity. Qed.

Lemma touches_write_file path content : touches_only path (write_file path content).
Proof.
  intros s p Hp. unfold write_file.
  destruct (negb _); [destruct (files s !! dirname path) as [[?|]|]; reflexivity|].
  destruct (files s !! path) as [[c|]|]; cbn; try reflexivity;
    apply lookup_insert_ne; congruence.
Qed.

Lemma touches_remove_file path : touches_only path (remove_file path).
Proof.
  intros s p Hp. unfold remove_file.
  destruct (files s !! path) as [[c|]|]; cbn; try reflexivity.
  apply lookup_delete_ne. congruence.
Qed.

Lemma touches_shape_entry path img i : touches_only path (shape_entry img i).
Proof. intros s p _. unfold shape_entry. destruct (np_shape img !! i); reflexivity. Qed.

Lemma contains_substring c n m s :
  contains c (substring n m s) = true -> contains c s = true.
Proof.
  revert n m. induction s as [|x s IH]; intros n m.
  - destruct n, m; cbn; auto.
  - destruct n as [|n].
    + destruct m as [|m]; cbn; [discriminate|].
      intros H. apply orb_prop in H as [H|H]; [rewrite H; reflexivity|].
      rewrite (IH 0%nat m H). apply orb_true_r.
    + cbn. intros H. rewrite (IH n m H). apply orb_true_r.
Qed.

Lemma no_slash_substring n m s :
  contains "/" s = false -> contains "/" (substring n m s) = false.
Proof.
  intros H. destruct (contains "/" (substring n m s)) eqn:E; [|reflexivity].
  apply contains_substring in E. congruence.
Qed.

Lemma splitext_no_slash s :
  contains "/" s = false ->
  contains "/" (splitext s).1 = false /\ contains "/" (splitext s).2 = false.
Proof.
  intros H. unfold splitext. cbv zeta.
  destruct (_ <? _); [|auto]. destruct (existsb _ _); [|auto].
  cbn [fst snd]. split; apply no_slash_substring, H.
Qed.

Lemma append_nonempty (a b : string) :
  String.eqb b "" = false -> String.eqb (a +:+ b) "" = false.
Proof.
  intros H. destruct a as [|c a]; [rewrite append_nil; exact H|].
  rewrite append_cons. reflexivity.
Qed.

Section Confined.
Variable sys : host.

Lemma saved_path_entry filename n :
  (forall f, contains "/" (secure_filename sys f) = false) ->
  (forall k, contains "/" (uuid_of sys k) = false) ->
  child_name UPLOAD_FOLDER (saved_path sys filename n)
  = Some (saved_name sys filename n).
Proof.
  intros Hs Hu.
  destruct (splitext_no_slash _ (Hs filename)) as [H1 H2].
  assert (N : contains "/" (saved_name sys filename n) = false).
  { unfold saved_name. rewrite !contains_app, H1, H2, Hu. reflexivity. }
  unfold saved_path. rewrite (entry_path _ N). apply child_name_entry; [|exact N].
  unfold saved_name. apply append_nonempty. reflexivity.
Qed.

Lemma upload_file_touches request_files s :
  exists filename,
    forall p, p <> saved_path sys filename (issued s) ->
              files (upload_file sys request_files s).2 !! p = files s !! p.
Proof.
  unfold upload_file.
  destruct (find _ request_files) as [[key file]|]; [|exists ""; reflexivity].
  exists (up_filename file). intros p Hp.
  destruct (String.eqb (up_filename file) ""); [reflexivity|].
  unfold and_then at 1. unfold of_outcome at 1.
  destruct (allowed_file (up_filename file)) as [[|]|e]; try reflexivity.
  unfold and_then at 1. unfold uuid4 at 1. cbv zeta.
  fold (saved_name sys (up_filename file) (issued s)).
  fold (saved_path sys (up_filename file) (issued s)).
  set (path := saved_path sys (up_filename file) (issued s)) in *.
  match goal with |- files (?m ?s1).2 !! p = _ =>
    assert (T : touches_only path m); [|rewrite (T s1 p Hp); reflexivity] end.
  apply touches_and_then; [apply touches_write_file|]. intros _.
  apply touches_and_then; [intros ? ? _; reflexivity|]. intros [img|].
  - apply touches_and_then; [apply touches_of_outcome|]. intros ?.
    apply touches_and_then; [apply touches_shape_entry|]. intros ?.
    apply touches_and_then; [apply touches_shape_entry|]. intros ?.
    apply touches_done.
  - apply touches_and_then; [apply touches_remove_file|]. intros _.
    apply touches_done.
Qed.

(** X19. Whatever is uploaded, [upload_file] changes the disk at most
    at one path, and that path is an entry of the upload folder - not of
    a subdirectory, not elsewhere - provided neither the secured name
    nor the identifier contains a slash. *)
Theorem uploads_stay_in_the_folder request_files s p :
  (forall f, contains "/" (secure_filename sys f) = false) ->
  (forall k, contains "/" (uuid_of sys k) = false) ->
  files (upload_file sys request_files s).2 !! p <> files s !! p ->
  exists name, child_name UPLOAD_FOLDER p = Some name.
Proof.
  intros Hs Hu Hp. destruct (upload_file_touches request_files s) as (filename & T).
  destruct (decide (p = saved_path sys filename (issued s))) as [->|N].
  - eexists. apply saved_path_entry; assumption.
  - exfalso. apply Hp, T, N.
Qed.

End Confined.

(** * The further theorems on concrete requests *)



(** X2, on [inpainting]. *)
Lemma unimported_transforms_are_unknown_witness :
  process_image stand_in [{| op_type := VStr "inpainting"; op_params := [] |}]
    sample_image empty_world
  = (Ret {| json := Error ("Unknown operation: " +:+ "inpainting"); status := 400 |},
     loaded sample_image empty_world).
Proof.
  apply (unimported_transforms_are_unknown stand_in "inpainting" (inpainting stand_in)).
  unfold unimported. rewrite !in_app_iff. right. right. cbn. tauto.
Defined.

(** X3, on the stage [negative]. *)
Lemma stage_entry_describes_its_output_witness :
  exists results' current_img' w',
    run_stage stand_in op_negative [] (VRef 1%nat) sample_world
      = (Ret (Continue results' current_img'), w') /\
    exists entry a,
      results' = [] ++ [entry] /\
      r_operation entry = op_type op_negative /\
      array_of current_img' w' = (Ret a, w') /\
      png_base64 stand_in (VArr a) = Ret (r_image entry) /\
      np_shape a !! 0%nat = Some (r_height entry) /\
      np_shape a !! 1%nat = Some (r_width entry).
Proof.
  eexists _, _, _. split.
  - vm_compute. reflexivity.
  - eapply (stage_entry_describes_its_output stand_in op_negative [] (VRef 1%nat)
              sample_world).
    vm_compute. reflexivity.
Defined.


(** X5, on [erosion(kernel_shape='diamond')]. *)
Lemma unknown_kernel_shape_means_rect_witness :
  same_image
    (erosion stand_in (VRef 1%nat) [("kernel_shape", VStr "diamond")] sample_world)
    (erosion stand_in (VRef 1%nat) [("kernel_shape", VStr "rect")] sample_world).
Proof.
  apply (unknown_kernel_shape_means_rect stand_in "erosion" (erosion stand_in)).
  - cbn. tauto.
  - discriminate.
  - discriminate.
Defined.

(** X6, on [channel_separation(color_space='rgb')]. *)
Lemma unsupported_color_space_is_refused_witness :
  channel_separation stand_in (VRef 1%nat) [("color_space", VStr "rgb")] sample_world
  = (Raise (ValueError ("Unsupported color space: " +:+ "rgb")), sample_world).
Proof.
  apply (unsupported_color_space_is_refused stand_in); discriminate.
Defined.

(** X7, on the default radius and a 1 x 2 image. *)
Lemma inpainting_needs_room_witness :
  exists w',
    inpainting stand_in (VRef 0%nat)
      [("mask_radius", VInt 20); ("num_points", VInt 5)] single_image_world
    = (Raise (ValueError "low >= high"), w') /\
    heap w' !! 0%nat = Some sample_image.
Proof.
  apply (inpainting_needs_room stand_in 0%nat
           [[(10, 20, 30); (200, 100, 50)]] 20 5 single_image_world).
  - reflexivity.
  - reflexivity.
  - lia.
  - left. cbn. lia.
Defined.

Lemma cv_luma_byte b g r :
  0 <= b < 256 -> 0 <= g < 256 -> 0 <= r < 256 -> 0 <= cv_luma b g r < 256.
Proof.
  intros Hb Hg Hr. unfold cv_luma. split.
  - apply Z.div_pos; lia.
  - apply Z.div_lt_upper_bound; lia.
Qed.

Lemma cv_luma_grey y : 0 <= y < 256 -> cv_luma y y y = y.
Proof.
  intros Hy. unfold cv_luma. symmetry.
  apply (Z.div_unique _ _ _ 16384); lia.
Qed.

(** X8, on [sample_image]. *)
Lemma grayscale_is_idempotent_witness :
  exists l1 w1 l2 w2 out,
    grayscale stand_in (VRef 1%nat) [] sample_world
      = (Ret (VTuple [VRef l1; VStr grayscale_description]), w1) /\
    grayscale stand_in (VRef l1) [] w1
      = (Ret (VTuple [VRef l2; VStr grayscale_description]), w2) /\
    heap w2 !! l1 = Some out /\
    heap w2 !! l2 = Some out.
Proof.
  apply (grayscale_is_idempotent stand_in 1%nat [[(10, 20, 30); (200, 100, 50)]]
           sample_world).
  - exact cv_luma_byte.
  - exact cv_luma_grey.
  - reflexivity.
  - reflexivity.
  - split; [repeat constructor|cbn; repeat constructor; lia].
Defined.

(** X9, on [sample_image] and the threshold 127. *)
Lemma inverted_threshold_is_the_negative_witness :
  exists l1 d1 w1 l2 w2 l3 d3 w3 out,
    threshold stand_in (VRef 1%nat)
      [("threshold_value", VInt 127); ("threshold_type", VInt THRESH_BINARY)]
      sample_world
      = (Ret (VTuple [VRef l1; VStr d1]), w1) /\
    negative stand_in (VRef l1) [] w1
      = (Ret (VTuple [VRef l2; VStr negative_description]), w2) /\
    threshold stand_in (VRef 1%nat)
      [("threshold_value", VInt 127); ("threshold_type", VInt THRESH_BINARY_INV)]
      sample_world
      = (Ret (VTuple [VRef l3; VStr d3]), w3) /\
    heap w2 !! l2 = Some out /\
    heap w3 !! l3 = Some out.
Proof.
  apply (inverted_threshold_is_the_negative stand_in 1%nat
           [[(10, 20, 30); (200, 100, 50)]] 127 sample_world);
    [reflexivity|reflexivity|lia].
Defined.

(** X10, on the platform [lab], where the notch is detected
    automatically and the transform returns. *)
Lemma notch_filter_always_says_manual_witness :
  returns (notch_filter lab (VRef 0%nat) []) (says_notch_mode "manually specified") /\
  exists v w', notch_filter lab (VRef 0%nat) [] single_image_world = (Ret v, w').
Proof.
  split.
  - apply (notch_filter_always_says_manual lab).
    intros a. eexists. reflexivity.
  - eexists _, _. vm_compute. reflexivity.
Defined.

(** X12, on the category [basic]. *)
Lemma listed_operations_are_the_transforms_witness :
  exists h,
    category_module stand_in "basic" = Some h /\
    In h (handlers stand_in) /\
    (forall name, In name (public_names (basic_ops stand_in))
                  <-> In name (map fst (methods h))) /\
    (forall name, In name (public_names (basic_ops stand_in)) ->
                  dispatch stand_in (VStr name) = Some (h, name)).
Proof.
  apply (listed_operations_are_the_transforms stand_in "basic").
  left. reflexivity.
Defined.

(** * The routes on a concrete disk *)

Lemma tally_no_slash k : contains "/" (tally k) = false.
Proof. induction k as [|k IH]; [reflexivity|]. cbn. exact IH. Qed.

Lemma demo_secure_no_slash f :
  contains "/" (secure_filename demo_host f) = false.
Proof. cbn. destruct (contains "/" f) eqn:E; [reflexivity|exact E]. Qed.

(** X14, on an upload [a.png] that is no image. *)
Lemma undecodable_upload_leaves_no_file_witness :
  exists s',
    upload_file demo_host (one_file "a.png" "junk") demo_site
    = (Ok {| body_of := ErrorBody "Invalid image file"; code := 400 |}, s') /\
    files s' = files demo_site.
Proof.
  apply (undecodable_upload_leaves_no_file demo_host "a.png" "junk" demo_site).
  - reflexivity.
  - vm_compute. reflexivity.
  - vm_compute. reflexivity.
  - reflexivity.
Defined.

(** X15, on an upload called [.png], whose secured name has no
    extension. *)
Lemma failed_encoding_leaves_the_upload_witness :
  exists s',
    upload_file demo_host (one_file ".png" "PNG") demo_site
    = (Fail (PyError (cv2_error "could not find encoder for the specified extension")),
       s') /\
    files s' !! saved_path demo_host ".png" (issued demo_site) = Some (File "PNG").
Proof.
  apply (failed_encoding_leaves_the_upload demo_host ".png" "PNG" sample_image).
  - reflexivity.
  - vm_compute. reflexivity.
  - vm_compute. reflexivity.
  - reflexivity.
  - reflexivity.
Defined.

(** X16, on the file [/srv/logo.png]. *)
Lemma process_reads_absolute_paths_witness :
  process_route stand_in demo_host
    (Some {| pb_filename := Some "/srv/logo.png";
             pb_operations := Some [op_negative] |}) demo_site
  = run_pipeline stand_in [op_negative] sample_image demo_site.
Proof.
  apply (process_reads_absolute_paths stand_in demo_host "/srv/logo.png"
           [op_negative] "PNG").
  - reflexivity.
  - vm_compute. reflexivity.
  - reflexivity.
Defined.

(** X17, on [demo_site]. *)
Lemma clear_uploads_removes_the_files_witness :
  exists s',
    clear_uploads demo_site = (Ok {| body_of := Cleared; code := 200 |}, s') /\
    issued s' = issued demo_site /\ memory s' = memory demo_site /\
    (forall p,
       files s' !! p
       = if is_upload (files demo_site) p then None else files demo_site !! p).
Proof.
  apply (clear_uploads_removes_the_files demo_site).
  vm_compute. reflexivity.
Defined.

(** X18, on a data URL and the operation [/srv/x]. *)
Lemma save_processed_trusts_operation_witness :
  save_processed demo_host
    (Some {| sb_image := Some ("data:image/png;base64" +:+ "," +:+ "UE5H");
             sb_operation := Some (VStr "/srv/x") |}) demo_site
  = (Ok {| body_of := Saved (processed_name demo_host (VStr "/srv/x")
                               (issued demo_site));
           code := 200 |},
     {| files := <[processed_path demo_host (VStr "/srv/x") (issued demo_site)
                   := File "UE5H"]> (files demo_site);
        issued := S (issued demo_site);
        memory := memory demo_site |}) /\
  (String.prefix "/" (py_str (VStr "/srv/x")) = true ->
   processed_path demo_host (VStr "/srv/x") (issued demo_site)
   = processed_name demo_host (VStr "/srv/x") (issued demo_site)).
Proof.
  apply (save_processed_trusts_operation demo_host "data:image/png;base64" "UE5H"
           (VStr "/srv/x") "UE5H" demo_site).
  - reflexivity.
  - reflexivity.
  - reflexivity.
  - vm_compute. reflexivity.
  - vm_compute. discriminate.
Defined.

(** X19, on an upload that is stored. *)
Lemma uploads_stay_in_the_folder_witness :
  exists name,
    child_name UPLOAD_FOLDER (saved_path demo_host "a.png" (issued demo_site))
    = Some name.
Proof.
  apply (uploads_stay_in_the_folder demo_host (one_file "a.png" "PNG") demo_site).
  - exact demo_secure_no_slash.
  - exact tally_no_slash.
  - vm_compute. discriminate.
Defined.

